(** * PyNIT project index: filters, scans and step directories

    A shallow embedding of [pynit/core/hendlers.py] (classes [Project] and
    [Process]) and of the helpers of [pynit/core/methods.py] they call
    ([SystemMethods], [ProjectMethods]).

    - pandas frames are values: every pandas call the source makes returns
      a new frame, none works in place;
    - Python objects that the source mutates in place or shares between a
      project and its shallow copies (the project object itself, the
      six-slot filter list and the lists stored in its slots) live in a
      heap of objects addressed by natural numbers;
    - the project directory is a tree whose directories list their entries
      in the order [os.listdir] would enumerate them;
    - exceptions and [sys.exit] are outcomes of a state-and-error monad,
      the state surviving a raise as it does in Python. *)

From Stdlib Require Import ZArith String Ascii DecimalString.
From stdpp Require Import base decidable option list strings gmap sorting.

Set Default Proof Using "Type".

(** ** Outcomes of Python computations *)

Inductive exn : Type :=
  | TypeError
  | ValueError
  | IndexError
  | OSError
  | AttributeError (attr : string)
  | KeyError (key : string)
  | EmptyProject
  | PipelineNotSet.

(** The classes of [messages.Errors] handed to [SystemMethods.raiseerror]. *)
Inductive errclass : Type :=
  | ProjectScanFailure
  | InputDataclassError
  | InputTypeError
  | KeywordError
  | InputValueError
  | UpdateAttributesFailed.

(** Text written to stderr by [raiseerror].  The one formatted message of
    the code modelled, ['Wrong filter input:{args}'], keeps the tuple of
    positional arguments it prints. *)
Inductive message : Type :=
  | MsgText (s : string)
  | MsgWrongFilterInput (args : list string).

Inductive outcome (A : Type) : Type :=
  | Ok (a : A)
  | Raise (e : exn)
  | SysExit (c : errclass) (m : message).
Arguments Ok {A} a.
Arguments Raise {A} e.
Arguments SysExit {A} c m.

Definition obind {A B} (o : outcome A) (k : A → outcome B) : outcome B :=
  match o with
  | Ok a => k a
  | Raise e => Raise e
  | SysExit c m => SysExit c m
  end.

Definition is_ok {A} (o : outcome A) : bool :=
  match o with Ok _ => true | _ => false end.

(** A raised exception can be caught by the caller's [except]; [sys.exit]
    ends the process unless [SystemExit] itself is intercepted. *)
Definition terminates_process {A} (o : outcome A) : bool :=
  match o with SysExit _ _ => true | _ => false end.

Global Instance exn_eq_dec : EqDecision exn.
Proof. solve_decision. Defined.
Global Instance errclass_eq_dec : EqDecision errclass.
Proof. solve_decision. Defined.
Global Instance message_eq_dec : EqDecision message.
Proof. solve_decision. Defined.

(** ** Python values that reach the modelled code as arguments *)

Inductive pyval : Type :=
  | VNone
  | VBool (b : bool)
  | VInt (z : Z)
  | VStr (s : string)
  | VList (l : list string).

Definition truthy (v : pyval) : bool :=
  match v with
  | VNone => false
  | VBool b => b
  | VInt z => negb (z =? 0)%Z
  | VStr s => negb (String.eqb s "")
  | VList l => match l with [] => false | _ => true end
  end.

(** A list-valued attribute that may hold [None]. *)
Definition pylist (A : Type) : Type := option (list A).

Definition truthy_list {A} (v : pylist A) : bool :=
  match v with Some (_ :: _) => true | _ => false end.

(** [sep.join(l)] *)
Definition py_join (sep : string) (l : list string) : string :=
  String.concat sep l.

(** [needle in hay] on two strings *)
Fixpoint str_in (needle hay : string) : bool :=
  String.prefix needle hay ||
  match hay with
  | EmptyString => false
  | String _ hay' => str_in needle hay'
  end.

(** [str(n)] for a non-negative integer, and [s.zfill(width)] *)
Definition py_str_nat (n : nat) : string :=
  NilEmpty.string_of_uint (Nat.to_uint n).

Definition zfill (width : nat) (s : string) : string :=
  String.concat "" (replicate (width - String.length s) "0"%string) +:+ s.

(** [l[i]] on a Python list, negative indices counting from the end. *)
Definition py_index {A} (l : list A) (i : Z) : outcome A :=
  let n := Z.of_nat (length l) in
  let j := (if i <? 0 then i + n else i)%Z in
  if (j <? 0)%Z then Raise IndexError
  else match l !! Z.to_nat j with
       | Some x => Ok x
       | None => Raise IndexError
       end.

(** [s.lstrip(c)], [s.rstrip(c)] and [s.strip(c)] for a one-character
    string [c]. *)
Fixpoint lstrip (c : ascii) (s : string) : string :=
  match s with
  | EmptyString => EmptyString
  | String d s' => if Ascii.eqb d c then lstrip c s' else s
  end.

Fixpoint rstrip (c : ascii) (s : string) : string :=
  match s with
  | EmptyString => EmptyString
  | String d s' =>
      match rstrip c s' with
      | EmptyString => if Ascii.eqb d c then EmptyString else String d EmptyString
      | t => String d t
      end
  end.

Definition strip (c : ascii) (s : string) : string := rstrip c (lstrip c s).

(** [c in s] for a character [c] *)
Fixpoint has_char (c : ascii) (s : string) : bool :=
  match s with
  | EmptyString => false
  | String d s' => Ascii.eqb d c || has_char c s'
  end.

(** [s.endswith(c)] for a character [c] *)
Fixpoint ends_with (c : ascii) (s : string) : bool :=
  match s with
  | EmptyString => false
  | String d s' =>
      match s' with
      | EmptyString => Ascii.eqb d c
      | String _ _ => ends_with c s'
      end
  end.

(** [s.split(c)] for a one-character separator: one more piece than there
    are separators, the empty pieces included. *)
Fixpoint py_split (c : ascii) (s : string) : list string :=
  match s with
  | EmptyString => [EmptyString]
  | String d s' =>
      if Ascii.eqb d c then EmptyString :: py_split c s'
      else match py_split c s' with
           | h :: t => String d h :: t
           | [] => [String d EmptyString]
           end
  end.

(** [s.rfind(c)]: the last index of [c]; [None] stands for [-1]. *)
Fixpoint rfind_from (c : ascii) (s : string) (i : nat) : option nat :=
  match s with
  | EmptyString => None
  | String d s' =>
      match rfind_from c s' (S i) with
      | Some j => Some j
      | None => if Ascii.eqb d c then Some i else None
      end
  end.

Definition rfind (c : ascii) (s : string) : option nat := rfind_from c s 0.

(** [os.path.splitext(p)] of [posixpath]: the extension starts at the last
    dot of the last component, unless only dots precede it there. *)
Definition splitext (p : string) : string * string :=
  match rfind "." p with
  | None => (p, EmptyString)
  | Some dotIndex =>
      let filenameIndex := match rfind "/" p with Some i => S i | None => 0 end in
      if (filenameIndex <=? dotIndex)
         && existsb (λ i, negb (bool_decide (String.get i p = Some "."%char)))
              (seq filenameIndex (dotIndex - filenameIndex))
      then (String.substring 0 dotIndex p,
            String.substring dotIndex (String.length p - dotIndex) p)
      else (p, EmptyString)
  end.

(** ** Regular-expression search

    [Series.str.contains(pat)] is [re.search(pat, s)] on each cell.  The
    engine is an interface of the development, so that what is proved holds
    whatever the patterns mean; [mini_re_search] below is an instance for the
    patterns the project builds from plain extensions and tags. *)

Class RegexEngine : Type := re_search : string → string → bool.

(** ** Frames *)

(** Column labels: the integer labels of the path components or the names
    they are renamed to. *)
Inductive label : Type :=
  | Pos (i : nat)
  | Name (s : string).

Global Instance label_eq_dec : EqDecision label.
Proof. solve_decision. Defined.

Global Instance label_countable : Countable label.
Proof.
  refine (inj_countable'
    (λ l, match l with Pos i => inl i | Name s => inr s end)
    (λ x, match x with inl i => Pos i | inr s => Name s end) _).
  by intros [].
Defined.

(** One row: the cells of the path columns (a label with no cell reads as
    NaN), and the two columns [parsing] sets on every row. *)
Record Row : Type := mkRow {
  cells : list (label * string);
  Filename : string;
  Abspath : string
}.

Global Instance Row_eq_dec : EqDecision Row.
Proof. solve_decision. Defined.

(** A frame: its column labels and its rows in order.  The labels are kept
    as a set, their order being a matter of display only; the integer row
    index, which [reset_index] renumbers, is the position in [rows]. *)
Record DataFrame : Type := mkDF {
  columns : gset label;
  rows : list Row
}.

Definition empty_frame : DataFrame := mkDF ∅ [].

Definition lbl_Filename : label := Name "Filename".
Definition lbl_Abspath : label := Name "Abspath".

(** [d.get(k)] on an association list *)
Fixpoint assoc {K V} `{EqDecision K} (k : K) (d : list (K * V)) : option V :=
  match d with
  | [] => None
  | (k', v) :: d' => if decide (k = k') then Some v else assoc k d'
  end.

Definition cell (r : Row) (l : label) : option string :=
  if decide (l = lbl_Filename) then Some (Filename r)
  else if decide (l = lbl_Abspath) then Some (Abspath r)
  else assoc l (cells r).

Definition row_labels (r : Row) : gset label :=
  list_to_set (fst <$> cells r) ∪ {[lbl_Filename; lbl_Abspath]}.

(** [df.append(pd.DataFrame([row]), ignore_index=True)] *)
Definition df_append (df : DataFrame) (r : Row) : DataFrame :=
  mkDF (columns df ∪ row_labels r) (rows df ++ [r]).

(** [df.rename(columns=m)] for a dict [m] with integer keys. *)
Definition rename_label (m : list (nat * string)) (l : label) : label :=
  match l with
  | Pos i => match assoc i m with
             | Some n => Name n
             | None => Pos i
             end
  | Name s => Name s
  end.

Definition df_rename (m : list (nat * string)) (df : DataFrame) : DataFrame :=
  mkDF (set_map (rename_label m) (columns df))
       ((λ r, mkRow (prod_map (rename_label m) id <$> cells r)
                    (Filename r) (Abspath r)) <$> rows df).

(** [df[mask]] for a mask computed row by row. *)
Definition df_filter (p : Row → bool) (df : DataFrame) : DataFrame :=
  mkDF (columns df) (List.filter p (rows df)).

(** [df[cols]]: a [KeyError] when a label is no column of the frame. *)
Definition df_select (cols : list string) (df : DataFrame) : outcome DataFrame :=
  match List.find (λ c, bool_decide (Name c ∉ columns df)) cols with
  | Some c => Raise (KeyError c)
  | None =>
      Ok (mkDF (list_to_set (Name <$> cols))
            ((λ r, mkRow
                (omap (λ c, if decide (Name c = lbl_Filename) then None
                            else if decide (Name c = lbl_Abspath) then None
                            else (Name c,.) <$> cell r (Name c)) cols)
                (Filename r) (Abspath r)) <$> rows df))
  end.

(** [df.sort_values('Abspath')]: rows by ascending path, Python comparing
    strings character code by character code. *)
Definition abspath_le (r1 r2 : Row) : Prop := String.le (Abspath r1) (Abspath r2).

Global Instance abspath_le_dec : RelDecision abspath_le.
Proof. intros r1 r2. unfold abspath_le. apply _. Defined.

Definition sort_values_Abspath (df : DataFrame) : DataFrame :=
  mkDF (columns df) (merge_sort abspath_le (rows df)).

(** [Series.isin(vals)] on one cell; NaN is in no list of strings. *)
Definition isin (vals : list string) (c : option string) : bool :=
  match c with
  | Some s => bool_decide (s ∈ vals)
  | None => false
  end.

(** [df[df.<col>.isin(vals)]]: attribute access to a missing column fails. *)
Definition narrow_isin (col : string) (vals : list string) (df : DataFrame)
    : outcome DataFrame :=
  if decide (Name col ∈ columns df)
  then Ok (df_filter (λ r, isin vals (cell r (Name col))) df)
  else Raise (AttributeError col).

(** [df[df.Filename.str.contains(pat)]] and its negation with [~]. *)
Definition narrow_contains `{RegexEngine} (keep : bool) (pat : string)
    (df : DataFrame) : outcome DataFrame :=
  if decide (lbl_Filename ∈ columns df)
  then Ok (df_filter (λ r, if keep then re_search pat (Filename r)
                           else negb (re_search pat (Filename r))) df)
  else Raise (AttributeError "Filename").

(** [sorted(list(set(col.tolist())))]: the distinct cells of a column in
    ascending order; a NaN cell ([None]) is a float, which Python 2 orders
    before every string. *)
Definition cell_le (c1 c2 : option string) : Prop :=
  match c1, c2 with
  | None, _ => True
  | Some _, None => False
  | Some s1, Some s2 => String.le s1 s2
  end.

Global Instance cell_le_dec : RelDecision cell_le.
Proof. intros [s1|] [s2|]; simpl; apply _. Defined.

Definition sorted_set (l : list (option string)) : list (option string) :=
  merge_sort cell_le (remove_dups l).

Definition column_values (col : string) (df : DataFrame)
    : outcome (list (option string)) :=
  if decide (Name col ∈ columns df)
  then Ok ((λ r, cell r (Name col)) <$> rows df)
  else Raise (AttributeError col).

(** ** The project directory *)

(** A directory lists its entries in the order [os.listdir] enumerates
    them, an order the file system is free to choose. *)
Inductive fsnode : Type :=
  | File (name : string)
  | Dir (name : string) (entries : list fsnode).

Definition node_name (n : fsnode) : string :=
  match n with File f => f | Dir d _ => d end.

Definition filenames (es : list fsnode) : list string :=
  omap (λ n, match n with File f => Some f | Dir _ _ => None end) es.

Definition dirnames (es : list fsnode) : list string :=
  omap (λ n, match n with File _ => None | Dir d _ => Some d end) es.

(** The entries of the sub-directory [d], if [d] names a directory. *)
Fixpoint subdir (d : string) (es : list fsnode) : option (list fsnode) :=
  match es with
  | [] => None
  | File f :: es' => if decide (f = d) then None else subdir d es'
  | Dir d' ch :: es' => if decide (d' = d) then Some ch else subdir d es'
  end.

(** The entries of the directory reached from [es] along [comps]. *)
Fixpoint lookup_dir (comps : list string) (es : list fsnode) : option (list fsnode) :=
  match comps with
  | [] => Some es
  | c :: comps' => subdir c es ≫= lookup_dir comps'
  end.

Definition has_entry (d : string) (es : list fsnode) : bool :=
  bool_decide (d ∈ node_name <$> es).

(** Replace the entries of the sub-directory [d]. *)
Fixpoint update_subdir (d : string) (f : list fsnode → option (list fsnode))
    (es : list fsnode) : option (list fsnode) :=
  match es with
  | [] => None
  | File f' :: es' =>
      if decide (f' = d) then None else (File f' ::.) <$> update_subdir d f es'
  | Dir d' ch :: es' =>
      if decide (d' = d) then (λ ch', Dir d' ch' :: es') <$> f ch
      else (Dir d' ch ::.) <$> update_subdir d f es'
  end.

(** [os.mkdir] along plain names: [None] stands for the [OSError] of an
    existing entry or a missing parent. *)
Fixpoint mkdir_at (comps : list string) (es : list fsnode) : option (list fsnode) :=
  match comps with
  | [] => None
  | [d] => if has_entry d es then None else Some (es ++ [Dir d []])
  | c :: comps' => update_subdir c (mkdir_at comps') es
  end.

(** The names a path goes through below the project directory, as the
    file system resolves its pieces from the directory [stack]: an empty
    piece (a doubled or a trailing separator) is passed over, [.] stays
    in a directory that has to be there, [..] leaves one that has to be
    there.  [None] stands for a path that does not resolve, or that
    leaves the project directory. *)
Fixpoint resolve (es : list fsnode) (stack parts : list string)
    : option (list string) :=
  match parts with
  | [] => Some stack
  | c :: parts' =>
      if String.eqb c "" then resolve es stack parts'
      else if String.eqb c "." then
        match lookup_dir stack es with
        | Some _ => resolve es stack parts'
        | None => None
        end
      else if String.eqb c ".." then
        match stack, lookup_dir stack es with
        | _ :: _, Some _ => resolve es (removelast stack) parts'
        | _, _ => None
        end
      else resolve es (stack ++ [c]) parts'
  end.

(** [os.mkdir(os.path.join(path, c1, ..., cn))] on the entries of the
    project directory [path], which is taken to be there: the components
    are joined, and the path is resolved piece by piece.  [None] stands
    for the error [os.mkdir] raises.  A component that is an absolute
    path, and a path that goes above the project directory, point outside
    the entries kept here and make nothing among them; a null character
    is refused. *)
Definition os_mkdir (comps : list string) (es : list fsnode) : option (list fsnode) :=
  if existsb (λ c, String.prefix "/" c || has_char "000" c) comps then None
  else resolve es [] (comps ≫= py_split "/") ≫= λ cs, mkdir_at cs es.

(** [os.walk(top)] top-down: one triple [(dirpath, dirnames, filenames)]
    per directory, [dirpath] kept as the components below the project
    root. *)
Fixpoint walk_from (parent : list string) (n : fsnode)
    : list (list string * list string * list string) :=
  match n with
  | File _ => []
  | Dir d es =>
      (parent ++ [d], dirnames es, filenames es)
        :: List.flat_map (walk_from (parent ++ [d])) es
  end.

Definition os_walk (root : list fsnode) (top : string)
    : list (list string * list string * list string) :=
  match subdir top root with
  | Some es => walk_from [] (Dir top es)
  | None => []
  end.

(** [os.path.join(a, b)] of [posixpath]: an absolute [b] stands alone,
    and no separator is added to an empty [a] or to one that ends with a
    separator. *)
Definition os_path_join (a b : string) : string :=
  if String.prefix "/" b then b
  else if String.eqb a "" || ends_with "/" a then a +:+ b
  else a +:+ "/" +:+ b.

(** ** Objects, heap and world *)

(** Addresses of heap objects. *)
Abbreviation addr := nat (only parsing).

(** A derived list ([subjects], [sessions], ...): [None] or the sorted
    distinct cells of a column. *)
Definition vocab : Type := pylist (option string).

(** The attributes of a [Project] instance.  [img_ext] and [ds_type] come
    from the reference of the data structure, looked up once by
    [__init__].  [_ext] and the six derived lists do not exist until they
    are first assigned: [None] is the unset attribute, whose read raises
    [AttributeError]. *)
Record ProjectObj : Type := mkProject {
  single_session : bool;
  empty_project : bool;
  filters : addr;
  path : string;
  df : DataFrame;
  img_ext : list string;
  ds_type : list string;
  dc_idx : Z;
  ext_filter : pylist string;
  _ext : option pyval;
  subjects : option vocab;
  sessions : option vocab;
  dtypes : option vocab;
  pipelines : option vocab;
  steps : option vocab;
  results : option vocab
}.

(** Attribute assignment, one function per attribute the code assigns. *)
Definition with_single_session (v : bool) (p : ProjectObj) : ProjectObj :=
  mkProject v (empty_project p) (filters p) (path p) (df p) (img_ext p)
    (ds_type p) (dc_idx p) (ext_filter p) (_ext p) (subjects p)
    (sessions p) (dtypes p) (pipelines p) (steps p) (results p).
Definition with_empty_project (v : bool) (p : ProjectObj) : ProjectObj :=
  mkProject (single_session p) v (filters p) (path p) (df p) (img_ext p)
    (ds_type p) (dc_idx p) (ext_filter p) (_ext p) (subjects p)
    (sessions p) (dtypes p) (pipelines p) (steps p) (results p).
Definition with_filters (v : addr) (p : ProjectObj) : ProjectObj :=
  mkProject (single_session p) (empty_project p) v (path p) (df p) (img_ext p)
    (ds_type p) (dc_idx p) (ext_filter p) (_ext p) (subjects p)
    (sessions p) (dtypes p) (pipelines p) (steps p) (results p).
Definition with_df (v : DataFrame) (p : ProjectObj) : ProjectObj :=
  mkProject (single_session p) (empty_project p) (filters p) (path p) v (img_ext p)
    (ds_type p) (dc_idx p) (ext_filter p) (_ext p) (subjects p)
    (sessions p) (dtypes p) (pipelines p) (steps p) (results p).
Definition with_dc_idx (v : Z) (p : ProjectObj) : ProjectObj :=
  mkProject (single_session p) (empty_project p) (filters p) (path p) (df p) (img_ext p)
    (ds_type p) v (ext_filter p) (_ext p) (subjects p)
    (sessions p) (dtypes p) (pipelines p) (steps p) (results p).
Definition with_ext_filter (v : pylist string) (p : ProjectObj) : ProjectObj :=
  mkProject (single_session p) (empty_project p) (filters p) (path p) (df p) (img_ext p)
    (ds_type p) (dc_idx p) v (_ext p) (subjects p)
    (sessions p) (dtypes p) (pipelines p) (steps p) (results p).
Definition with__ext (v : option pyval) (p : ProjectObj) : ProjectObj :=
  mkProject (single_session p) (empty_project p) (filters p) (path p) (df p) (img_ext p)
    (ds_type p) (dc_idx p) (ext_filter p) v (subjects p)
    (sessions p) (dtypes p) (pipelines p) (steps p) (results p).
Definition with_subjects (v : option vocab) (p : ProjectObj) : ProjectObj :=
  mkProject (single_session p) (empty_project p) (filters p) (path p) (df p) (img_ext p)
    (ds_type p) (dc_idx p) (ext_filter p) (_ext p) v
    (sessions p) (dtypes p) (pipelines p) (steps p) (results p).
Definition with_sessions (v : option vocab) (p : ProjectObj) : ProjectObj :=
  mkProject (single_session p) (empty_project p) (filters p) (path p) (df p) (img_ext p)
    (ds_type p) (dc_idx p) (ext_filter p) (_ext p) (subjects p)
    v (dtypes p) (pipelines p) (steps p) (results p).
Definition with_dtypes (v : option vocab) (p : ProjectObj) : ProjectObj :=
  mkProject (single_session p) (empty_project p) (filters p) (path p) (df p) (img_ext p)
    (ds_type p) (dc_idx p) (ext_filter p) (_ext p) (subjects p)
    (sessions p) v (pipelines p) (steps p) (results p).
Definition with_pipelines (v : option vocab) (p : ProjectObj) : ProjectObj :=
  mkProject (single_session p) (empty_project p) (filters p) (path p) (df p) (img_ext p)
    (ds_type p) (dc_idx p) (ext_filter p) (_ext p) (subjects p)
    (sessions p) (dtypes p) v (steps p) (results p).
Definition with_steps (v : option vocab) (p : ProjectObj) : ProjectObj :=
  mkProject (single_session p) (empty_project p) (filters p) (path p) (df p) (img_ext p)
    (ds_type p) (dc_idx p) (ext_filter p) (_ext p) (subjects p)
    (sessions p) (dtypes p) (pipelines p) v (results p).
Definition with_results (v : option vocab) (p : ProjectObj) : ProjectObj :=
  mkProject (single_session p) (empty_project p) (filters p) (path p) (df p) (img_ext p)
    (ds_type p) (dc_idx p) (ext_filter p) (_ext p) (subjects p)
    (sessions p) (dtypes p) (pipelines p) (steps p) v.

(** The attributes of a [Process] instance; [_pipeline] is unset until
    [initiate_pipeline] assigns it. *)
Record ProcessObj : Type := mkProcess {
  _subjects : vocab;
  _sessions : vocab;
  _prjobj : addr;
  _pipeline : option string
}.

Inductive obj : Type :=
  | OProject (p : ProjectObj)
  | OProcess (p : ProcessObj)
  | OSlots (l : list (option addr))   (* the list [self.__filters] *)
  | OList (l : list string).          (* a list stored in one of its slots *)

(** The heap of objects and the entries of the project directory, a
    directory that is taken to be there. *)
Record world : Type := mkWorld {
  heap : list obj;
  root : list fsnode
}.

(** ** The monad of Python computations *)

Definition M (A : Type) : Type := world → outcome A * world.

Definition ret {A} (a : A) : M A := λ w, (Ok a, w).

Definition bind {A B} (m : M A) (k : A → M B) : M B :=
  λ w, match m w with
       | (Ok a, w') => k a w'
       | (Raise e, w') => (Raise e, w')
       | (SysExit c msg, w') => (SysExit c msg, w')
       end.

Notation "x <- m ;; k" := (bind m (λ x, k))
  (at level 100, m at next level, right associativity, only parsing).
Notation "m ;; k" := (bind m (λ _, k))
  (at level 100, right associativity, only parsing).

Definition raise {A} (e : exn) : M A := λ w, (Raise e, w).

Definition lift {A} (o : outcome A) : M A := λ w, (o, w).

(** [try: m  except: h] with a bare [except], which also intercepts
    [SystemExit]. *)
Definition try_except {A} (m h : M A) : M A :=
  λ w, match m w with
       | (Ok a, w') => (Ok a, w')
       | (_, w') => h w'
       end.

(** [for x in l: body] *)
Fixpoint for_each {A} (l : list A) (body : A → M unit) : M unit :=
  match l with
  | [] => ret ()
  | x :: l' => body x ;; for_each l' body
  end.

(** [for x in f:] where [f] is a bound method left uncalled: a method
    object is not iterable. *)
Definition iter_method {A} : M (list A) := raise TypeError.

Definition alloc (o : obj) : M addr :=
  λ w, (Ok (length (heap w)), mkWorld (heap w ++ [o]) (root w)).

Definition store (a : addr) (o : obj) : M unit :=
  λ w, (Ok (), mkWorld (<[a := o]> (heap w)) (root w)).

(** [self.<name>] on a [Project] instance. *)
Definition getattr {A} (s : addr) (name : string) (f : ProjectObj → A) : M A :=
  λ w, match heap w !! s with
       | Some (OProject p) => (Ok (f p), w)
       | _ => (Raise (AttributeError name), w)
       end.

(** ... for an attribute that may not have been assigned yet. *)
Definition getattr_opt {A} (s : addr) (name : string)
    (f : ProjectObj → option A) : M A :=
  v <- getattr s name f ;;
  match v with
  | Some a => ret a
  | None => raise (AttributeError name)
  end.

(** [self.<name> = v] *)
Definition setattr (s : addr) (name : string) (upd : ProjectObj → ProjectObj)
    : M unit :=
  λ w, match heap w !! s with
       | Some (OProject p) =>
           (Ok (), mkWorld (<[s := OProject (upd p)]> (heap w)) (root w))
       | _ => (Raise (AttributeError name), w)
       end.

(** The same on a [Process] instance. *)
Definition proc_getattr {A} (self : addr) (name : string) (f : ProcessObj → A)
    : M A :=
  λ w, match heap w !! self with
       | Some (OProcess p) => (Ok (f p), w)
       | _ => (Raise (AttributeError name), w)
       end.

Definition proc_getattr_opt {A} (self : addr) (name : string)
    (f : ProcessObj → option A) : M A :=
  v <- proc_getattr self name f ;;
  match v with
  | Some a => ret a
  | None => raise (AttributeError name)
  end.

Definition proc_setattr (self : addr) (name : string)
    (upd : ProcessObj → ProcessObj) : M unit :=
  λ w, match heap w !! self with
       | Some (OProcess p) =>
           (Ok (), mkWorld (<[self := OProcess (upd p)]> (heap w)) (root w))
       | _ => (Raise (AttributeError name), w)
       end.

Definition load_slots (a : addr) : M (list (option addr)) :=
  λ w, match heap w !! a with
       | Some (OSlots l) => (Ok l, w)
       | _ => (Raise TypeError, w)
       end.

Definition load_list (a : addr) : M (list string) :=
  λ w, match heap w !! a with
       | Some (OList l) => (Ok l, w)
       | _ => (Raise TypeError, w)
       end.

Definition read_root : M (list fsnode) := λ w, (Ok (root w), w).

Module SystemMethods.

(** [mkdir] of several paths: each path is given by the components its
    caller joins to the project path; a failing [os.mkdir] is passed
    over. *)
Definition mkdir (paths : list (list string)) : M unit :=
  for_each paths (λ comps w,
    (Ok (), mkWorld (heap w) (default (root w) (os_mkdir comps (root w))))).

(** [raiseerror] raises the exception, catches it at once, writes the
    message to stderr and calls [sys.exit()]. *)
Definition raiseerror {A} (exception : errclass) (msg : message) : M A :=
  λ w, (SysExit exception msg, w).

(** [path.strip(os.sep).split(os.sep)] *)
Definition path_splitter (path : string) : list string :=
  py_split "/" (strip "/" path).

End SystemMethods.

(** ** [ProjectMethods] *)

Module ProjectMethods.

Definition update_columns (idx : Z) (single_session : bool) : list (nat * string) :=
  if (idx =? 0)%Z then
    let '(subject, session, dtype) :=
      if single_session then (1, 3, 2) else (1, 2, 3) in
    [(0, "DataClass"); (subject, "Subject"); (session, "Session");
     (dtype, "DataType")]
  else if (idx =? 1)%Z then
    [(0, "DataClass"); (1, "Pipeline"); (2, "Step"); (3, "Subject");
     (4, "Session")]
  else if (idx =? 2)%Z then
    [(0, "DataClass"); (1, "Pipeline"); (2, "Result"); (3, "Subject");
     (4, "Session")]
  else [(0, "DataClass")].

Definition reorder_columns (idx : Z) (single_session : bool) : option (list string) :=
  if (idx =? 0)%Z then
    if single_session then Some ["Subject"; "DataType"; "Filename"; "Abspath"]
    else Some ["Subject"; "Session"; "DataType"; "Filename"; "Abspath"]
  else if (idx =? 1)%Z then
    if single_session
    then Some ["Pipeline"; "Step"; "Subject"; "Filename"; "Abspath"]
    else Some ["Pipeline"; "Step"; "Subject"; "Session"; "Filename"; "Abspath"]
  else if (idx =? 2)%Z then
    if single_session
    then Some ["Pipeline"; "Result"; "Subject"; "Filename"; "Abspath"]
    else Some ["Pipeline"; "Result"; "Subject"; "Session"; "Filename"; "Abspath"]
  else None.

(** The rows the loop of [parsing] appends, in the order of the walk:
    one per file name of each triple. *)
Definition walk_rows (path : string)
    (walk : list (list string * list string * list string)) : list Row :=
  '(dirpath, _, files) ← walk;
  filename ← files;
  [mkRow (imap (λ i c, (Pos i, c)) dirpath)
         filename
         (os_path_join (foldl os_path_join path dirpath) filename)].

Definition parsing (root : list fsnode) (path : string) (ds_type : list string)
    (idx : Z) : outcome (DataFrame * bool * bool) :=
  obind (py_index ds_type idx) (λ top,
    let df := foldl df_append empty_frame (walk_rows path (os_walk root top)) in
    let single_session :=
      if (idx =? 0)%Z then bool_decide (size (columns df) = 5)
      else bool_decide (size (columns df) = 6) in
    let df := df_rename (update_columns idx single_session) df in
    let empty_prj :=
      if decide (Name "Subject" ∉ columns df) then true
      else if decide (length (rows df) = 0) then true
      else false in
    if empty_prj then Ok (empty_frame, single_session, empty_prj)
    else Ok (sort_values_Abspath df, single_session, empty_prj)).

Definition initial_filter `{RegexEngine} (df : DataFrame)
    (data_class : list string) (ext : pylist string) : outcome DataFrame :=
  obind (match data_class with
         | [] => Ok df
         | _ :: _ =>
             if decide (Name "DataClass" ∈ columns df)
             then Ok (df_filter
                        (λ r, isin data_class (cell r (Name "DataClass"))) df)
             else Raise (KeyError "DataClass")
         end) (λ df,
  obind (match ext with
         | Some ((_ :: _) as ext) =>
             if decide (lbl_Filename ∈ columns df)
             then Ok (df_filter (λ r, re_search (py_join "|" ext) (Filename r)) df)
             else Raise (KeyError "Filename")
         | _ => Ok df
         end) (λ df, Ok df)).

(** [l.remove(x)]: drops the first occurrence (the caller checks that
    there is one). *)
Fixpoint list_remove (x : string) (l : list string) : list string :=
  match l with
  | [] => []
  | y :: l' => if decide (x = y) then l' else y :: list_remove x l'
  end.

(** [arg in lists] raises a [TypeError] on [None]; the comprehension
    evaluates it once per argument. *)
Definition check_arguments (args residuals : list string)
    (lists : pylist (option string)) : outcome (list string * list string) :=
  obind (match args, lists with
         | [], _ => Ok []
         | _ :: _, None => Raise TypeError
         | _ :: _, Some v => Ok (List.filter (λ a, bool_decide (Some a ∈ v)) args)
         end) (λ filter,
    Ok (filter,
        foldl (λ res comp,
                 if bool_decide (comp ∈ res) then list_remove comp res else res)
              residuals filter)).

(** The name [get_step_name] settles on, given the directories it found
    under the pipeline directory. *)
Definition step_name (executed_steps : list string) (step : string) : string :=
  match executed_steps with
  | _ :: _ =>
      match List.filter (λ old_step, str_in step old_step) executed_steps with
      | old :: _ => old
      | [] => py_join "_" [zfill 3 (py_str_nat (length executed_steps + 1)); step]
      end
  | [] => py_join "_" [zfill 3 (py_str_nat 1); step]
  end.

(** [prjobj.path], [prjobj.ds_type] and [prjobj.pipeline] on whatever
    object the caller passes: [Project] defines the first two, [Process]
    defines none of the three (its attributes are [_prjobj],
    [_pipeline], [_subjects] and [_sessions]). *)
Definition attr_path (prjobj : addr) : M string :=
  λ w, match heap w !! prjobj with
       | Some (OProject p) => (Ok (path p), w)
       | _ => (Raise (AttributeError "path"), w)
       end.

Definition attr_ds_type (prjobj : addr) : M (list string) :=
  λ w, match heap w !! prjobj with
       | Some (OProject p) => (Ok (ds_type p), w)
       | _ => (Raise (AttributeError "ds_type"), w)
       end.

Definition attr_pipeline (prjobj : addr) : M string :=
  λ w, match heap w !! prjobj with
       | Some (OProject _) => (Raise (AttributeError "pipeline"), w)
       | _ => (Raise (AttributeError "pipeline"), w)
       end.

(** [os.listdir(p)] filtered by [os.path.isdir] *)
Definition list_dirs (comps : list string) : M (list string) :=
  r <- read_root ;;
  match lookup_dir comps r with
  | Some es => ret (dirnames es)
  | None => raise OSError
  end.

Definition get_step_name (prjobj : addr) (step : string) : M string :=
  _ <- attr_path prjobj ;;
  ds <- attr_ds_type prjobj ;;
  processing <- lift (py_index ds 1) ;;
  pipeline <- attr_pipeline prjobj ;;
  executed_steps <- list_dirs [processing; pipeline] ;;
  ret (step_name executed_steps step).

Definition mk_main_folder (prj : addr) : M unit :=
  ds <- getattr prj "ds_type" ds_type ;;
  d0 <- lift (py_index ds 0) ;;
  d1 <- lift (py_index ds 1) ;;
  d2 <- lift (py_index ds 2) ;;
  SystemMethods.mkdir [[d0]; [d1]; [d2]].

End ProjectMethods.

(** ** [InternalMethods]: the helpers on paths and keyword arguments *)

Module InternalMethods.

Definition remove_nifti_ext (path : string) : string :=
  let filename := (splitext path).1 in
  if str_in ".nii" filename then (splitext filename).1 else filename.

(** [while '.nii' in path: path = os.path.splitext(path)[0]]; [fuel]
    bounds the number of iterations, [None] standing for a loop that has
    not ended within it. *)
Fixpoint splitnifti (fuel : nat) (path : string) : option string :=
  match fuel with
  | 0 => None
  | S fuel' =>
      if str_in ".nii" path then splitnifti fuel' (splitext path).1
      else Some path
  end.

(** [kwargs[key]] on a dict given by its items in iteration order. *)
Definition dict_getitem (kwargs : list (string * pyval)) (key : string)
    : outcome pyval :=
  match assoc key kwargs with
  | Some v => Ok v
  | None => Raise (KeyError key)
  end.

Definition check_invert (kwargs : list (string * pyval))
    : outcome (pyval * pyval * pyval) :=
  match kwargs with
  | [] => Ok (VBool false, VBool false, VBool false)
  | _ :: _ =>
      foldl (λ acc arg,
               obind acc (λ '(invertx, inverty, invertz),
               obind (if decide (arg = "invertx") then dict_getitem kwargs arg
                      else Ok invertx) (λ invertx,
               obind (if decide (arg = "inverty") then dict_getitem kwargs arg
                      else Ok inverty) (λ inverty,
               obind (if decide (arg = "invertz") then dict_getitem kwargs arg
                      else Ok invertz) (λ invertz,
               Ok (invertx, inverty, invertz))))))
            (Ok (VBool false, VBool false, VBool false)) kwargs.*1
  end.

(** [check_input_dataclass]; [exists] answers [os.path.exists]. *)
Definition check_input_dataclass (exists_ : string → bool) (datatype : string)
    : outcome (Z * string) :=
  if exists_ datatype then
    obind (py_index (SystemMethods.path_splitter datatype) (-1)) (λ datatype,
    Ok (1%Z, datatype))
  else Ok (0%Z, datatype).

End InternalMethods.


(** ** [class Project] *)

Module Project.
Section methods.
Context `{RegexEngine}.

(** The properties [df], [path], [ext] and the six derived lists.
    [df] returns [self.__df.reset_index()[columns]], the same frame with
    its row index renumbered. *)
Definition df_ (s : addr) : M DataFrame := getattr s "_Project__df" df.
Definition path_ (s : addr) : M string := getattr s "_Project__path" path.
Definition ext_ (s : addr) : M (pylist string) :=
  getattr s "_Project__ext_filter" ext_filter.
Definition subjects_ (s : addr) : M vocab :=
  getattr_opt s "_Project__subjects" subjects.
Definition sessions_ (s : addr) : M vocab :=
  getattr_opt s "_Project__sessions" sessions.
Definition dtypes_ (s : addr) : M vocab :=
  getattr_opt s "_Project__dtypes" dtypes.
Definition pipelines_ (s : addr) : M vocab :=
  getattr_opt s "_Project__pipelines" pipelines.
Definition steps_ (s : addr) : M vocab :=
  getattr_opt s "_Project__steps" steps.
Definition results_ (s : addr) : M vocab :=
  getattr_opt s "_Project__results" results.

(** The property [dataclass]: [self.ds_type[self.__dc_idx]] *)
Definition dataclass_ (s : addr) : M string :=
  ds <- getattr s "ds_type" ds_type ;;
  idx <- getattr s "_Project__dc_idx" dc_idx ;;
  lift (py_index ds idx).

Definition pyval_of_list (v : pylist string) : pyval :=
  match v with Some l => VList l | None => VNone end.

(** [self.__filters[i]]: the reference held by slot [i] ... *)
Definition slot_get (s : addr) (i : nat) : M (option addr) :=
  fa <- getattr s "_Project__filters" filters ;;
  sl <- load_slots fa ;;
  match sl !! i with
  | Some v => ret v
  | None => raise IndexError
  end.

(** ... and the value it denotes, [None] or a list. *)
Definition slot_value (s : addr) (i : nat) : M (pylist string) :=
  v <- slot_get s i ;;
  match v with
  | None => ret None
  | Some a => l <- load_list a ;; ret (Some l)
  end.

(** [self.__filters[i] = v] *)
Definition slot_set (s : addr) (i : nat) (v : option addr) : M unit :=
  fa <- getattr s "_Project__filters" filters ;;
  sl <- load_slots fa ;;
  if decide (i < length sl) then store fa (OSlots (<[i := v]> sl))
  else raise IndexError.

(** [self.__filters[i] = l] for a list [l] built by the caller *)
Definition slot_assign (s : addr) (i : nat) (l : list string) : M unit :=
  a <- alloc (OList l) ;;
  slot_set s i (Some a).

(** The pattern of [set_filters]:
    [if self.__filters[i]: self.__filters[i].extend(new)]
    [else: self.__filters[i] = new[:]] *)
Definition extend_or_assign (s : addr) (i : nat) (new : list string) : M unit :=
  cur <- slot_value s i ;;
  if truthy_list cur then
    a <- slot_get s i ;;
    match a with
    | Some a => l <- load_list a ;; store a (OList (l ++ new))
    | None => raise (AttributeError "extend")
    end
  else slot_assign s i new.

(** [sorted(list(set(self.df.<col>.tolist())))] *)
Definition derive (s : addr) (col : string) : M vocab :=
  d <- df_ s ;;
  v <- lift (column_values col d) ;;
  ret (Some (sorted_set v)).

Definition __update (s : addr) : M unit :=
  d <- df_ s ;;
  if negb (length (rows d) =? 0) then
    try_except
      (v <- derive s "Subject" ;;
       setattr s "_Project__subjects" (with_subjects (Some v)) ;;
       single <- getattr s "single_session" single_session ;;
       (if single : bool
        then setattr s "_Project__sessions" (with_sessions (Some None))
        else v <- derive s "Session" ;;
             setattr s "_Project__sessions" (with_sessions (Some v))) ;;
       idx <- getattr s "_Project__dc_idx" dc_idx ;;
       if (idx =? 0)%Z then
         v <- derive s "DataType" ;;
         setattr s "_Project__dtypes" (with_dtypes (Some v)) ;;
         setattr s "_Project__pipelines" (with_pipelines (Some None)) ;;
         setattr s "_Project__steps" (with_steps (Some None)) ;;
         setattr s "_Project__results" (with_results (Some None))
       else if (idx =? 1)%Z then
         setattr s "_Project__dtypes" (with_dtypes (Some None)) ;;
         v <- derive s "Pipeline" ;;
         setattr s "_Project__pipelines" (with_pipelines (Some v)) ;;
         v <- derive s "Step" ;;
         setattr s "_Project__steps" (with_steps (Some v)) ;;
         setattr s "_Project__results" (with_results (Some None))
       else if (idx =? 2)%Z then
         setattr s "_Project__dtypes" (with_dtypes (Some None)) ;;
         v <- derive s "Pipeline" ;;
         setattr s "_Project__pipelines" (with_pipelines (Some v)) ;;
         v <- derive s "Result" ;;
         setattr s "_Project__results" (with_results (Some v)) ;;
         setattr s "_Project__steps" (with_steps (Some None))
       else ret ())
      (SystemMethods.raiseerror UpdateAttributesFailed
         (MsgText "Error occured during update project's attributes"))
  else
    setattr s "_Project__subjects" (with_subjects (Some None)) ;;
    setattr s "_Project__sessions" (with_sessions (Some None)) ;;
    setattr s "_Project__dtypes" (with_dtypes (Some None)) ;;
    setattr s "_Project__pipelines" (with_pipelines (Some None)) ;;
    setattr s "_Project__steps" (with_steps (Some None)) ;;
    setattr s "_Project__results" (with_results (Some None)).

Definition scan_prj (s : addr) : M unit :=
  p <- path_ s ;;
  ds <- getattr s "ds_type" ds_type ;;
  idx <- getattr s "_Project__dc_idx" dc_idx ;;
  r <- read_root ;;
  res <- lift (ProjectMethods.parsing r p ds idx) ;;
  let '(d, single, empty_prj) := res in
  setattr s "_Project__df" (with_df d) ;;
  setattr s "single_session" (with_single_session single) ;;
  if negb empty_prj then
    d <- getattr s "_Project__df" df ;;
    ds <- getattr s "ds_type" ds_type ;;
    e <- getattr s "_Project__ext_filter" ext_filter ;;
    d <- lift (ProjectMethods.initial_filter d ds e) ;;
    setattr s "_Project__df" (with_df d) ;;
    d <- getattr s "_Project__df" df ;;
    (if negb (length (rows d) =? 0) then
       idx <- getattr s "_Project__dc_idx" dc_idx ;;
       single <- getattr s "single_session" single_session ;;
       d <- lift (match ProjectMethods.reorder_columns idx single with
                  | Some cols => df_select cols d
                  | None => Raise (KeyError "None")
                  end) ;;
       setattr s "_Project__df" (with_df d)
     else ret ()) ;;
    __update s ;;
    setattr s "_Project__empty_project" (with_empty_project false)
  else
    setattr s "_Project__empty_project" (with_empty_project true).

Definition reset_filters (s : addr) (ext : pyval) : M unit :=
  fa <- alloc (OSlots (replicate 6 None)) ;;
  setattr s "_Project__filters" (with_filters fa) ;;
  (if negb (truthy ext) then
     e <- getattr s "img_ext" img_ext ;;
     setattr s "_ext" (with__ext (Some (VList e)))
   else setattr s "_ext" (with__ext (Some ext))) ;;
  scan_prj s ;;
  __update s.

(** The setter of the property [dataclass]; [reset_filters()] takes its
    default [ext=None]. *)
Definition dataclass_set (s : addr) (idx : Z) : M unit :=
  if decide (0 ≤ idx < 3)%Z then
    setattr s "_Project__dc_idx" (with_dc_idx idx) ;;
    reset_filters s VNone ;;
    __update s
  else SystemMethods.raiseerror InputDataclassError
         (MsgText "Wrong dataclass index.").

(** The setter of the property [ext]. *)
Definition ext_set (s : addr) (value : pyval) : M unit :=
  match value with
  | VStr v => setattr s "_Project__ext_filter" (with_ext_filter (Some [v]))
  | VList l => setattr s "_Project__ext_filter" (with_ext_filter (Some l))
  | _ =>
      if negb (truthy value)
      then setattr s "_Project__ext_filter" (with_ext_filter None)
      else SystemMethods.raiseerror InputTypeError
             (MsgText "Please use correct input type.")
  end.

(** Each slot is read once: the source reads it again when it narrows,
    with no store in between. *)
Definition applying_filters (s : addr) (d : DataFrame) : M DataFrame :=
  if negb (length (rows d) =? 0) then
    f0 <- slot_value s 0 ;;
    d <- (if truthy_list f0
          then lift (narrow_isin "Subject" (default [] f0) d)
          else ret d) ;;
    f1 <- slot_value s 1 ;;
    d <- (if truthy_list f1
          then lift (narrow_isin "Session" (default [] f1) d)
          else ret d) ;;
    f2 <- slot_value s 2 ;;
    d <- (if truthy_list f2 then
            idx <- getattr s "_Project__dc_idx" dc_idx ;;
            if (idx =? 0)%Z
            then lift (narrow_isin "DataType" (default [] f2) d)
            else lift (narrow_isin "Pipeline" (default [] f2) d)
          else ret d) ;;
    f3 <- slot_value s 3 ;;
    d <- (if truthy_list f3 then
            idx <- getattr s "_Project__dc_idx" dc_idx ;;
            if (idx =? 1)%Z
            then lift (narrow_isin "Step" (default [] f3) d)
            else if (idx =? 2)%Z
            then lift (narrow_isin "Result" (default [] f3) d)
            else ret d
          else ret d) ;;
    f4 <- slot_value s 4 ;;
    d <- (match f4 with
          | Some file_tag => lift (narrow_contains true (py_join "&" file_tag) d)
          | None => ret d
          end) ;;
    f5 <- slot_value s 5 ;;
    d <- (match f5 with
          | Some ignore => lift (narrow_contains false (py_join "&" ignore) d)
          | None => ret d
          end) ;;
    ret d
  else ret d.

(** [kwargs[key]] *)
Definition kwarg (kwargs : list (string * pyval)) (key : string) : M pyval :=
  match assoc key kwargs with
  | Some v => ret v
  | None => raise (KeyError key)
  end.

(** The body of the loop over the keyword arguments. *)
Definition set_filters_kwarg (s : addr) (kwargs : list (string * pyval))
    (key : string) : M unit :=
  if decide (key = "ext") then
    v <- kwarg kwargs "ext" ;;
    setattr s "_ext" (with__ext (Some v))
  else if decide (key = "keep") then
    v <- kwarg kwargs "keep" ;;
    if truthy v then __update s
    else e <- ext_ s ;; reset_filters s (pyval_of_list e)
  else if decide (key = "file_tag") then
    v <- kwarg kwargs "file_tag" ;;
    match v with
    | VStr t => slot_assign s 4 [t]
    | VList l => slot_assign s 4 l
    | _ => SystemMethods.raiseerror InputTypeError
             (MsgText "Please use correct input type for FileTag")
    end
  else if decide (key = "ignore") then
    v <- kwarg kwargs "ignore" ;;
    match v with
    | VStr t => slot_assign s 5 [t]
    | VList l => slot_assign s 5 l
    | _ => SystemMethods.raiseerror InputTypeError
             (MsgText "Please use correct input type for FileTag to ignore")
    end
  else SystemMethods.raiseerror KeywordError
         (MsgText "'{key}' is not correct kwarg").

(** One vocabulary level of the positional arguments: the arguments
    found in [lists] extend slot [i], and leave the residuals. *)
Definition match_level (s : addr) (i : nat) (args residuals : list string)
    (lists : vocab) : M (list string) :=
  r <- lift (ProjectMethods.check_arguments args residuals lists) ;;
  extend_or_assign s i r.1 ;;
  ret r.2.

(** The block [if args: ...] of [set_filters]. *)
Definition set_filters_args (s : addr) (args : list string) : M unit :=
  let residuals := args in
  subj <- subjects_ s ;;
  residuals <-
    (if truthy_list subj then
       subj <- subjects_ s ;;
       residuals <- match_level s 0 args residuals subj ;;
       single <- getattr s "single_session" single_session ;;
       if negb single then
         sess <- sessions_ s ;;
         match_level s 1 args residuals sess
       else slot_set s 1 None ;; ret residuals
     else
       slot_set s 0 None ;;
       slot_set s 1 None ;;
       ret residuals) ;;
  idx <- getattr s "_Project__dc_idx" dc_idx ;;
  residuals <-
    (if (idx =? 0)%Z then
       dtyp <- dtypes_ s ;;
       residuals <-
         (if truthy_list dtyp then
            dtyp <- dtypes_ s ;;
            match_level s 2 args residuals dtyp
          else slot_set s 2 None ;; ret residuals) ;;
       slot_set s 3 None ;;
       ret residuals
     else if (idx =? 1)%Z then
       pipe <- pipelines_ s ;;
       residuals <-
         (if truthy_list pipe then
            pipe <- pipelines_ s ;;
            match_level s 2 args residuals pipe
          else slot_set s 2 None ;; ret residuals) ;;
       step <- steps_ s ;;
       if truthy_list step then
         step <- steps_ s ;;
         match_level s 3 args residuals step
       else slot_set s 3 None ;; ret residuals
     else
       pipe <- pipelines_ s ;;
       residuals <-
         (if truthy_list pipe then
            pipe <- pipelines_ s ;;
            match_level s 2 args residuals pipe
          else slot_set s 2 None ;; ret residuals) ;;
       rslt <- results_ s ;;
       if truthy_list rslt then
         rslt <- results_ s ;;
         match_level s 3 args residuals rslt
       else slot_set s 3 None ;; ret residuals) ;;
  if negb (length residuals =? 0)
  then SystemMethods.raiseerror InputValueError (MsgWrongFilterInput args)
  else ret ().

(** [set_filters].  The loop header reads [for key in kwargs.keys:]: it
    iterates over the method [keys] itself, not over its result. *)
Definition set_filters (s : addr) (args : list string)
    (kwargs : list (string * pyval)) : M unit :=
  (match kwargs with
   | _ :: _ =>
       keys <- iter_method ;;
       for_each keys (set_filters_kwarg s kwargs)
   | [] =>
       e <- ext_ s ;;
       reset_filters s (pyval_of_list e)
   end) ;;
  (match args, kwargs with
   | [], [] => ret ()
   | [], _ :: _ => ret ()
   | _ :: _, _ => set_filters_args s args
   end) ;;
  d <- getattr s "_Project__df" df ;;
  d <- applying_filters s d ;;
  setattr s "_Project__df" (with_df d) ;;
  __update s.

(** [copy.copy(self)]: a new object with the same attribute values, the
    references among them included. *)
Definition copy (s : addr) : M addr :=
  p <- getattr s "__dict__" id ;;
  alloc (OProject p).

Definition __call__ (s : addr) (dc_id : Z) (args : list string)
    (kwargs : list (string * pyval)) : M addr :=
  prj <- copy s ;;
  idx <- getattr s "_Project__dc_idx" dc_idx ;;
  (if negb (idx =? dc_id)%Z then dataclass_set prj dc_id else ret ()) ;;
  set_filters prj args kwargs ;;
  ret prj.

(** [self.df.loc[index]] for an integer [index]: a label of the
    renumbered row index or a [KeyError]. *)
Definition __getitem__ (s : addr) (index : Z) : M (option Row) :=
  e <- getattr s "_Project__empty_project" empty_project ;;
  if e : bool then ret None
  else
    d <- df_ s ;;
    if decide (0 ≤ index)%Z then
      match rows d !! Z.to_nat index with
      | Some r => ret (Some r)
      | None => raise (KeyError "index")
      end
    else raise (KeyError "index").

(** What the generator [__iter__] hands out when it is run to its end:
    the pairs of [iterrows()], or the exception its first step raises. *)
Definition __iter__ (s : addr) : M (list (nat * Row)) :=
  e <- getattr s "_Project__empty_project" empty_project ;;
  if e : bool then raise EmptyProject
  else
    d <- df_ s ;;
    ret (imap (λ i r, (i, r)) (rows d)).

Definition __len__ (s : addr) : M nat :=
  e <- getattr s "_Project__empty_project" empty_project ;;
  if e : bool then ret 0
  else d <- df_ s ;; ret (length (rows d)).

(** [__init__]; [imgext] and [ref_ds] are what [Reference(ds_ref,
    img_format)] looks up. *)
Definition __init__ (project_path : string) (imgext ref_ds : list string)
    : M addr :=
  fa <- alloc (OSlots (replicate 6 None)) ;;
  s <- alloc (OProject
         (mkProject false false fa project_path empty_frame imgext
            ref_ds 0 (Some imgext) None
            None None None None None None)) ;;
  ProjectMethods.mk_main_folder s ;;
  try_except (scan_prj s)
    (SystemMethods.raiseerror ProjectScanFailure
       (MsgText "Error is occurred during a scanning.")) ;;
  ret s.

End methods.
End Project.

(** ** [class Process] *)

Module Process.
Section methods.
Context `{RegexEngine}.

(** [sorted(l[:])]; slicing [None] raises a [TypeError]. *)
Definition sorted_copy (v : vocab) : M vocab :=
  match v with
  | Some l => ret (Some (merge_sort cell_le l))
  | None => raise TypeError
  end.

Definition initiate_pipeline (self : addr) (pipeline : string) : M unit :=
  prj <- proc_getattr self "_prjobj" _prjobj ;;
  _ <- Project.path_ prj ;;
  ds <- getattr prj "ds_type" ds_type ;;
  processing <- lift (py_index ds 1) ;;
  SystemMethods.mkdir [[processing; pipeline]] ;;
  proc_setattr self "_pipeline"
    (λ p, mkProcess (_subjects p) (_sessions p) (_prjobj p) (Some pipeline)) ;;
  prj <- proc_getattr self "_prjobj" _prjobj ;;
  Project.scan_prj prj.

Definition __init__ (prjobj : addr) (pipeline : string) : M addr :=
  Project.reset_filters prjobj VNone ;;
  subj <- Project.subjects_ prjobj ;;
  r <- (if truthy_list subj then
          subj <- Project.subjects_ prjobj ;;
          subj <- sorted_copy subj ;;
          single <- getattr prjobj "single_session" single_session ;;
          if negb single then
            sess <- Project.sessions_ prjobj ;;
            sess <- sorted_copy sess ;;
            ret (subj, sess)
          else ret (subj, None)
        else ret (None, None)) ;;
  self <- alloc (OProcess (mkProcess r.1 r.2 prjobj None)) ;;
  initiate_pipeline self pipeline ;;
  ret self.

(** [get_step_name] receives [self], the [Process] instance. *)
Definition init_step (self : addr) (stepname : string) : M string :=
  pl <- proc_getattr_opt self "_pipeline" _pipeline ;;
  if negb (String.eqb pl "") then
    steppath <- ProjectMethods.get_step_name self stepname ;;
    prj <- proc_getattr self "_prjobj" _prjobj ;;
    p <- Project.path_ prj ;;
    ds <- getattr prj "ds_type" ds_type ;;
    processing <- lift (py_index ds 1) ;;
    pl <- proc_getattr_opt self "_pipeline" _pipeline ;;
    SystemMethods.mkdir [[processing; pl; steppath]] ;;
    Project.scan_prj prj ;;
    ret (foldl os_path_join p [processing; pl; steppath])
  else raise PipelineNotSet.

Definition final_step (self : addr) (title : string) : M string :=
  prj <- proc_getattr self "_prjobj" _prjobj ;;
  p <- Project.path_ prj ;;
  ds <- getattr prj "ds_type" ds_type ;;
  results <- lift (py_index ds 2) ;;
  pl <- ProjectMethods.attr_pipeline prj ;;
  SystemMethods.mkdir [[results; pl]; [results; pl; title]] ;;
  Project.scan_prj prj ;;
  ret (foldl os_path_join p [results; pl; title]).

End methods.
End Process.

(** ** A regular-expression engine for plain patterns

    [re.search] for the patterns whose only special characters are [.]
    (any character but a newline) and [|] (alternation): what
    ['|'.join(ext)] and ['&'.join(tags)] are for extensions and tags made
    of letters, digits, dots, dashes and underscores. *)

Fixpoint re_match_here (pat s : string) : bool :=
  match pat with
  | EmptyString => true
  | String c pat' =>
      match s with
      | EmptyString => false
      | String d s' =>
          ((Ascii.eqb c "." && negb (Ascii.eqb d "010")) || Ascii.eqb c d)
          && re_match_here pat' s'
      end
  end.

Fixpoint re_find (pat s : string) : bool :=
  re_match_here pat s ||
  match s with
  | EmptyString => false
  | String _ s' => re_find pat s'
  end.

(** The alternatives of a pattern; [cur] collects the current one in
    reverse. *)
Fixpoint re_alternatives (cur pat : string) : list string :=
  match pat with
  | EmptyString => [String.rev cur]
  | String c pat' =>
      if Ascii.eqb c "|" then String.rev cur :: re_alternatives "" pat'
      else re_alternatives (String c cur) pat'
  end.

Definition mini_re_search : RegexEngine :=
  λ pat s, existsb (λ alt, re_find alt s) (re_alternatives "" pat).

(** * Properties *)

(** ** Computations that only read the world *)

Definition read_only {A} (m : M A) : Prop := ∀ w, (m w).2 = w.

Lemma read_only_ret {A} (a : A) : read_only (ret a).
Proof. by intros w. Qed.

Lemma read_only_raise {A} (e : exn) : read_only (@raise A e).
Proof. by intros w. Qed.

Lemma read_only_lift {A} (o : outcome A) : read_only (lift o).
Proof. by intros w. Qed.

Lemma read_only_bind {A B} (m : M A) (k : A → M B) :
  read_only m → (∀ a, read_only (k a)) → read_only (bind m k).
Proof.
  intros Hm Hk w. unfold bind. specialize (Hm w).
  destruct (m w) as [[a|e|c msg] w']; simpl in *; subst; try done. apply Hk.
Qed.

Lemma read_only_getattr {A} s name (f : ProjectObj → A) : read_only (getattr s name f).
Proof. intros w. unfold getattr. by destruct (heap w !! s) as [[]|]. Qed.

Lemma read_only_load_slots a : read_only (load_slots a).
Proof. intros w. unfold load_slots. by destruct (heap w !! a) as [[]|]. Qed.

Lemma read_only_load_list a : read_only (load_list a).
Proof. intros w. unfold load_list. by destruct (heap w !! a) as [[]|]. Qed.

Lemma read_only_slot_get s i : read_only (Project.slot_get s i).
Proof.
  unfold Project.slot_get.
  apply read_only_bind; [apply read_only_getattr|intros fa].
  apply read_only_bind; [apply read_only_load_slots|intros sl].
  destruct (sl !! i); [apply read_only_ret|apply read_only_raise].
Qed.

Lemma read_only_slot_value s i : read_only (Project.slot_value s i).
Proof.
  unfold Project.slot_value.
  apply read_only_bind; [apply read_only_slot_get|intros [a|]].
  - apply read_only_bind; [apply read_only_load_list|intros l; apply read_only_ret].
  - apply read_only_ret.
Qed.

(** ** Narrowing steps

    At a fixed world, a step of [applying_filters] checks that the columns
    it reads exist and keeps the rows that pass a test; neither the check
    nor the test depends on the rows of the frame. *)

Definition filter_at (w : world) (f : DataFrame → M DataFrame) : Prop :=
  ∃ (chk : gset label → outcome unit) (p : Row → bool),
    ∀ d, f d w = (obind (chk (columns d)) (λ _, Ok (df_filter p d)), w).

Lemma filter_true {A} (l : list A) : List.filter (λ _, true) l = l.
Proof. induction l; simpl; congruence. Qed.

Lemma filter_filter_and {A} (p q : A → bool) (l : list A) :
  List.filter q (List.filter p l) = List.filter (λ x, p x && q x) l.
Proof.
  induction l as [|x l IH]; simpl; [done|].
  destruct (p x) eqn:Hp; simpl; [|done].
  destruct (q x); simpl; by rewrite IH.
Qed.

Lemma filter_idem {A} (p : A → bool) (l : list A) :
  List.filter p (List.filter p l) = List.filter p l.
Proof.
  rewrite filter_filter_and. apply List.filter_ext.
  intros x. by destruct (p x).
Qed.

Lemma filter_at_ret w : filter_at w ret.
Proof.
  exists (λ _, Ok ()), (λ _, true). intros [cols rs].
  unfold ret, df_filter. simpl. by rewrite filter_true.
Qed.

Lemma filter_at_narrow_isin w col vals :
  filter_at w (λ d, lift (narrow_isin col vals d)).
Proof.
  exists (λ cols, if decide (Name col ∈ cols) then Ok () else Raise (AttributeError col)),
         (λ r, isin vals (cell r (Name col))).
  intros d. unfold lift, narrow_isin. by destruct (decide _).
Qed.

Lemma filter_at_narrow_contains `{RegexEngine} w keep pat :
  filter_at w (λ d, lift (narrow_contains keep pat d)).
Proof.
  exists (λ cols, if decide (lbl_Filename ∈ cols) then Ok ()
                  else Raise (AttributeError "Filename")),
         (λ r, if keep then re_search pat (Filename r)
               else negb (re_search pat (Filename r))).
  intros d. unfold lift, narrow_contains. by destruct (decide _).
Qed.

Lemma filter_at_read {A} w (m : M A) (k : A → DataFrame → M DataFrame) :
  read_only m → (∀ a, filter_at w (k a)) →
  filter_at w (λ d, bind m (λ a, k a d)).
Proof.
  intros Hm Hk. specialize (Hm w). unfold filter_at, bind.
  destruct (m w) as [[a|e|c msg] w']; simpl in Hm; subst w'.
  - apply Hk.
  - by exists (λ _, Raise e), (λ _, true).
  - by exists (λ _, SysExit c msg), (λ _, true).
Qed.

Lemma filter_at_comp w (f g : DataFrame → M DataFrame) :
  filter_at w f → filter_at w g →
  filter_at w (λ d, bind (f d) g).
Proof.
  intros (chk1 & p & Hf) (chk2 & q & Hg).
  exists (λ cols, obind (chk1 cols) (λ _, chk2 cols)), (λ r, p r && q r).
  intros d. unfold bind. rewrite Hf.
  destruct (chk1 (columns d)) as [[]|e|c msg]; simpl; [|done..].
  rewrite Hg. simpl. destruct (chk2 (columns d)) as [[]|e|c msg]; simpl; [|done..].
  unfold df_filter. simpl. by rewrite filter_filter_and.
Qed.

Lemma filter_at_body `{RegexEngine} w s :
  ∃ body, filter_at w body ∧
    ∀ d, Project.applying_filters s d =
         if negb (length (rows d) =? 0) then body d else ret d.
Proof.
  eexists. split; [|intros d; unfold Project.applying_filters; reflexivity].
  simpl.
  repeat first
    [ apply filter_at_ret
    | apply filter_at_narrow_isin
    | apply filter_at_narrow_contains
    | apply filter_at_read; [first [apply read_only_slot_value|apply read_only_getattr]|intros ?]
    | apply filter_at_comp
    | match goal with |- filter_at _ (λ d, if ?b then _ else _) => destruct b end
    | match goal with |- filter_at _ (λ d, match ?b with Some _ => _ | None => _ end) => destruct b end ].
Qed.

(** C9. Filter application is idempotent: whatever the table and whatever
    the six slots reachable from the project hold, applying the filters to
    the table that a first application returns gives that table again
    (and a first application that raises leaves nothing to apply them to:
    the two runs then end in the same exception); the world is the same
    after two applications as after one. *)
Theorem applying_filters_idempotent `{RegexEngine}
    (s : addr) (d : DataFrame) (w : world) :
  (d' <- Project.applying_filters s d ;; Project.applying_filters s d') w
  = Project.applying_filters s d w.
Proof.
  destruct (filter_at_body w s) as (body & (chk & p & Hbody) & Happ).
  unfold bind. rewrite !Happ.
  destruct (length (rows d) =? 0) eqn:Hlen; simpl.
  { unfold ret. rewrite Happ, Hlen. done. }
  rewrite Hbody.
  destruct (chk (columns d)) as [[]|e|c msg] eqn:Hchk; simpl; [|done..].
  rewrite Happ.
  destruct (length (rows (df_filter p d)) =? 0); simpl; [done|].
  rewrite Hbody. simpl. rewrite Hchk. simpl.
  unfold df_filter. simpl. by rewrite filter_idem.
Qed.

(** ** Running the primitives *)

(** The world in which the project at [s] has become [p]. *)
Definition upd_world (w : world) (s : addr) (p : ProjectObj) : world :=
  mkWorld (<[s := OProject p]> (heap w)) (root w).

Definition points_to (w : world) (s : addr) (p : ProjectObj) : Prop :=
  heap w !! s = Some (OProject p).

Lemma points_to_upd w s p p' :
  points_to w s p → points_to (upd_world w s p') s p'.
Proof.
  unfold points_to, upd_world. simpl. intros Hs.
  apply list_lookup_insert_eq. by eapply lookup_lt_Some.
Qed.

Lemma upd_world_twice w s p1 p2 :
  upd_world (upd_world w s p1) s p2 = upd_world w s p2.
Proof. unfold upd_world. simpl. by rewrite list_insert_insert_eq. Qed.

Lemma upd_world_same w s p : points_to w s p → upd_world w s p = w.
Proof.
  unfold points_to, upd_world. intros Hs. destruct w as [h r]; simpl in *.
  by rewrite list_insert_id.
Qed.

Lemma upd_world_root w s p : root (upd_world w s p) = root w.
Proof. done. Qed.

Lemma upd_world_other w s p a :
  a ≠ s → heap (upd_world w s p) !! a = heap w !! a.
Proof. intros Hne. unfold upd_world. simpl. by apply list_lookup_insert_ne. Qed.

Lemma bind_assoc {A B C} (m : M A) (k1 : A → M B) (k2 : B → M C) w :
  bind (bind m k1) k2 w = bind m (λ a, bind (k1 a) k2) w.
Proof. unfold bind. by destruct (m w) as [[a|e|c msg] w']. Qed.

Lemma bind_ret {A B} (a : A) (k : A → M B) w : bind (ret a) k w = k a w.
Proof. done. Qed.

Lemma bind_lift_ok {A B} (a : A) (k : A → M B) w : bind (lift (Ok a)) k w = k a w.
Proof. done. Qed.

Lemma bind_getattr {A B} s name (f : ProjectObj → A) (k : A → M B) w p :
  points_to w s p → bind (getattr s name f) k w = k (f p) w.
Proof. unfold points_to, bind, getattr. by intros ->. Qed.

Lemma bind_getattr_opt {A B} s name (f : ProjectObj → option A) (k : A → M B)
    w p a :
  points_to w s p → f p = Some a → bind (getattr_opt s name f) k w = k a w.
Proof.
  intros Hs Hf. unfold getattr_opt. rewrite bind_assoc.
  rewrite (bind_getattr _ _ _ _ _ _ Hs), Hf. done.
Qed.

Lemma bind_setattr {B} s name upd (k : unit → M B) w p :
  points_to w s p →
  bind (setattr s name upd) k w = k () (upd_world w s (upd p)).
Proof. unfold points_to, bind, setattr. by intros ->. Qed.

Lemma run_getattr {A} s name (f : ProjectObj → A) w p :
  points_to w s p → getattr s name f w = (Ok (f p), w).
Proof. unfold points_to, getattr. by intros ->. Qed.

Lemma run_setattr s name upd w p :
  points_to w s p → setattr s name upd w = (Ok (), upd_world w s (upd p)).
Proof. unfold points_to, setattr. by intros ->. Qed.

Lemma bind_inv_ok {A B} (m : M A) (k : A → M B) w b w' :
  bind m k w = (Ok b, w') →
  ∃ a w1, m w = (Ok a, w1) ∧ k a w1 = (Ok b, w').
Proof.
  unfold bind. destruct (m w) as [[a|e|c msg] w1]; [eauto|done..].
Qed.

(** ** Invariants kept whatever the outcome *)

Definition keeps {A} (I : world → Prop) (m : M A) : Prop :=
  ∀ w, I w → I (m w).2.

Section keeps.
Context (I : world → Prop).

Lemma keeps_read_only {A} (m : M A) : read_only m → keeps I m.
Proof. intros Hm w HI. by rewrite Hm. Qed.

Lemma keeps_ret {A} (a : A) : keeps I (ret a).
Proof. by intros w. Qed.

Lemma keeps_raise {A} (e : exn) : keeps I (@raise A e).
Proof. by intros w. Qed.

Lemma keeps_lift {A} (o : outcome A) : keeps I (lift o).
Proof. by intros w. Qed.

Lemma keeps_raiseerror {A} c msg : keeps I (@SystemMethods.raiseerror A c msg).
Proof. by intros w. Qed.

Lemma keeps_bind {A B} (m : M A) (k : A → M B) :
  keeps I m → (∀ a, keeps I (k a)) → keeps I (bind m k).
Proof.
  intros Hm Hk w HI. unfold bind. specialize (Hm w HI).
  destruct (m w) as [[a|e|c msg] w']; simpl in *; try done. by apply Hk.
Qed.

Lemma keeps_try_except {A} (m h : M A) :
  keeps I m → keeps I h → keeps I (try_except m h).
Proof.
  intros Hm Hh w HI. unfold try_except. specialize (Hm w HI).
  destruct (m w) as [[a|e|c msg] w']; simpl in *; try done; by apply Hh.
Qed.

Lemma keeps_for_each {A} (l : list A) (body : A → M unit) :
  (∀ a, keeps I (body a)) → keeps I (for_each l body).
Proof.
  intros Hb. induction l as [|a l IH]; simpl; [apply keeps_ret|].
  apply keeps_bind; [apply Hb|done].
Qed.

Lemma keeps_getattr {A} s name (f : ProjectObj → A) : keeps I (getattr s name f).
Proof. apply keeps_read_only, read_only_getattr. Qed.

Lemma keeps_getattr_opt {A} s name (f : ProjectObj → option A) :
  keeps I (getattr_opt s name f).
Proof.
  apply keeps_bind; [apply keeps_getattr|intros [a|]];
    [apply keeps_ret|apply keeps_raise].
Qed.

Lemma keeps_read_root : keeps I read_root.
Proof. by intros w. Qed.

(** An invariant is stable at [s] for a class of attribute updates when
    it survives the assignment of each of them to the project at [s]. *)
Definition stable_at (s : addr) (U : (ProjectObj → ProjectObj) → Prop) : Prop :=
  ∀ upd w p, U upd → I w → points_to w s p → I (upd_world w s (upd p)).

Lemma keeps_setattr s name upd (U : (ProjectObj → ProjectObj) → Prop) :
  stable_at s U → U upd → keeps I (setattr s name upd).
Proof.
  intros Hst HU w HI. unfold setattr.
  destruct (heap w !! s) as [[p| | |]|] eqn:Hs; simpl; try done.
  by apply Hst.
Qed.
End keeps.

(** The assignments of [__update]: the six derived lists; and those of
    [scan_prj]: the frame and the two flags besides. *)
Inductive derived_update : (ProjectObj → ProjectObj) → Prop :=
  | du_subjects v : derived_update (with_subjects v)
  | du_sessions v : derived_update (with_sessions v)
  | du_dtypes v : derived_update (with_dtypes v)
  | du_pipelines v : derived_update (with_pipelines v)
  | du_steps v : derived_update (with_steps v)
  | du_results v : derived_update (with_results v).

Inductive scan_update : (ProjectObj → ProjectObj) → Prop :=
  | su_derived upd : derived_update upd → scan_update upd
  | su_df v : scan_update (with_df v)
  | su_single v : scan_update (with_single_session v)
  | su_empty v : scan_update (with_empty_project v).

Lemma stable_at_derived I s :
  stable_at I s scan_update → stable_at I s derived_update.
Proof. intros Hst upd w p Hupd. apply Hst. by constructor. Qed.

Ltac keeps_step :=
  first
    [ apply keeps_ret | apply keeps_raise | apply keeps_lift
    | apply keeps_raiseerror | apply keeps_read_root
    | apply keeps_getattr | apply keeps_getattr_opt
    | (eapply keeps_setattr; [eassumption|by repeat constructor])
    | apply keeps_try_except
    | (apply keeps_bind; [|intros ?])
    | match goal with
      | |- keeps _ (if ?b then _ else _) => destruct b
      | |- keeps _ (let '(_, _) := ?x in _) => destruct x
      | |- keeps _ (match ?x with _ => _ end) => destruct x
      end ].

Section keeps_methods.
Context `{RegexEngine} (I : world → Prop) (s : addr).

Lemma keeps_derive col : keeps I (Project.derive s col).
Proof. unfold Project.derive, Project.df_. repeat keeps_step. Qed.

Lemma keeps_update :
  stable_at I s derived_update → keeps I (Project.__update s).
Proof.
  intros Hstable. unfold Project.__update, Project.df_.
  repeat first [apply keeps_derive | keeps_step].
Qed.

Lemma keeps_scan_prj :
  stable_at I s scan_update → keeps I (Project.scan_prj s).
Proof.
  intros Hstable. unfold Project.scan_prj, Project.path_.
  repeat first [by apply keeps_update, stable_at_derived | keeps_step].
Qed.
End keeps_methods.

Lemma keeps_alloc (I : world → Prop) (o : obj) :
  (∀ w, I w → I (mkWorld (heap w ++ [o]) (root w))) → keeps I (alloc o).
Proof. intros Ho w HI. by apply Ho. Qed.

(** ** The extension filter across [reset_filters] *)

(** [self.__ext_filter], the attribute [scan_prj] hands to
    [initial_filter], as read in a world. *)
Definition ext_filter_of (w : world) (s : addr) : option (pylist string) :=
  match heap w !! s with
  | Some (OProject p) => Some (ext_filter p)
  | _ => None
  end.

Lemma ext_filter_of_upd w s p upd :
  points_to w s p → ext_filter (upd p) = ext_filter p →
  ext_filter_of (upd_world w s (upd p)) s = ext_filter_of w s.
Proof.
  intros Hs Hupd. unfold ext_filter_of.
  pose proof (points_to_upd _ _ _ (upd p) Hs) as Hs'.
  unfold points_to in Hs, Hs'. by rewrite Hs, Hs', Hupd.
Qed.

Lemma ext_filter_of_alloc w s o :
  (∀ p, o ≠ OProject p) →
  ext_filter_of (mkWorld (heap w ++ [o]) (root w)) s = ext_filter_of w s.
Proof.
  intros Ho. unfold ext_filter_of. cbn [heap].
  destruct (decide (s < length (heap w))) as [Hlt|Hge].
  - by rewrite lookup_app_l.
  - rewrite (lookup_ge_None_2 (heap w) s) by lia.
    rewrite lookup_app_r by lia.
    destruct (s - length (heap w)) as [|n]; [|done].
    destruct o; try done. by destruct (Ho p).
Qed.

Lemma ext_filter_stable s c :
  stable_at (λ w, ext_filter_of w s = c) s
    (λ upd, ∀ p, ext_filter (upd p) = ext_filter p).
Proof. intros upd w p Hupd HI Hs. by rewrite ext_filter_of_upd. Qed.

Lemma scan_update_ext_filter upd :
  scan_update upd → ∀ p, ext_filter (upd p) = ext_filter p.
Proof. by intros [? []| | |]. Qed.

(** C7. [reset_filters], whatever its argument, leaves the extension
    filter that [scan_prj] uses as it found it: the default extensions go
    to the attribute [_ext], which nothing reads, so an extension set
    through the [ext] setter survives the reset and filters the rescanned
    table. *)
Theorem reset_filters_keeps_ext_filter `{RegexEngine}
    (s : addr) (ext : pyval) (w : world) :
  ext_filter_of (Project.reset_filters s ext w).2 s = ext_filter_of w s.
Proof.
  set (I := λ w', ext_filter_of w' s = ext_filter_of w s).
  assert (Hst : stable_at I s scan_update).
  { intros upd w' p Hupd. apply ext_filter_stable.
    by apply scan_update_ext_filter. }
  assert (Hst' : stable_at I s (λ upd, ∀ p, ext_filter (upd p) = ext_filter p))
    by apply ext_filter_stable.
  assert (keeps I (Project.reset_filters s ext)) as Hk; [|by apply Hk].
  unfold Project.reset_filters.
  apply keeps_bind.
  { apply keeps_alloc. intros w' HI. unfold I. by rewrite ext_filter_of_alloc. }
  intros fa. apply keeps_bind.
  { by eapply keeps_setattr. }
  intros _. apply keeps_bind.
  { destruct (negb (truthy ext)).
    - apply keeps_bind; [apply keeps_getattr|intros e; by eapply keeps_setattr].
    - by eapply keeps_setattr. }
  intros _. apply keeps_bind; [by apply keeps_scan_prj|intros _].
  by apply keeps_update, stable_at_derived.
Qed.

(** ** A project on disk, for the examples *)

Module Scenario.

Definition engine : RegexEngine := mini_re_search.

Definition ref_ds : list string := ["Data"; "Processing"; "Results"].
Definition imgext : list string := [".nii"].

(** Subjects [A] and [B], each with the data type [func]; the listing
    order of the directories is not the alphabetical one. *)
Definition tree_AB : list fsnode :=
  [Dir "Data"
     [Dir "B" [Dir "func" [File "b_mask.nii"; File "b.nii"; File "b.1D"]];
      Dir "A" [Dir "func" [File "a_mask.nii"; File "a.nii"]]]].

(** The same tree, with its main folders, as the scan of [w_AB] finds it
    and as another enumeration would list it. *)
Definition root_AB : list fsnode :=
  [Dir "Data"
     [Dir "B" [Dir "func" [File "b_mask.nii"; File "b.nii"; File "b.1D"]];
      Dir "A" [Dir "func" [File "a_mask.nii"; File "a.nii"]]];
   Dir "Processing" []; Dir "Results" []].

Definition root_AB' : list fsnode :=
  [Dir "Data"
     [Dir "A" [Dir "func" [File "a.nii"; File "a_mask.nii"]];
      Dir "B" [Dir "func" [File "b_mask.nii"; File "b.nii"; File "b.1D"]]];
   Dir "Processing" []; Dir "Results" []].

(** [Project('/prj')] on that tree: the six-slot list is object 0, the
    project object 1. *)
Definition prj : addr := 1.
Definition w_AB : world :=
  (@Project.__init__ engine "/prj" imgext ref_ds (mkWorld [] tree_AB)).2.

(** [Project('/prj')] on a directory without any file. *)
Definition w_empty : world :=
  (@Project.__init__ engine "/prj" imgext ref_ds (mkWorld [] [])).2.

(** The project of [w_AB] after its files were removed from the disk. *)
Definition w_emptied : world :=
  mkWorld (heap w_AB) [Dir "Data" []; Dir "Processing" []; Dir "Results" []].

(** A tree in which [func] names a subject and a data type. *)
Definition tree_func : list fsnode :=
  [Dir "Data"
     [Dir "func" [Dir "func" [File "f.nii"]];
      Dir "A" [Dir "func" [File "a.nii"]; Dir "anat" [File "a_T1.nii"]]]].

Definition w_func : world :=
  (@Project.__init__ engine "/prj" imgext ref_ds (mkWorld [] tree_func)).2.

(** [Process(prj, 'P')] on the project of [w_AB]. *)
Definition w_proc : world := (@Process.__init__ engine prj "P" w_AB).2.
Definition proc : addr := 3.

Definition project_at (w : world) (s : addr) : option ProjectObj :=
  match heap w !! s with
  | Some (OProject p) => Some p
  | _ => None
  end.

Definition filenames_at (w : world) (s : addr) : option (list string) :=
  (λ p, Filename <$> rows (df p)) <$> project_at w s.

End Scenario.

(** ** Keyword arguments of [set_filters] *)

(** C2. A call of [set_filters] with any keyword argument ([file_tag],
    [ignore] or another) does not complete: the loop over [kwargs.keys]
    raises a [TypeError] before any filter slot is written, and the table
    is not narrowed. *)
Theorem set_filters_keywords_raise `{RegexEngine}
    (s : addr) (args : list string) (k : string * pyval)
    (kwargs : list (string * pyval)) (w : world) :
  Project.set_filters s args (k :: kwargs) w = (Raise TypeError, w).
Proof. reflexivity. Qed.

Example set_filters_file_tag_mask :
  @Project.set_filters Scenario.engine Scenario.prj []
     [("file_tag", VList ["mask"])] Scenario.w_AB
  = (Raise TypeError, Scenario.w_AB).
Proof. reflexivity. Qed.

(** ** Step directories *)

Lemma step_name_first step :
  ProjectMethods.step_name [] step = "001_" +:+ step.
Proof. done. Qed.

Lemma step_name_reuse executed_steps step old olds :
  List.filter (λ o, str_in step o) executed_steps = old :: olds →
  ProjectMethods.step_name executed_steps step = old.
Proof.
  intros Hf. unfold ProjectMethods.step_name.
  destruct executed_steps; [done|]. by rewrite Hf.
Qed.

Example step_name_Motion :
  ProjectMethods.step_name [] "Motion" = "001_Motion"
  ∧ ProjectMethods.step_name ["001_Motion"] "Motion" = "001_Motion"
  ∧ ProjectMethods.step_name ["001_Motion"] "Mean" = "002_Mean".
Proof. by vm_compute. Qed.

(** C4. [init_step] never returns a step path and creates no directory:
    it passes the [Process] instance itself to [get_step_name], which
    reads the attributes [path], [ds_type] and [pipeline] that only a
    project could have, so the call ends in an exception (an
    [AttributeError] once a pipeline is set) with the world as it was. *)
Theorem init_step_raises `{RegexEngine}
    (self : addr) (stepname : string) (w : world) :
  ∃ e, Process.init_step self stepname w = (Raise e, w).
Proof.
  unfold Process.init_step, proc_getattr_opt, proc_getattr, bind, raise, ret.
  destruct (heap w !! self) as [[p|p|l|l]|] eqn:Hself; simpl; eauto.
  destruct (_pipeline p) as [pl|]; simpl; eauto.
  destruct (negb (pl =? "")%string); simpl; eauto.
  unfold ProjectMethods.get_step_name, ProjectMethods.attr_path, bind.
  rewrite Hself. eauto.
Qed.

Example init_step_Motion :
  @Process.init_step Scenario.engine Scenario.proc "Motion" Scenario.w_proc
  = (Raise (AttributeError "path"), Scenario.w_proc).
Proof. by vm_compute. Qed.

(** ** What a run that returned has done *)

Lemma getattr_inv {A} s name (f : ProjectObj → A) w a w' :
  getattr s name f w = (Ok a, w') → w' = w ∧ ∃ p, points_to w s p ∧ a = f p.
Proof.
  unfold getattr, points_to.
  destruct (heap w !! s) as [[p| | |]|]; intros; simplify_eq; eauto.
Qed.

Lemma setattr_inv s name upd w a w' :
  setattr s name upd w = (Ok a, w') →
  ∃ p, points_to w s p ∧ w' = upd_world w s (upd p).
Proof.
  unfold setattr, points_to.
  destruct (heap w !! s) as [[p| | |]|]; intros; simplify_eq; eauto.
Qed.

Lemma lift_inv {A} (o : outcome A) w a w' :
  lift o w = (Ok a, w') → o = Ok a ∧ w' = w.
Proof. unfold lift. intros; by simplify_eq. Qed.

Lemma ret_inv {A} (x : A) w a w' : ret x w = (Ok a, w') → a = x ∧ w' = w.
Proof. unfold ret. intros; by simplify_eq. Qed.

(** A world that differs from [w] at most in the attributes of the project
    at [s], the attributes related by [R]. *)
Definition changed_at (R : ProjectObj → ProjectObj → Prop)
    (w : world) (s : addr) (p : ProjectObj) (w' : world) : Prop :=
  ∃ p', w' = upd_world w s p' ∧ R p p'.

Lemma changed_at_stable (R : ProjectObj → ProjectObj → Prop)
    (U : (ProjectObj → ProjectObj) → Prop) w s p :
  (∀ upd p1 p2, U upd → R p1 p2 → R p1 (upd p2)) →
  points_to w s p →
  stable_at (changed_at R w s p) s U.
Proof.
  intros HR Hs upd w' q HU (p' & -> & Hp') Hq.
  exists (upd q). rewrite upd_world_twice. split; [done|].
  pose proof (points_to_upd _ _ _ p' Hs) as Hs'.
  unfold points_to in Hq, Hs'. rewrite Hs' in Hq. simplify_eq. by apply HR.
Qed.

(** The attributes [__update] leaves alone. *)
Definition same_core (p p' : ProjectObj) : Prop :=
  single_session p' = single_session p ∧ empty_project p' = empty_project p
  ∧ filters p' = filters p ∧ path p' = path p ∧ df p' = df p
  ∧ img_ext p' = img_ext p ∧ ds_type p' = ds_type p ∧ dc_idx p' = dc_idx p
  ∧ ext_filter p' = ext_filter p ∧ _ext p' = _ext p.

Lemma same_core_refl p : same_core p p.
Proof. by repeat split. Qed.

Lemma same_core_derived upd p1 p2 :
  derived_update upd → same_core p1 p2 → same_core p1 (upd p2).
Proof. by intros []. Qed.

Lemma update_changes `{RegexEngine} s w p :
  points_to w s p →
  changed_at same_core w s p (Project.__update s w).2.
Proof.
  intros Hs.
  apply (keeps_update (changed_at same_core w s p) s).
  - apply changed_at_stable; [|done]. intros. by apply same_core_derived.
  - exists p. split; [by rewrite upd_world_same|apply same_core_refl].
Qed.

(** The project after [__update] on an empty table. *)
Definition all_none (p : ProjectObj) : ProjectObj :=
  with_results (Some None) (with_steps (Some None)
    (with_pipelines (Some None) (with_dtypes (Some None)
      (with_sessions (Some None) (with_subjects (Some None) p))))).

Lemma update_empty_table `{RegexEngine} s w p :
  points_to w s p → length (rows (df p)) = 0 →
  Project.__update s w = (Ok (), upd_world w s (all_none p)).
Proof.
  intros Hs Hlen. unfold Project.__update, Project.df_.
  rewrite (bind_getattr _ _ _ _ _ _ Hs), Hlen. simpl.
  rewrite (bind_setattr _ _ _ _ _ _ Hs).
  repeat (erewrite bind_setattr; [|by eapply points_to_upd];
          rewrite upd_world_twice).
  erewrite run_setattr; [|by eapply points_to_upd].
  by rewrite upd_world_twice.
Qed.

Lemma parsing_empty root p ds idx d single :
  ProjectMethods.parsing root p ds idx = Ok (d, single, true) → d = empty_frame.
Proof.
  unfold ProjectMethods.parsing, obind.
  destruct (py_index ds idx); [|done..].
  repeat case_match; intros; by simplify_eq.
Qed.

(** ** [scan_prj] on an empty project *)

(** C5. When [parsing] reports the project empty, [scan_prj] replaces the
    table by the empty one and sets the empty-project flag, and returns
    without recomputing the derived lists: [subjects], [sessions],
    [dtypes], [pipelines], [steps] and [results] still read what they did
    for the previous table (or stay unset after construction). *)
Theorem scan_prj_empty_keeps_derived `{RegexEngine}
    (s : addr) (w : world) (p : ProjectObj) (single : bool) :
  points_to w s p →
  ProjectMethods.parsing (root w) (path p) (ds_type p) (dc_idx p)
    = Ok (empty_frame, single, true) →
  ∃ p', Project.scan_prj s w = (Ok (), upd_world w s p')
    ∧ df p' = empty_frame ∧ empty_project p' = true
    ∧ subjects p' = subjects p ∧ sessions p' = sessions p
    ∧ dtypes p' = dtypes p ∧ pipelines p' = pipelines p
    ∧ steps p' = steps p ∧ results p' = results p.
Proof.
  intros Hs Hparse.
  exists (with_empty_project true (with_single_session single (with_df empty_frame p))).
  split; [|done].
  unfold Project.scan_prj, Project.path_.
  rewrite !(bind_getattr _ _ _ _ _ _ Hs).
  unfold read_root, bind at 1. rewrite Hparse. rewrite bind_lift_ok.
  rewrite (bind_setattr _ _ _ _ _ _ Hs).
  erewrite bind_setattr; [|by eapply points_to_upd].
  rewrite upd_world_twice. simpl.
  erewrite run_setattr; [|by eapply points_to_upd].
  by rewrite upd_world_twice.
Qed.

Lemma scan_prj_empty_keeps_derived_witness :
  ∃ p', @Project.scan_prj Scenario.engine Scenario.prj Scenario.w_emptied
          = (Ok (), upd_world Scenario.w_emptied Scenario.prj p')
    ∧ rows (df p') = []
    ∧ subjects p' = Some (Some [Some "A"; Some "B"]).
Proof.
  destruct (Scenario.project_at Scenario.w_emptied Scenario.prj) as [p|] eqn:Hp;
    [|by vm_compute in Hp].
  destruct (@scan_prj_empty_keeps_derived Scenario.engine Scenario.prj
              Scenario.w_emptied p false) as (p' & Hrun & Hdf & _ & Hsubj & _).
  - unfold points_to. unfold Scenario.project_at in Hp.
    destruct (heap Scenario.w_emptied !! Scenario.prj) as [[]|]; by simplify_eq.
  - vm_compute in Hp. injection Hp as <-. by vm_compute.
  - exists p'. split; [done|]. split; [by rewrite Hdf|].
    rewrite Hsubj. vm_compute in Hp. injection Hp as <-. reflexivity.
Defined.

Example fresh_empty_project_subjects :
  Project.subjects_ Scenario.prj Scenario.w_empty
  = (Raise (AttributeError "_Project__subjects"), Scenario.w_empty).
Proof. by vm_compute. Qed.

(** ** The empty-project state *)

Lemma points_to_inj w s p q : points_to w s p → points_to w s q → p = q.
Proof. unfold points_to. intros Hp Hq. rewrite Hp in Hq. by simplify_eq. Qed.

Lemma upd_world_inj w s p0 p q :
  points_to w s p0 → upd_world w s p = upd_world w s q → p = q.
Proof.
  intros Hs Heq. apply (f_equal (λ w', heap w' !! s)) in Heq.
  unfold upd_world in Heq. simpl in Heq.
  rewrite !list_lookup_insert_eq in Heq by (by eapply lookup_lt_Some).
  by simplify_eq.
Qed.

Lemma update_ok_points_to `{RegexEngine} s w a w' :
  Project.__update s w = (Ok a, w') → ∃ p, points_to w s p.
Proof.
  unfold Project.__update, Project.df_. intros Hrun.
  apply bind_inv_ok in Hrun as (d & w1 & Hd & _).
  apply getattr_inv in Hd as (_ & p & Hs & _). eauto.
Qed.

(** A scan that returns either clears the empty-project flag or leaves
    the empty table. *)
Lemma scan_prj_ok `{RegexEngine} s w w' :
  Project.scan_prj s w = (Ok (), w') →
  ∃ p', points_to w' s p'
    ∧ (empty_project p' = false
       ∨ (empty_project p' = true ∧ df p' = empty_frame)).
Proof.
  unfold Project.scan_prj, Project.path_. intros Hrun.
  apply bind_inv_ok in Hrun as (pa & w1 & H1 & Hrun).
  apply getattr_inv in H1 as (-> & p & Hs & ->).
  rewrite !(bind_getattr _ _ _ _ _ _ Hs) in Hrun.
  apply bind_inv_ok in Hrun as (r & w2 & H2 & Hrun).
  unfold read_root in H2. simplify_eq.
  apply bind_inv_ok in Hrun as ([[d single] empty_prj] & w3 & H3 & Hrun).
  apply lift_inv in H3 as [Hparse ->].
  rewrite (bind_setattr _ _ _ _ _ _ Hs) in Hrun.
  erewrite bind_setattr in Hrun; [|by eapply points_to_upd].
  rewrite upd_world_twice in Hrun.
  destruct empty_prj; simpl in Hrun.
  - apply parsing_empty in Hparse as ->.
    erewrite run_setattr in Hrun; [|by eapply points_to_upd].
    rewrite upd_world_twice in Hrun. simplify_eq.
    eexists. split; [by eapply points_to_upd|]. by right.
  - repeat (apply bind_inv_ok in Hrun as (? & ? & _ & Hrun)).
    apply setattr_inv in Hrun as (q & Hq & ->).
    eexists. split; [by eapply points_to_upd|]. by left.
Qed.

Lemma reset_filters_empty `{RegexEngine} s ext w0 w p :
  Project.reset_filters s ext w0 = (Ok (), w) →
  points_to w s p → empty_project p = true →
  ∃ q, p = all_none q ∧ df q = empty_frame.
Proof.
  unfold Project.reset_filters. intros Hrun Hs Hempty.
  do 3 (apply bind_inv_ok in Hrun as (? & ? & _ & Hrun)).
  apply bind_inv_ok in Hrun as ([] & w4 & Hscan & Hupd).
  apply scan_prj_ok in Hscan as (p4 & Hs4 & Hcase).
  pose proof (update_changes s w4 p4 Hs4) as (p' & Hw & Hcore).
  rewrite Hupd in Hw. simpl in Hw. subst w.
  pose proof (points_to_upd _ _ _ p' Hs4) as Hs'.
  pose proof (points_to_inj _ _ _ _ Hs Hs') as ->.
  destruct Hcore as (_ & He & _).
  destruct Hcase as [Hf|[_ Hdf]]; [congruence|].
  rewrite update_empty_table with (p := p4) in Hupd by (done || by rewrite Hdf).
  exists p4. split; [|done].
  symmetry. apply (upd_world_inj w4 s p4 _ _ Hs4). congruence.
Qed.

(** C6 (amended). In the empty-project state [len] returns 0 and
    positional indexing returns [None], neither raising; iteration yields
    no item and raises [EmptyProject]; and [subjects] reads [None]
    whenever the state was entered through [reset_filters] or through the
    setter of [dataclass], which recompute the derived lists. *)
Theorem empty_project_access `{RegexEngine}
    (s : addr) (w : world) (p : ProjectObj) :
  points_to w s p → empty_project p = true →
  Project.__len__ s w = (Ok 0, w)
  ∧ (∀ index, Project.__getitem__ s index w = (Ok None, w))
  ∧ Project.__iter__ s w = (Raise EmptyProject, w)
  ∧ (∀ w0 ext, Project.reset_filters s ext w0 = (Ok (), w) →
       Project.subjects_ s w = (Ok None, w))
  ∧ (∀ w0 idx, Project.dataclass_set s idx w0 = (Ok (), w) →
       Project.subjects_ s w = (Ok None, w)).
Proof.
  intros Hs Hempty.
  unfold Project.__len__, Project.__getitem__, Project.__iter__.
  split; [by rewrite (bind_getattr _ _ _ _ _ _ Hs), Hempty|].
  split; [intros index; by rewrite (bind_getattr _ _ _ _ _ _ Hs), Hempty|].
  split; [by rewrite (bind_getattr _ _ _ _ _ _ Hs), Hempty|].
  split.
  - intros w0 ext Hrun.
    destruct (reset_filters_empty _ _ _ _ _ Hrun Hs Hempty) as (q & -> & _).
    unfold Project.subjects_, getattr_opt.
    by rewrite (bind_getattr _ _ _ _ _ _ Hs).
  - intros w0 idx Hrun. unfold Project.dataclass_set in Hrun.
    destruct (decide _); [|done].
    apply bind_inv_ok in Hrun as (? & ? & _ & Hrun).
    apply bind_inv_ok in Hrun as ([] & w2 & Hreset & Hupd).
    destruct (update_ok_points_to _ _ _ _ Hupd) as (p2 & Hs2).
    pose proof (update_changes s w2 p2 Hs2) as (p' & Hw & Hcore).
    rewrite Hupd in Hw. simpl in Hw. subst w.
    pose proof (points_to_upd _ _ _ p' Hs2) as Hs'.
    pose proof (points_to_inj _ _ _ _ Hs Hs') as ->.
    destruct Hcore as (_ & He & _).
    destruct (reset_filters_empty _ _ _ _ _ Hreset Hs2) as (q & -> & Hdf);
      [congruence|].
    rewrite update_empty_table with (p := all_none q) in Hupd
      by (done || by (simpl; rewrite Hdf)).
    assert (p' = all_none (all_none q)) as ->.
    { symmetry. apply (upd_world_inj w2 s _ _ _ Hs2). congruence. }
    unfold Project.subjects_, getattr_opt.
    by rewrite (bind_getattr _ _ _ _ _ _ Hs).
Qed.

Lemma project_at_points_to w s p :
  Scenario.project_at w s = Some p → points_to w s p.
Proof.
  unfold Scenario.project_at, points_to.
  destruct (heap w !! s) as [[]|]; intros; by simplify_eq.
Qed.

Lemma empty_project_access_witness :
  let w := (@Project.reset_filters Scenario.engine Scenario.prj VNone
              Scenario.w_empty).2 in
  Project.__len__ Scenario.prj w = (Ok 0, w)
  ∧ Project.__getitem__ Scenario.prj 0 w = (Ok None, w)
  ∧ Project.__iter__ Scenario.prj w = (Raise EmptyProject, w)
  ∧ Project.subjects_ Scenario.prj w = (Ok None, w).
Proof.
  intros w.
  destruct (Scenario.project_at w Scenario.prj) as [p|] eqn:Hp;
    [|by vm_compute in Hp].
  destruct (@empty_project_access Scenario.engine Scenario.prj w p)
    as (Hlen & Hget & Hiter & Hsubj & _).
  - by apply project_at_points_to.
  - vm_compute in Hp. injection Hp as <-. reflexivity.
  - split; [exact Hlen|]. split; [exact (Hget 0%Z)|]. split; [exact Hiter|].
    apply (Hsubj Scenario.w_empty VNone). by vm_compute.
Defined.

(** C6, as stated, fails on a project built on a directory without
    files: iterating over it raises [EmptyProject]. *)
Lemma empty_project_iter_raises :
  (Project.__iter__ Scenario.prj Scenario.w_empty).1 = Raise EmptyProject
  ∧ is_ok (Project.__iter__ Scenario.prj Scenario.w_empty).1 = false.
Proof. by vm_compute. Qed.

(** ** Scans and the enumeration order of directories *)

(** Two listings of one tree: in every directory the same entries, in
    whatever order each listing enumerates them. *)
Inductive node_equiv : fsnode → fsnode → Prop :=
  | ne_file f : node_equiv (File f) (File f)
  | ne_dir d es1 es2 : entries_equiv es1 es2 → node_equiv (Dir d es1) (Dir d es2)
with entries_equiv : list fsnode → list fsnode → Prop :=
  | ee_nil : entries_equiv [] []
  | ee_skip n1 n2 es1 es2 :
      node_equiv n1 n2 → entries_equiv es1 es2 →
      entries_equiv (n1 :: es1) (n2 :: es2)
  | ee_swap n1 n2 es : entries_equiv (n1 :: n2 :: es) (n2 :: n1 :: es)
  | ee_trans es1 es2 es3 :
      entries_equiv es1 es2 → entries_equiv es2 es3 → entries_equiv es1 es3.

Scheme node_equiv_mut := Minimality for node_equiv Sort Prop
  with entries_equiv_mut := Minimality for entries_equiv Sort Prop.

Global Instance abspath_le_total : Total abspath_le.
Proof. intros r1 r2. unfold abspath_le. apply (total String.le). Qed.

Global Instance abspath_le_trans : Transitive abspath_le.
Proof. intros r1 r2 r3. unfold abspath_le. apply transitivity. Qed.

Lemma node_equiv_name n1 n2 : node_equiv n1 n2 → node_name n1 = node_name n2.
Proof. by intros []. Qed.

Lemma entries_equiv_names es1 es2 :
  entries_equiv es1 es2 → node_name <$> es1 ≡ₚ node_name <$> es2.
Proof.
  induction 1 as [|n1 n2 es1 es2 Hn _ IH|n1 n2 es|es1 es2 es3 _ IH1 _ IH2]; simpl.
  - done.
  - by rewrite (node_equiv_name _ _ Hn), IH.
  - apply perm_swap.
  - by etrans.
Qed.

Lemma entries_equiv_filenames es1 es2 :
  entries_equiv es1 es2 → filenames es1 ≡ₚ filenames es2.
Proof.
  induction 1 as [|n1 n2 es1 es2 Hn _ IH|n1 n2 es|es1 es2 es3 _ IH1 _ IH2].
  - done.
  - unfold filenames in *. destruct Hn; simpl; by rewrite IH.
  - unfold filenames. destruct n1, n2; simpl; try done. apply perm_swap.
  - by etrans.
Qed.

(** Induction on a tree, the entries of a directory taken together. *)
Fixpoint fsnode_tree_ind (P : fsnode → Prop)
    (Hfile : ∀ f, P (File f))
    (Hdir : ∀ d es, Forall P es → P (Dir d es))
    (n : fsnode) {struct n} : P n :=
  match n with
  | File f => Hfile f
  | Dir d es =>
      Hdir d es
        ((fix go (es : list fsnode) : Forall P es :=
            match es with
            | [] => @List.Forall_nil fsnode P
            | e :: es' =>
                @List.Forall_cons fsnode P e es'
                  (fsnode_tree_ind P Hfile Hdir e) (go es')
            end) es)
  end.

Lemma entries_equiv_Forall es : Forall (λ n, node_equiv n n) es → entries_equiv es es.
Proof. induction 1; by constructor. Qed.

Lemma node_equiv_refl n : node_equiv n n.
Proof.
  induction n as [f|d es IH] using fsnode_tree_ind; constructor.
  by apply entries_equiv_Forall.
Qed.

Lemma entries_equiv_refl es : entries_equiv es es.
Proof. apply entries_equiv_Forall, Forall_forall. intros. apply node_equiv_refl. Qed.

(** A directory with distinct entry names has at most one entry [d]. *)
Lemma subdir_equiv d es1 es2 :
  entries_equiv es1 es2 → NoDup (node_name <$> es1) →
  match subdir d es1, subdir d es2 with
  | Some ch1, Some ch2 => entries_equiv ch1 ch2
  | None, None => True
  | _, _ => False
  end.
Proof.
  induction 1 as [|n1 n2 es1 es2 Hn Hes IH|n1 n2 es|es1 es2 es3 H12 IH1 H23 IH2];
    intros Hnd.
  - done.
  - simpl in Hnd. apply NoDup_cons in Hnd as [Hnotin Hnd].
    destruct Hn as [f|d' ch1 ch2 Hch]; simpl.
    + destruct (decide (f = d)); [done|by apply IH].
    + destruct (decide (d' = d)); [done|by apply IH].
  - simpl in Hnd. apply NoDup_cons in Hnd as [Hnotin Hnd].
    apply not_elem_of_cons in Hnotin as [Hne Hnotin].
    pose proof (entries_equiv_refl) as Hrefl.
    destruct n1 as [f1|d1 ch1], n2 as [f2|d2 ch2]; simpl in *;
      repeat (destruct (decide _); simplify_eq; try done);
      try (destruct (subdir d es); done).
  - specialize (IH1 Hnd).
    assert (Hnd2 : NoDup (node_name <$> es2))
      by (by rewrite <-(entries_equiv_names _ _ H12)).
    specialize (IH2 Hnd2).
    destruct (subdir d es1), (subdir d es2), (subdir d es3); try done.
    by eapply ee_trans.
Qed.

Lemma walk_rows_app path l1 l2 :
  ProjectMethods.walk_rows path (l1 ++ l2)
  = ProjectMethods.walk_rows path l1 ++ ProjectMethods.walk_rows path l2.
Proof. unfold ProjectMethods.walk_rows. apply bind_app. Qed.

Definition walk_rows_agree (path : string) (l1 l2 : list fsnode) : Prop :=
  ∀ parent,
    ProjectMethods.walk_rows path (List.flat_map (walk_from parent) l1)
    ≡ₚ ProjectMethods.walk_rows path (List.flat_map (walk_from parent) l2).

Lemma walk_rows_dir path parent d es :
  ProjectMethods.walk_rows path (walk_from parent (Dir d es))
  = ProjectMethods.walk_rows path [(parent ++ [d], dirnames es, filenames es)]
    ++ ProjectMethods.walk_rows path (List.flat_map (walk_from (parent ++ [d])) es).
Proof.
  exact (walk_rows_app path [(parent ++ [d], dirnames es, filenames es)]
           (List.flat_map (walk_from (parent ++ [d])) es)).
Qed.

Lemma walk_rows_files path dirpath dirs files1 files2 :
  files1 ≡ₚ files2 →
  ProjectMethods.walk_rows path [(dirpath, dirs, files1)]
  ≡ₚ ProjectMethods.walk_rows path [(dirpath, dirs, files2)].
Proof.
  intros Hp. unfold ProjectMethods.walk_rows. simpl.
  rewrite !app_nil_r. by rewrite Hp.
Qed.

Lemma walk_rows_entries_equiv path es1 es2 :
  entries_equiv es1 es2 → walk_rows_agree path es1 es2.
Proof.
  revert es1 es2.
  apply (entries_equiv_mut
    (λ n1 n2, ∀ parent,
       ProjectMethods.walk_rows path (walk_from parent n1)
       ≡ₚ ProjectMethods.walk_rows path (walk_from parent n2))
    (walk_rows_agree path)).
  - done.
  - intros d es1 es2 Hes IH parent. rewrite !walk_rows_dir.
    rewrite (IH (parent ++ [d])).
    by rewrite (walk_rows_files _ _ _ _ _ (entries_equiv_filenames _ _ Hes)).
  - by intros parent.
  - intros n1 n2 es1 es2 _ IHn _ IHes parent. simpl.
    rewrite !walk_rows_app. by rewrite (IHn parent), (IHes parent).
  - intros n1 n2 es parent. simpl. rewrite !walk_rows_app.
    apply Permutation_app_swap_app.
  - intros es1 es2 es3 _ IH1 _ IH2 parent. by rewrite (IH1 parent).
Qed.

Lemma os_walk_rows_equiv path top root1 root2 :
  entries_equiv root1 root2 → NoDup (node_name <$> root1) →
  ProjectMethods.walk_rows path (os_walk root1 top)
  ≡ₚ ProjectMethods.walk_rows path (os_walk root2 top).
Proof.
  intros Heq Hnd. unfold os_walk.
  pose proof (subdir_equiv top _ _ Heq Hnd) as Hsub.
  destruct (subdir top root1) as [ch1|], (subdir top root2) as [ch2|]; try done.
  rewrite !walk_rows_dir.
  rewrite (walk_rows_entries_equiv _ _ _ Hsub ([] ++ [top])).
  by rewrite (walk_rows_files _ _ _ _ _ (entries_equiv_filenames _ _ Hsub)).
Qed.

(** The frame the loop of [parsing] builds: the labels of all rows, the
    rows in the order of the walk. *)
Lemma foldl_df_append d rs :
  foldl df_append d rs
  = mkDF (columns d ∪ ⋃ (row_labels <$> rs)) (rows d ++ rs).
Proof.
  revert d. induction rs as [|r rs IH]; intros [cols rws]; simpl.
  - f_equal; [set_solver|by rewrite app_nil_r].
  - rewrite IH. simpl. f_equal; [set_solver|by rewrite <-app_assoc].
Qed.

Lemma foldl_df_append_perm rs1 rs2 :
  rs1 ≡ₚ rs2 →
  columns (foldl df_append empty_frame rs1) = columns (foldl df_append empty_frame rs2)
  ∧ rows (foldl df_append empty_frame rs1) ≡ₚ rows (foldl df_append empty_frame rs2).
Proof.
  intros Hp. rewrite !foldl_df_append. simpl. split; [|done].
  f_equal. by rewrite Hp.
Qed.

Lemma fmap_eq_NoDup {A B} (f : A → B) (l : list A) x y :
  NoDup (f <$> l) → x ∈ l → y ∈ l → f x = f y → x = y.
Proof.
  induction l as [|a l IH]; simpl; [by intros _ ?%elem_of_nil|].
  rewrite NoDup_cons. intros [Hnotin Hnd] Hx Hy Hxy.
  apply elem_of_cons in Hx as [->|Hx], Hy as [->|Hy]; [done|..|by apply IH].
  - destruct Hnotin. rewrite Hxy. by apply list_elem_of_fmap_2.
  - destruct Hnotin. rewrite <-Hxy. by apply list_elem_of_fmap_2.
Qed.

(** Sorting by path gives one result for all orders of the same rows, the
    paths being pairwise distinct. *)
Lemma merge_sort_abspath_perm rs1 rs2 :
  rs1 ≡ₚ rs2 → NoDup (Abspath <$> rs1) →
  merge_sort abspath_le rs1 = merge_sort abspath_le rs2.
Proof.
  intros Hp Hnd.
  apply (Sorted_unique_strong abspath_le).
  - intros x1 x2 Hx1 Hx2 H12 H21.
    rewrite merge_sort_Permutation in Hx1, Hx2. rewrite <-Hp in Hx2.
    apply (fmap_eq_NoDup Abspath rs1); [done..|].
    by apply (anti_symm String.le).
  - apply Sorted_merge_sort, _.
  - apply Sorted_merge_sort, _.
  - by rewrite !merge_sort_Permutation.
Qed.

Lemma parsing_perm root1 root2 path ds idx :
  entries_equiv root1 root2 →
  NoDup (node_name <$> root1) →
  (∀ top, py_index ds idx = Ok top →
     NoDup (Abspath <$> ProjectMethods.walk_rows path (os_walk root1 top))) →
  ProjectMethods.parsing root1 path ds idx = ProjectMethods.parsing root2 path ds idx.
Proof.
  intros Heq Hnames Hpaths. unfold ProjectMethods.parsing.
  destruct (py_index ds idx) as [top| |]; simpl; [|done..].
  specialize (Hpaths top eq_refl).
  pose proof (os_walk_rows_equiv path top _ _ Heq Hnames) as Hrows.
  destruct (foldl_df_append_perm _ _ Hrows) as [Hcols Hperm].
  assert (Hnd : NoDup (Abspath <$> rows (foldl df_append empty_frame
                  (ProjectMethods.walk_rows path (os_walk root1 top))))).
  { rewrite foldl_df_append. simpl. apply Hpaths. }
  clear Hpaths.
  destruct (foldl df_append empty_frame
              (ProjectMethods.walk_rows path (os_walk root1 top))) as [c1 r1].
  destruct (foldl df_append empty_frame
              (ProjectMethods.walk_rows path (os_walk root2 top))) as [c2 r2].
  simpl in *. subst c2.
  unfold df_rename, sort_values_Abspath. simpl.
  rewrite !length_fmap. rewrite <-(Permutation_length Hperm).
  assert (Hsort : ∀ f : Row → Row, (∀ r, Abspath (f r) = Abspath r) →
            merge_sort abspath_le (f <$> r1) = merge_sort abspath_le (f <$> r2)).
  { intros f Hf. apply merge_sort_abspath_perm; [by rewrite Hperm|].
    rewrite <-list_fmap_compose.
    erewrite list_fmap_ext; [exact Hnd|]. intros i x _. apply Hf. }
  repeat case_match; try done; by rewrite Hsort.
Qed.

(** ** Computations that never look at the directory *)

Definition with_root (r : list fsnode) (w : world) : world := mkWorld (heap w) r.

(** Run in a world with another directory, such a computation has the
    same outcome and builds the same heap. *)
Definition root_blind {A} (m : M A) : Prop :=
  ∀ w r, m (with_root r w) = ((m w).1, with_root r (m w).2).

Lemma root_blind_ret {A} (a : A) : root_blind (ret a).
Proof. done. Qed.

Lemma root_blind_raise {A} (e : exn) : root_blind (@raise A e).
Proof. done. Qed.

Lemma root_blind_lift {A} (o : outcome A) : root_blind (lift o).
Proof. done. Qed.

Lemma root_blind_raiseerror {A} c msg :
  root_blind (@SystemMethods.raiseerror A c msg).
Proof. done. Qed.

Lemma root_blind_bind {A B} (m : M A) (k : A → M B) :
  root_blind m → (∀ a, root_blind (k a)) → root_blind (bind m k).
Proof.
  intros Hm Hk w r. unfold bind. rewrite Hm.
  destruct (m w) as [[a|e|c msg] w']; simpl; [|done..]. apply Hk.
Qed.

Lemma root_blind_try_except {A} (m h : M A) :
  root_blind m → root_blind h → root_blind (try_except m h).
Proof.
  intros Hm Hh w r. unfold try_except. rewrite Hm.
  destruct (m w) as [[a|e|c msg] w']; simpl; [done|apply Hh..].
Qed.

Lemma root_blind_getattr {A} s name (f : ProjectObj → A) :
  root_blind (getattr s name f).
Proof.
  intros w r. unfold getattr, with_root. simpl.
  by destruct (heap w !! s) as [[]|].
Qed.

Lemma root_blind_getattr_opt {A} s name (f : ProjectObj → option A) :
  root_blind (getattr_opt s name f).
Proof.
  apply root_blind_bind; [apply root_blind_getattr|intros [a|]];
    [apply root_blind_ret|apply root_blind_raise].
Qed.

Lemma root_blind_setattr s name upd : root_blind (setattr s name upd).
Proof.
  intros w r. unfold setattr, with_root. simpl.
  by destruct (heap w !! s) as [[]|].
Qed.

Ltac root_blind_step :=
  first
    [ apply root_blind_ret | apply root_blind_raise | apply root_blind_lift
    | apply root_blind_raiseerror
    | apply root_blind_getattr | apply root_blind_getattr_opt
    | apply root_blind_setattr
    | apply root_blind_try_except
    | (apply root_blind_bind; [|intros ?])
    | match goal with
      | |- root_blind (if ?b then _ else _) => destruct b
      | |- root_blind (match ?x with _ => _ end) => destruct x
      end ].

Lemma root_blind_update `{RegexEngine} s : root_blind (Project.__update s).
Proof.
  unfold Project.__update, Project.derive, Project.df_.
  repeat root_blind_step.
Qed.

(** [scan_prj] reads the directory once, to parse it. *)
Lemma scan_prj_after_parsing `{RegexEngine} s :
  ∃ rest : DataFrame * bool * bool → M unit,
    (∀ res, root_blind (rest res))
    ∧ ∀ w p, points_to w s p →
        Project.scan_prj s w
        = bind (lift (ProjectMethods.parsing (root w) (path p) (ds_type p)
                        (dc_idx p))) rest w.
Proof.
  eexists. split; last first.
  - intros w p Hs. unfold Project.scan_prj, Project.path_.
    rewrite !(bind_getattr _ _ _ _ _ _ Hs). unfold read_root, bind at 1.
    reflexivity.
  - intros [[d single] empty_prj]. simpl.
    repeat first [apply root_blind_update | root_blind_step].
Qed.

Lemma scan_prj_perm `{RegexEngine} root1 root2 h s p :
  points_to (mkWorld h root1) s p →
  ProjectMethods.parsing root1 (path p) (ds_type p) (dc_idx p)
  = ProjectMethods.parsing root2 (path p) (ds_type p) (dc_idx p) →
  (Project.scan_prj s (mkWorld h root1)).1 = (Project.scan_prj s (mkWorld h root2)).1
  ∧ heap (Project.scan_prj s (mkWorld h root1)).2
    = heap (Project.scan_prj s (mkWorld h root2)).2.
Proof.
  intros Hs Hparse.
  destruct (scan_prj_after_parsing s) as (rest & Hblind & Hscan).
  rewrite (Hscan _ p Hs), (Hscan (mkWorld h root2) p Hs). simpl.
  rewrite <-Hparse. unfold bind, lift.
  destruct (ProjectMethods.parsing root1 _ _ _) as [res| |]; [|done..].
  change (mkWorld h root2) with (with_root root2 (mkWorld h root1)).
  rewrite Hblind. by destruct (rest res (mkWorld h root1)).
Qed.

(** ** The order of the scanned table *)

Lemma parsing_sorted root p ds idx d single empty_prj :
  ProjectMethods.parsing root p ds idx = Ok (d, single, empty_prj) →
  Sorted abspath_le (rows d).
Proof.
  unfold ProjectMethods.parsing, obind.
  destruct (py_index ds idx); [|done..].
  repeat case_match; intros; simplify_eq; simpl;
    first [by constructor | apply Sorted_merge_sort, _].
Qed.

Lemma filter_Sorted (f : Row → bool) l :
  Sorted abspath_le l → Sorted abspath_le (List.filter f l).
Proof.
  intros Hs. apply Sorted_StronglySorted in Hs; [|apply _].
  apply StronglySorted_Sorted.
  induction Hs as [|x l Hl IH Hx]; simpl; [constructor|].
  destruct (f x); [|done]. constructor; [done|].
  apply Forall_forall. intros y Hy%list_elem_of_In%List.filter_In.
  rewrite Forall_forall in Hx. apply Hx, list_elem_of_In, Hy.
Qed.

Lemma initial_filter_sorted `{RegexEngine} d ds e d' :
  ProjectMethods.initial_filter d ds e = Ok d' →
  Sorted abspath_le (rows d) → Sorted abspath_le (rows d').
Proof.
  unfold ProjectMethods.initial_filter, obind. intros Hf Hs.
  repeat case_match; simplify_eq; simpl; try done;
    repeat apply filter_Sorted; done.
Qed.

Lemma df_select_sorted cols d d' :
  df_select cols d = Ok d' →
  Sorted abspath_le (rows d) → Sorted abspath_le (rows d').
Proof.
  unfold df_select. intros Hf Hs. case_match; simplify_eq. simpl.
  by apply (Sorted_fmap _ abspath_le abspath_le).
Qed.

Lemma scan_prj_sorted `{RegexEngine} s w w' :
  Project.scan_prj s w = (Ok (), w') →
  ∃ p', points_to w' s p' ∧ Sorted abspath_le (rows (df p')).
Proof.
  unfold Project.scan_prj, Project.path_. intros Hrun.
  apply bind_inv_ok in Hrun as (pa & w1 & H1 & Hrun).
  apply getattr_inv in H1 as (-> & p & Hs & ->).
  rewrite !(bind_getattr _ _ _ _ _ _ Hs) in Hrun.
  apply bind_inv_ok in Hrun as (r & w2 & H2 & Hrun).
  unfold read_root in H2. simplify_eq.
  apply bind_inv_ok in Hrun as ([[d single] empty_prj] & w3 & H3 & Hrun).
  apply lift_inv in H3 as [Hparse ->].
  apply parsing_sorted in Hparse.
  rewrite (bind_setattr _ _ _ _ _ _ Hs) in Hrun.
  erewrite bind_setattr in Hrun; [|by eapply points_to_upd].
  rewrite upd_world_twice in Hrun.
  destruct empty_prj; simpl in Hrun.
  - erewrite run_setattr in Hrun; [|by eapply points_to_upd].
    rewrite upd_world_twice in Hrun. simplify_eq.
    eexists. split; [by eapply points_to_upd|done].
  - do 3 (erewrite bind_getattr in Hrun; [|by eapply points_to_upd]).
    simpl in Hrun.
    apply bind_inv_ok in Hrun as (d1 & w4 & H4 & Hrun).
    apply lift_inv in H4 as [Hfilter ->].
    apply initial_filter_sorted in Hfilter; [|done].
    erewrite bind_setattr in Hrun; [|by eapply points_to_upd].
    rewrite upd_world_twice in Hrun.
    erewrite bind_getattr in Hrun; [|by eapply points_to_upd].
    simpl in Hrun.
    apply bind_inv_ok in Hrun as ([] & w5 & H5 & Hrun).
    assert (∃ q, points_to w5 s q ∧ Sorted abspath_le (rows (df q)))
      as (q & Hq & Hsorted).
    { destruct (negb (length (rows d1) =? 0)).
      - do 2 (erewrite bind_getattr in H5; [|by eapply points_to_upd]).
        simpl in H5.
        apply bind_inv_ok in H5 as (d2 & w6 & H6 & H5).
        apply lift_inv in H6 as [Hsel ->].
        erewrite run_setattr in H5; [|by eapply points_to_upd].
        rewrite upd_world_twice in H5. simplify_eq.
        eexists. split; [by eapply points_to_upd|]. simpl.
        destruct (ProjectMethods.reorder_columns _ _); [|done].
        by eapply df_select_sorted.
      - apply ret_inv in H5 as [_ ->].
        eexists. split; [by eapply points_to_upd|done]. }
    apply bind_inv_ok in Hrun as ([] & w6 & H6 & Hrun).
    pose proof (update_changes s w5 q Hq) as (q' & Hw & Hcore).
    rewrite H6 in Hw. simpl in Hw. subst w6.
    erewrite run_setattr in Hrun; [|by eapply points_to_upd].
    rewrite upd_world_twice in Hrun. simplify_eq.
    eexists. split; [by eapply points_to_upd|]. simpl.
    destruct Hcore as (_ & _ & _ & _ & -> & _). done.
Qed.

(** C8. Two scans of one tree build the same table, however the file
    system enumerates the entries of each directory: for two listings of
    a tree whose root has distinct entry names and whose files have
    distinct paths, [scan_prj] ends in the same outcome and the same
    heap (the table with its rows, their cells and the derived lists),
    and the table of a scan that returns is sorted by absolute path. *)
Theorem scan_prj_deterministic `{RegexEngine}
    (root1 root2 : list fsnode) (h : list obj) (s : addr) (p : ProjectObj) :
  points_to (mkWorld h root1) s p →
  entries_equiv root1 root2 →
  NoDup (node_name <$> root1) →
  (∀ top, py_index (ds_type p) (dc_idx p) = Ok top →
     NoDup (Abspath <$> ProjectMethods.walk_rows (path p) (os_walk root1 top))) →
  (Project.scan_prj s (mkWorld h root1)).1 = (Project.scan_prj s (mkWorld h root2)).1
  ∧ heap (Project.scan_prj s (mkWorld h root1)).2
    = heap (Project.scan_prj s (mkWorld h root2)).2
  ∧ (is_ok (Project.scan_prj s (mkWorld h root1)).1 = true →
     ∃ p', points_to (Project.scan_prj s (mkWorld h root1)).2 s p'
       ∧ Sorted abspath_le (rows (df p'))).
Proof.
  intros Hs Heq Hnames Hpaths.
  destruct (scan_prj_perm root1 root2 h s p Hs) as [Ho Hh].
  { by apply parsing_perm. }
  split; [done|]. split; [done|].
  destruct (Project.scan_prj s (mkWorld h root1)) as [[[]|e|c msg] w'] eqn:Hrun;
    simpl; [|done..].
  intros _. by eapply scan_prj_sorted.
Qed.

Lemma root_AB_equiv : entries_equiv Scenario.root_AB Scenario.root_AB'.
Proof.
  unfold Scenario.root_AB, Scenario.root_AB'.
  apply ee_skip; [|apply entries_equiv_refl].
  apply ne_dir. eapply ee_trans; [apply ee_swap|].
  apply ee_skip; [|apply entries_equiv_refl].
  apply ne_dir, ee_skip; [|apply ee_nil].
  apply ne_dir, ee_swap.
Qed.

Lemma scan_prj_deterministic_witness :
  (@Project.scan_prj Scenario.engine Scenario.prj
     (mkWorld (heap Scenario.w_AB) Scenario.root_AB)).1
  = (@Project.scan_prj Scenario.engine Scenario.prj
       (mkWorld (heap Scenario.w_AB) Scenario.root_AB')).1
  ∧ heap (@Project.scan_prj Scenario.engine Scenario.prj
            (mkWorld (heap Scenario.w_AB) Scenario.root_AB)).2
    = heap (@Project.scan_prj Scenario.engine Scenario.prj
              (mkWorld (heap Scenario.w_AB) Scenario.root_AB')).2.
Proof.
  assert (∃ p, heap Scenario.w_AB !! Scenario.prj = Some (OProject p)
             ∧ path p = "/prj"%string ∧ ds_type p = Scenario.ref_ds
             ∧ dc_idx p = 0%Z)
    as (p & Hs & Hpath & Hds & Hidx).
  { vm_compute. eexists. split; [reflexivity|done]. }
  revert Hs. generalize (heap Scenario.w_AB). intros h Hs.
  destruct (@scan_prj_deterministic Scenario.engine Scenario.root_AB
              Scenario.root_AB' h Scenario.prj p Hs root_AB_equiv)
    as (Ho & Hh & _).
  - compute_done.
  - intros top. rewrite Hpath, Hds, Hidx. intros Htop.
    vm_compute in Htop. injection Htop as <-. compute_done.
  - split; [exact Ho|exact Hh].
Defined.

(** ** Query views leave the objects of their parent alone *)

(** Every object that existed at address below [n] in [w0] is the same in
    [w], and so is the directory. *)
Definition frame_below (n : nat) (w0 w : world) : Prop :=
  n ≤ length (heap w)
  ∧ (∀ a, a < n → heap w !! a = heap w0 !! a)
  ∧ root w = root w0.

(** The project at [n] owns its filter list and the lists in its slots:
    all of them were allocated at [n] or later. *)
Definition owns_filters (n : nat) (w : world) : Prop :=
  ∀ p, points_to w n p →
    n ≤ filters p
    ∧ ∀ sl i a, heap w !! filters p = Some (OSlots sl) →
        sl !! i = Some (Some a) → n ≤ a.

Definition view_inv (n : nat) (w0 w : world) : Prop :=
  frame_below n w0 w ∧ owns_filters n w.

Lemma frame_below_refl n w : n ≤ length (heap w) → frame_below n w w.
Proof. by intros Hn. Qed.

Lemma frame_below_store n w0 w a o :
  n ≤ a → frame_below n w0 w →
  frame_below n w0 (mkWorld (<[a := o]> (heap w)) (root w)).
Proof.
  intros Ha (Hlen & Hlook & Hroot). split; [|split]; simpl.
  - by rewrite length_insert.
  - intros b Hb. rewrite list_lookup_insert_ne by lia. by apply Hlook.
  - done.
Qed.

Lemma frame_below_alloc n w0 w o :
  frame_below n w0 w → frame_below n w0 (mkWorld (heap w ++ [o]) (root w)).
Proof.
  intros (Hlen & Hlook & Hroot). split; [|split]; simpl.
  - rewrite length_app. lia.
  - intros b Hb. rewrite lookup_app_l by lia. by apply Hlook.
  - done.
Qed.

Lemma frame_below_stable n w0 U : stable_at (frame_below n w0) n U.
Proof. intros upd w p _ HI _. by apply frame_below_store. Qed.

Lemma view_inv_stable n w0 :
  stable_at (view_inv n w0) n (λ upd, ∀ p, filters (upd p) = filters p).
Proof.
  intros upd w p Hupd [Hframe Hown] Hs. split.
  { by apply frame_below_store. }
  intros p' Hs'.
  pose proof (points_to_inj _ _ _ _ Hs' (points_to_upd _ _ _ (upd p) Hs)) as ->.
  rewrite Hupd. destruct (Hown p Hs) as [Hfa Hsl]. split; [done|].
  intros sl i a Hslots. destruct (decide (filters p = n)) as [Heq|Hne].
  - rewrite Heq in Hslots. unfold upd_world in Hslots. simpl in Hslots.
    rewrite list_lookup_insert_eq in Hslots by (by eapply lookup_lt_Some).
    done.
  - rewrite upd_world_other in Hslots by done. by eapply Hsl.
Qed.

Lemma scan_update_filters upd :
  scan_update upd → ∀ p, filters (upd p) = filters p.
Proof. by intros [? []| | |]. Qed.

Lemma view_inv_scan_stable n w0 : stable_at (view_inv n w0) n scan_update.
Proof.
  intros upd w p Hupd. apply view_inv_stable. by apply scan_update_filters.
Qed.

(** Allocation keeps the invariant when the new object holds no reference
    and is no project. *)
Lemma view_inv_alloc n w0 w o :
  (∀ p, o ≠ OProject p) →
  (∀ sl, o = OSlots sl → ∀ i a, sl !! i = Some (Some a) → n ≤ a) →
  view_inv n w0 w → view_inv n w0 (mkWorld (heap w ++ [o]) (root w)).
Proof.
  intros Hnp Hsl [Hframe Hown]. split; [by apply frame_below_alloc|].
  intros p Hs. unfold points_to in Hs. simpl in Hs.
  assert (Hlt : n < length (heap w)).
  { destruct (decide (n < length (heap w))) as [|Hge]; [done|].
    rewrite lookup_app_r in Hs by lia.
    destruct (n - length (heap w)); simpl in Hs; [|done].
    simplify_eq. by destruct (Hnp p). }
  rewrite lookup_app_l in Hs by done.
  destruct (Hown p Hs) as [Hfa Hslots]. split; [done|].
  intros sl i a Hlook. simpl in Hlook.
  destruct (decide (filters p < length (heap w))) as [Hlt'|Hge].
  - rewrite lookup_app_l in Hlook by done. by eapply Hslots.
  - rewrite lookup_app_r in Hlook by lia.
    destruct (filters p - length (heap w)); simpl in Hlook; [|done].
    simplify_eq. by eapply Hsl.
Qed.

Lemma keeps_slot_set n w0 i v :
  (∀ a, v = Some a → n ≤ a) →
  keeps (view_inv n w0) (Project.slot_set n i v).
Proof.
  intros Hv w [Hframe Hown]. unfold Project.slot_set, bind, getattr, load_slots.
  destruct (heap w !! n) as [[p| | |]|] eqn:Hs; simpl; try done.
  destruct (heap w !! filters p) as [[| |sl|]|] eqn:Hfa; simpl; try done.
  destruct (decide (i < length sl)); simpl; [|done].
  destruct (Hown p Hs) as [Hge Hsl].
  assert (Hne : filters p ≠ n) by (intros Heq; rewrite Heq in Hfa; congruence).
  split; [by apply frame_below_store|].
  intros p' Hs'. unfold points_to in Hs'. simpl in Hs'.
  rewrite list_lookup_insert_ne in Hs' by done.
  rewrite Hs in Hs'. simplify_eq. split; [done|].
  intros sl' j a Hlook Hj. simpl in Hlook.
  rewrite list_lookup_insert_eq in Hlook by (by eapply lookup_lt_Some).
  simplify_eq. destruct (decide (i = j)) as [->|Hij].
  - rewrite list_lookup_insert_eq in Hj by done. simplify_eq. by apply Hv.
  - rewrite list_lookup_insert_ne in Hj by done. by eapply Hsl.
Qed.

Lemma keeps_slot_assign n w0 i l :
  keeps (view_inv n w0) (Project.slot_assign n i l).
Proof.
  intros w HI. unfold Project.slot_assign, bind at 1, alloc.
  apply keeps_slot_set.
  - intros a [= <-]. destruct HI as [(Hlen & _) _]. done.
  - by apply view_inv_alloc.
Qed.

Lemma keeps_extend_or_assign n w0 i new :
  keeps (view_inv n w0) (Project.extend_or_assign n i new).
Proof.
  intros w HI. unfold Project.extend_or_assign.
  pose proof (read_only_slot_value n i w) as Hro.
  unfold bind at 1. destruct (Project.slot_value n i w) as [[cur|e|c msg] w1];
    simpl in Hro; subst w1; simpl; [|done..].
  destruct (truthy_list cur); [|by apply keeps_slot_assign].
  pose proof (read_only_slot_get n i w) as Hro.
  unfold bind at 1.
  destruct (Project.slot_get n i w) as [[a|e|c msg] w1] eqn:Hget;
    simpl in Hro; subst w1; simpl; [|done..].
  destruct a as [a|]; [|done].
  unfold bind, load_list, store.
  destruct (heap w !! a) as [[| | |l]|] eqn:Ha; simpl; try done.
  assert (n ≤ a ∧ ∃ p sl, points_to w n p ∧ heap w !! filters p = Some (OSlots sl))
    as (Hge & p & sl & Hs & Hfa).
  { unfold Project.slot_get, bind, getattr, load_slots in Hget.
    destruct (heap w !! n) as [[p| | |]|] eqn:Hs; simpl in Hget; try done.
    destruct (heap w !! filters p) as [[| |sl|]|] eqn:Hfa; simpl in Hget; try done.
    destruct (sl !! i) as [v|] eqn:Hi; simpl in Hget; [|done].
    unfold ret in Hget. simplify_eq. destruct HI as [_ Hown].
    destruct (Hown p Hs) as [_ Hsl]. split; [by eapply Hsl|eauto]. }
  destruct HI as [Hframe Hown]. split; [by apply frame_below_store|].
  assert (a ≠ n) by (intros ->; unfold points_to in Hs; congruence).
  assert (a ≠ filters p) by (intros ->; congruence).
  intros p' Hs'. unfold points_to in Hs'. simpl in Hs'.
  rewrite list_lookup_insert_ne in Hs' by done.
  pose proof (points_to_inj _ _ _ _ Hs Hs') as <-.
  destruct (Hown p Hs) as [Hfa' Hsl]. split; [done|].
  intros sl' j b Hlook. simpl in Hlook.
  rewrite list_lookup_insert_ne in Hlook by done. by eapply Hsl.
Qed.

Lemma keeps_match_level n w0 i args residuals lists :
  keeps (view_inv n w0) (Project.match_level n i args residuals lists).
Proof.
  unfold Project.match_level.
  apply keeps_bind; [apply keeps_lift|intros r].
  apply keeps_bind; [apply keeps_extend_or_assign|intros _; apply keeps_ret].
Qed.

Lemma keeps_set_filters_args n w0 args :
  keeps (view_inv n w0) (Project.set_filters_args n args).
Proof.
  unfold Project.set_filters_args, Project.subjects_, Project.sessions_,
    Project.dtypes_, Project.pipelines_, Project.steps_, Project.results_.
  repeat first
    [ apply keeps_match_level
    | (apply keeps_slot_set; by intros ? [=])
    | keeps_step ].
Qed.

Lemma read_only_applying_filters `{RegexEngine} s d :
  read_only (Project.applying_filters s d).
Proof.
  intros w. destruct (filter_at_body w s) as (body & (chk & p & Hbody) & Happ).
  rewrite Happ. destruct (negb _); [|done]. by rewrite Hbody.
Qed.

(** [reset_filters] gives the project a filter list of its own. *)
Lemma reset_filters_owns `{RegexEngine} n w0 ext w :
  frame_below n w0 w →
  view_inv n w0 (Project.reset_filters n ext w).2.
Proof.
  intros Hframe. unfold Project.reset_filters, bind at 1, alloc.
  set (w1 := mkWorld (heap w ++ [OSlots (replicate 6 None)]) (root w)).
  assert (Hframe1 : frame_below n w0 w1) by (by apply frame_below_alloc).
  unfold bind at 1, setattr.
  destruct (heap w1 !! n) as [[p| | |]|] eqn:Hs; simpl;
    try (split; [done|]; intros p' Hs'; unfold points_to in Hs'; congruence).
  set (w2 := mkWorld _ _).
  assert (HI : view_inv n w0 w2).
  { split; [exact (frame_below_store n w0 w1 n _ (le_n n) Hframe1)|].
    intros p' Hs'.
    pose proof (points_to_inj _ _ _ _ Hs'
                  (points_to_upd w1 n p (with_filters (length (heap w)) p) Hs)) as ->.
    simpl. destruct Hframe as (Hlen & _). split; [done|].
    intros sl i a Hlook Hi. subst w2. simpl in Hlook.
    assert (length (heap w) ≠ n).
    { intros <-. subst w1. simpl in Hs.
      rewrite lookup_app_r, Nat.sub_diag in Hs by done. simpl in Hs. congruence. }
    rewrite list_lookup_insert_ne in Hlook by done.
    rewrite lookup_app_r, Nat.sub_diag in Hlook by done. simpl in Hlook.
    simplify_eq. do 6 (destruct i as [|i]; [done|]). done. }
  revert HI. generalize w2. clear. intros w3 HI.
  assert (keeps (view_inv n w0)
    ((if negb (truthy ext)
      then bind (getattr n "img_ext" img_ext)
             (λ e, setattr n "_ext" (with__ext (Some (VList e))))
      else setattr n "_ext" (with__ext (Some ext))) ;;
     Project.scan_prj n ;; Project.__update n)) as Hk; [|by apply Hk].
  pose proof (view_inv_stable n w0) as Hst.
  apply keeps_bind.
  { destruct (negb (truthy ext)).
    - apply keeps_bind; [apply keeps_getattr|intros e; by eapply keeps_setattr].
    - by eapply keeps_setattr. }
  intros _. apply keeps_bind.
  - apply keeps_scan_prj, view_inv_scan_stable.
  - intros _. apply keeps_update, stable_at_derived, view_inv_scan_stable.
Qed.

Lemma dataclass_set_frame `{RegexEngine} n w0 idx w :
  frame_below n w0 w → frame_below n w0 (Project.dataclass_set n idx w).2.
Proof.
  intros Hframe. unfold Project.dataclass_set.
  destruct (decide _); [|done].
  unfold bind at 1.
  pose proof (keeps_setattr (frame_below n w0) n "_Project__dc_idx"
                (with_dc_idx idx) (λ _, True) (frame_below_stable n w0 _) I w Hframe)
    as Hframe1.
  destruct (setattr n "_Project__dc_idx" (with_dc_idx idx) w) as [[[]|e|c msg] w1];
    simpl in *; [|done..].
  unfold bind at 1.
  pose proof (reset_filters_owns n w0 VNone w1 Hframe1) as HI.
  destruct (Project.reset_filters n VNone w1) as [[[]|e|c msg] w2];
    simpl in *; [|by destruct HI..].
  eapply proj1.
  exact (keeps_update (view_inv n w0) n
           (stable_at_derived _ _ (view_inv_scan_stable n w0)) w2 HI).
Qed.

Lemma set_filters_frame `{RegexEngine} n w0 args kwargs w :
  frame_below n w0 w → frame_below n w0 (Project.set_filters n args kwargs w).2.
Proof.
  intros Hframe. unfold Project.set_filters.
  destruct kwargs as [|k kwargs]; [|done].
  rewrite bind_assoc. unfold bind at 1, Project.ext_.
  pose proof (read_only_getattr n "_Project__ext_filter" ext_filter w) as Hro.
  destruct (getattr n "_Project__ext_filter" ext_filter w) as [[e|e|c msg] w1];
    simpl in Hro; subst w1; simpl; [|done..].
  unfold bind at 1.
  pose proof (reset_filters_owns n w0 (Project.pyval_of_list e) w Hframe) as HI.
  destruct (Project.reset_filters n (Project.pyval_of_list e) w)
    as [[[]|e'|c msg] w2]; simpl in *; [|by destruct HI..].
  eapply proj1. revert HI. generalize w2. clear. intros w3 HI.
  assert (keeps (view_inv n w0)
    ((match args with
      | [] => ret ()
      | _ :: _ => Project.set_filters_args n args
      end) ;;
     d <- getattr n "_Project__df" df ;;
     d <- Project.applying_filters n d ;;
     setattr n "_Project__df" (with_df d) ;;
     Project.__update n)) as Hk; [|by apply Hk].
  pose proof (view_inv_scan_stable n w0) as Hst.
  apply keeps_bind.
  { destruct args; [apply keeps_ret|apply keeps_set_filters_args]. }
  intros _. apply keeps_bind; [apply keeps_getattr|intros d].
  apply keeps_bind; [apply keeps_read_only, read_only_applying_filters|intros d'].
  apply keeps_bind; [by keeps_step|intros _].
  by apply keeps_update, stable_at_derived.
Qed.

Lemma update_ok_points_to_after `{RegexEngine} s w a w' :
  Project.__update s w = (Ok a, w') → ∃ p', points_to w' s p'.
Proof.
  intros Hrun. destruct (update_ok_points_to _ _ _ _ Hrun) as (p & Hs).
  pose proof (update_changes s w p Hs) as (p' & Hw & _).
  rewrite Hrun in Hw. simpl in Hw. subst w'.
  exists p'. by eapply points_to_upd.
Qed.

Lemma set_filters_ok_points_to `{RegexEngine} s args kwargs w w' :
  Project.set_filters s args kwargs w = (Ok (), w') → ∃ p', points_to w' s p'.
Proof.
  unfold Project.set_filters. intros Hrun.
  do 5 (apply bind_inv_ok in Hrun as (? & ? & _ & Hrun)).
  by eapply update_ok_points_to_after.
Qed.

(** The frame of a call: whatever the arguments, and whether the call
    returns, raises or exits, invoking a project as a query view leaves
    every object that existed before the call as it was: the project
    itself with its table and its derived lists, its six-slot filter list
    and the lists in the slots; the directory is untouched, [subjects]
    reads on the parent what it read before, and a call that returns
    hands out a project object that did not exist before. *)
Lemma call_frame `{RegexEngine}
    (s : addr) (dc_id : Z) (args : list string)
    (kwargs : list (string * pyval)) (w : world) :
  let r := Project.__call__ s dc_id args kwargs w in
  (∀ a o, heap w !! a = Some o → heap r.2 !! a = Some o)
  ∧ root r.2 = root w
  ∧ (Project.subjects_ s r.2).1 = (Project.subjects_ s w).1
  ∧ (∀ prj, r.1 = Ok prj →
       heap w !! prj = None ∧ ∃ p', points_to r.2 prj p').
Proof.
  set (n := length (heap w)).
  destruct (heap w !! s) as [o|] eqn:Hs; last first.
  { assert (Project.__call__ s dc_id args kwargs w
            = (Raise (AttributeError "__dict__"), w)) as ->; [|done].
    unfold Project.__call__, Project.copy. rewrite bind_assoc.
    unfold bind at 1, getattr. by rewrite Hs. }
  assert (Hcall : ∃ r w', Project.__call__ s dc_id args kwargs w = (r, w')
    ∧ frame_below n w w'
    ∧ ∀ prj, r = Ok prj → prj = n ∧ ∃ p', points_to w' prj p').
  { destruct (Project.__call__ s dc_id args kwargs w) as [r w'] eqn:Hcall.
    exists r, w'. split; [done|].
    unfold Project.__call__, Project.copy in Hcall. rewrite bind_assoc in Hcall.
    unfold bind at 1 in Hcall. unfold getattr at 1 in Hcall. rewrite Hs in Hcall.
    destruct o as [p| | |];
      try (simplify_eq; split; [by apply frame_below_refl|done]).
    unfold bind at 1, alloc in Hcall. fold n in Hcall.
    set (w1 := mkWorld _ _) in Hcall.
    assert (Hframe1 : frame_below n w w1).
    { apply frame_below_alloc. by apply frame_below_refl. }
    assert (Hs1 : points_to w1 s p).
    { unfold points_to, w1. simpl. rewrite lookup_app_l; [done|].
      by eapply lookup_lt_Some. }
    rewrite (bind_getattr _ _ _ _ _ _ Hs1) in Hcall.
    unfold bind at 1 in Hcall.
    assert (Hframe2 : frame_below n w
      ((if negb (dc_idx p =? dc_id)%Z then Project.dataclass_set n dc_id
        else ret ()) w1).2).
    { destruct (negb _); [by apply dataclass_set_frame|done]. }
    destruct ((if negb (dc_idx p =? dc_id)%Z then Project.dataclass_set n dc_id
               else ret ()) w1) as [[[]|e|c msg] w2];
      simpl in Hframe2; [|by simplify_eq..].
    unfold bind at 1 in Hcall.
    pose proof (set_filters_frame n w args kwargs w2 Hframe2) as Hframe3.
    destruct (Project.set_filters n args kwargs w2) as [[[]|e|c msg] w3] eqn:Hset;
      simpl in Hframe3; [|by simplify_eq..].
    unfold ret in Hcall. simplify_eq. split; [done|].
    intros prj [= <-]. split; [done|].
    by eapply set_filters_ok_points_to. }
  destruct Hcall as (r & w' & Hc & (Hlen & Hlook & Hroot) & Hnew).
  assert (Hkeep : ∀ a o, heap w !! a = Some o → heap w' !! a = Some o).
  { intros a o' Ha. rewrite Hlook; [done|]. by eapply lookup_lt_Some. }
  cbv zeta. rewrite Hc. cbn [fst snd].
  split; [done|]. split; [done|]. split.
  - unfold Project.subjects_, getattr_opt, bind, getattr.
    rewrite (Hkeep _ _ Hs), Hs.
    destruct o as [p| | |]; [|done..]. by destruct (subjects p).
  - intros prj Hprj. destruct (Hnew prj Hprj) as [-> Hp]. split; [|done].
    by apply lookup_ge_None_2.
Qed.

(** C1, as stated, fails where the call does not return: with an unknown
    token the view ends in [sys.exit], and no project is handed out. *)
Lemma call_unknown_token_exits :
  (@Project.__call__ Scenario.engine Scenario.prj 0 ["Z"] [] Scenario.w_AB).1
  = SysExit InputValueError (MsgWrongFilterInput ["Z"]).
Proof. by vm_compute. Qed.

Example call_subject_view :
  let r := @Project.__call__ Scenario.engine Scenario.prj 0 ["A"] [] Scenario.w_AB in
  r.1 = Ok 2
  ∧ (Project.subjects_ 2 r.2).1 = Ok (Some [Some "A"])
  ∧ (Project.subjects_ Scenario.prj r.2).1 = Ok (Some [Some "A"; Some "B"])
  ∧ Scenario.filenames_at r.2 2 = Some ["a.nii"; "a_mask.nii"]
  ∧ Scenario.filenames_at r.2 Scenario.prj
    = Some ["a.nii"; "a_mask.nii"; "b.nii"; "b_mask.nii"].
Proof. by vm_compute. Qed.

(** ** What [__update] computes *)

(** The columns [__update] reads on a table with rows. *)
Definition needs_columns (p : ProjectObj) : list string :=
  ["Subject"]
  ++ (if single_session p then [] else ["Session"])
  ++ (if (dc_idx p =? 0)%Z then ["DataType"]
      else if (dc_idx p =? 1)%Z then ["Pipeline"; "Step"]
      else if (dc_idx p =? 2)%Z then ["Pipeline"; "Result"]
      else []).

Definition update_ready (p : ProjectObj) : Prop :=
  length (rows (df p)) ≠ 0 →
  ∀ c, c ∈ needs_columns p → Name c ∈ columns (df p).

Definition col_vocab (p : ProjectObj) (col : string) : vocab :=
  Some (sorted_set ((λ r, cell r (Name col)) <$> rows (df p))).

(** The project after an [__update] that returned. *)
Definition updated (p : ProjectObj) : ProjectObj :=
  if length (rows (df p)) =? 0 then all_none p
  else
    let q :=
      with_sessions
        (Some (if single_session p then None else col_vocab p "Session"))
        (with_subjects (Some (col_vocab p "Subject")) p) in
    if (dc_idx p =? 0)%Z then
      with_results (Some None) (with_steps (Some None)
        (with_pipelines (Some None)
           (with_dtypes (Some (col_vocab p "DataType")) q)))
    else if (dc_idx p =? 1)%Z then
      with_results (Some None)
        (with_steps (Some (col_vocab p "Step"))
           (with_pipelines (Some (col_vocab p "Pipeline"))
              (with_dtypes (Some None) q)))
    else if (dc_idx p =? 2)%Z then
      with_steps (Some None)
        (with_results (Some (col_vocab p "Result"))
           (with_pipelines (Some (col_vocab p "Pipeline"))
              (with_dtypes (Some None) q)))
    else q.

Lemma bind_derive_ok `{RegexEngine} {B} s col (k : vocab → M B) w p :
  points_to w s p → Name col ∈ columns (df p) →
  bind (Project.derive s col) k w = k (col_vocab p col) w.
Proof.
  intros Hs Hcol. unfold Project.derive, Project.df_.
  rewrite bind_assoc, (bind_getattr _ _ _ _ _ _ Hs).
  unfold column_values. rewrite decide_True by done. done.
Qed.

Lemma bind_derive_err `{RegexEngine} {B} s col (k : vocab → M B) w p :
  points_to w s p → Name col ∉ columns (df p) →
  bind (Project.derive s col) k w = (Raise (AttributeError col), w).
Proof.
  intros Hs Hcol. unfold Project.derive, Project.df_.
  rewrite bind_assoc, (bind_getattr _ _ _ _ _ _ Hs).
  unfold column_values. rewrite decide_False by done. done.
Qed.

Ltac exec Hs :=
  repeat first
    [ rewrite bind_assoc
    | rewrite bind_ret
    | rewrite bind_lift_ok
    | erewrite bind_getattr by first [exact Hs | eapply points_to_upd, Hs]
    | erewrite bind_setattr by first [exact Hs | eapply points_to_upd, Hs]
    | erewrite run_getattr by first [exact Hs | eapply points_to_upd, Hs]
    | erewrite run_setattr by first [exact Hs | eapply points_to_upd, Hs]
    | rewrite upd_world_twice ].

Ltac exec_in Hs Hrun :=
  repeat first
    [ rewrite bind_assoc in Hrun
    | rewrite bind_ret in Hrun
    | rewrite bind_lift_ok in Hrun
    | erewrite bind_getattr in Hrun by first [exact Hs | eapply points_to_upd, Hs]
    | erewrite bind_setattr in Hrun by first [exact Hs | eapply points_to_upd, Hs]
    | erewrite run_getattr in Hrun by first [exact Hs | eapply points_to_upd, Hs]
    | erewrite run_setattr in Hrun by first [exact Hs | eapply points_to_upd, Hs]
    | rewrite upd_world_twice in Hrun ].

(** [__update] returns exactly when the table has the columns it reads,
    and then stores the vocabularies of [updated]. *)
Lemma update_run `{RegexEngine} s w p :
  points_to w s p →
  update_ready p →
  Project.__update s w = (Ok (), upd_world w s (updated p)).
Proof.
  intros Hs Hready. unfold Project.__update, Project.df_, updated.
  rewrite (bind_getattr _ _ _ _ _ _ Hs).
  destruct (length (rows (df p)) =? 0) eqn:Hlen; simpl.
  { apply Nat.eqb_eq in Hlen. rewrite <-update_empty_table by done.
    unfold Project.__update, Project.df_.
    by rewrite (bind_getattr _ _ _ _ _ _ Hs), Hlen. }
  apply Nat.eqb_neq in Hlen. specialize (Hready Hlen).
  unfold needs_columns in Hready.
  unfold try_except.
  destruct (single_session p) eqn:Hsingle;
    destruct (dc_idx p =? 0)%Z eqn:H0;
    [|destruct (dc_idx p =? 1)%Z eqn:H1; [|destruct (dc_idx p =? 2)%Z eqn:H2]
     | |destruct (dc_idx p =? 1)%Z eqn:H1; [|destruct (dc_idx p =? 2)%Z eqn:H2]];
    repeat first
      [ progress exec Hs
      | progress (simpl; rewrite ?Hsingle, ?H0, ?H1, ?H2)
      | erewrite bind_derive_ok;
          [|first [exact Hs | eapply points_to_upd, Hs]
           |simpl; apply Hready; compute_done] ];
    done.
Qed.

Lemma update_ok_ready `{RegexEngine} s w p a w' :
  points_to w s p → Project.__update s w = (Ok a, w') → update_ready p.
Proof.
  intros Hs Hrun Hlen. unfold Project.__update, Project.df_ in Hrun.
  rewrite (bind_getattr _ _ _ _ _ _ Hs) in Hrun.
  apply Nat.eqb_neq in Hlen. rewrite Hlen in Hrun. simpl in Hrun.
  unfold try_except, needs_columns in *.
  destruct (single_session p) eqn:Hsingle; destruct (dc_idx p =? 0)%Z eqn:H0;
    [|destruct (dc_idx p =? 1)%Z eqn:H1; [|destruct (dc_idx p =? 2)%Z eqn:H2]
     | |destruct (dc_idx p =? 1)%Z eqn:H1; [|destruct (dc_idx p =? 2)%Z eqn:H2]];
    repeat first
      [ progress exec_in Hs Hrun
      | progress (simpl in Hrun; rewrite ?Hsingle, ?H0, ?H1, ?H2 in Hrun)
      | match type of Hrun with
        | context [bind (Project.derive s ?col) _ _] =>
            destruct (decide (Name col ∈ columns (df p)));
            [ erewrite bind_derive_ok in Hrun;
                [|first [exact Hs | eapply points_to_upd, Hs]|simpl; eassumption]
            | erewrite bind_derive_err in Hrun;
                [|first [exact Hs | eapply points_to_upd, Hs]|simpl; eassumption];
              simpl in Hrun; done ]
        end ];
    intros c Hc; simpl in Hc;
    repeat (apply elem_of_cons in Hc as [->|Hc]; [done|]);
    by apply elem_of_nil in Hc.
Qed.

(** ** Matching the positional arguments *)

Definition in_vocab (V : list (option string)) (a : string) : bool :=
  bool_decide (Some a ∈ V).

Lemma list_remove_app x pre rest :
  x ∉ pre →
  ProjectMethods.list_remove x (pre ++ x :: rest) = pre ++ rest.
Proof.
  induction pre as [|y pre IH]; intros Hx; simpl.
  - by rewrite decide_True.
  - apply not_elem_of_cons in Hx as [Hxy Hx].
    rewrite decide_False by done. by rewrite IH.
Qed.

Lemma elem_of_List_filter {A} (f : A → bool) l x :
  x ∈ List.filter f l ↔ x ∈ l ∧ f x = true.
Proof. rewrite !list_elem_of_In. apply filter_In. Qed.

(** The arguments found in the vocabulary leave the residuals, every
    occurrence of them; the others stay, in their order. *)
Lemma remove_found (P q : string → bool) args pre :
  (∀ x, x ∈ pre → P x = false) →
  foldl (λ res comp,
           if bool_decide (comp ∈ res)
           then ProjectMethods.list_remove comp res else res)
        (pre ++ List.filter q args) (List.filter P args)
  = pre ++ List.filter (λ a, q a && negb (P a)) args.
Proof.
  revert pre. induction args as [|a args IH]; intros pre Hpre; [done|].
  simpl. destruct (P a) eqn:HP, (q a) eqn:Hq; simpl.
  - assert (a ∉ pre) as Ha.
    { intros Ha. apply Hpre in Ha. congruence. }
    rewrite bool_decide_true by (apply elem_of_app; right; left).
    rewrite list_remove_app by done. by apply IH.
  - rewrite bool_decide_false; [by apply IH|].
    intros [Ha|Ha]%elem_of_app.
    + apply Hpre in Ha. congruence.
    + apply elem_of_List_filter in Ha as [_ Ha]. congruence.
  - specialize (IH (pre ++ [a])). rewrite <-!app_assoc in IH. apply IH.
    intros x [Hx| ->%list_elem_of_singleton]%elem_of_app; [by apply Hpre|done].
  - by apply IH.
Qed.

Lemma check_arguments_run (q : string → bool) args V :
  args ≠ [] →
  ProjectMethods.check_arguments args (List.filter q args) (Some V)
  = Ok (List.filter (in_vocab V) args,
        List.filter (λ a, q a && negb (in_vocab V a)) args).
Proof.
  intros Hargs. unfold ProjectMethods.check_arguments.
  destruct args as [|a args]; [done|]. cbn [obind].
  f_equal. f_equal. exact (remove_found (in_vocab V) q (a :: args) [] (λ x Hx, False_rect _ (not_elem_of_nil x Hx))).
Qed.

(** ** The filter slots as values *)

Definition slot_holds (w : world) (a : option addr) (v : pylist string) : Prop :=
  match a, v with
  | None, None => True
  | Some a, Some l => heap w !! a = Some (OList l)
  | _, _ => False
  end.

(** Project [s] has the attributes [p] and its six slots denote [fv]. *)
Definition filter_state (w : world) (s : addr) (p : ProjectObj)
    (fv : list (pylist string)) : Prop :=
  points_to w s p
  ∧ ∃ sl, heap w !! filters p = Some (OSlots sl) ∧ Forall2 (slot_holds w) sl fv.

Lemma bind_ok {A B} (m : M A) (k : A → M B) w a w' :
  m w = (Ok a, w') → bind m k w = k a w'.
Proof. unfold bind. by intros ->. Qed.

Lemma bind_load_slots {B} a (k : list (option addr) → M B) w sl :
  heap w !! a = Some (OSlots sl) → bind (load_slots a) k w = k sl w.
Proof. unfold bind, load_slots. by intros ->. Qed.

Lemma bind_load_list {B} a (k : list string → M B) w l :
  heap w !! a = Some (OList l) → bind (load_list a) k w = k l w.
Proof. unfold bind, load_list. by intros ->. Qed.

Lemma filter_state_fresh w s p :
  points_to w s p →
  heap w !! filters p = Some (OSlots (replicate 6 None)) →
  filter_state w s p (replicate 6 None).
Proof.
  intros Hs Hfa. split; [done|]. eexists. split; [done|].
  by repeat constructor.
Qed.

Lemma slot_value_run w s p fv i v :
  filter_state w s p fv → fv !! i = Some v →
  Project.slot_value s i w = (Ok v, w).
Proof.
  intros (Hs & sl & Hfa & Hsl) Hi.
  destruct (Forall2_lookup_r _ _ _ _ _ Hsl Hi) as (a & Ha & Hav).
  unfold Project.slot_value, Project.slot_get.
  rewrite !bind_assoc, (bind_getattr _ _ _ _ _ _ Hs), bind_assoc.
  rewrite (bind_load_slots _ _ _ _ Hfa), Ha, bind_ret.
  destruct a as [a|], v as [l|]; try done.
  simpl in Hav. by rewrite (bind_load_list _ _ _ _ Hav).
Qed.

Lemma slot_holds_store w a o x v :
  (∀ l, heap w !! a ≠ Some (OList l)) →
  slot_holds w x v →
  slot_holds (mkWorld (<[a := o]> (heap w)) (root w)) x v.
Proof.
  intros Ha. destruct x as [x|], v as [l|]; try done. simpl.
  intros Hx. rewrite list_lookup_insert_ne; [done|].
  intros ->. by eapply Ha.
Qed.

Lemma slot_holds_alloc w o x v :
  slot_holds w x v → slot_holds (mkWorld (heap w ++ [o]) (root w)) x v.
Proof.
  destruct x as [x|], v as [l|]; try done. simpl.
  intros Hx. by apply lookup_app_l_Some.
Qed.

Lemma slot_set_run w s p fv i x v :
  filter_state w s p fv → i < length fv →
  slot_holds w x v →
  ∃ w', Project.slot_set s i x w = (Ok (), w')
        ∧ filter_state w' s p (<[i := v]> fv) ∧ root w' = root w.
Proof.
  intros (Hs & sl & Hfa & Hsl) Hi Hx.
  eexists. unfold Project.slot_set.
  rewrite (bind_getattr _ _ _ _ _ _ Hs), (bind_load_slots _ _ _ _ Hfa).
  rewrite decide_True by (by rewrite (Forall2_length _ _ _ Hsl)).
  unfold store. split; [done|]. split; [|done].
  assert (∀ l, heap w !! filters p ≠ Some (OList l)) as Hne by (by rewrite Hfa).
  split.
  - unfold points_to in *. simpl. rewrite list_lookup_insert_ne; [done|].
    intros Heq. rewrite Heq, Hs in Hfa. done.
  - exists (<[i := x]> sl). split.
    + simpl. apply list_lookup_insert_eq. by eapply lookup_lt_Some.
    + apply Forall2_insert; [|by apply slot_holds_store].
      eapply Forall2_impl; [exact Hsl|]. intros ??. by apply slot_holds_store.
Qed.

Lemma filter_state_alloc w s p fv o :
  filter_state w s p fv → filter_state (mkWorld (heap w ++ [o]) (root w)) s p fv.
Proof.
  intros (Hs & sl & Hfa & Hsl). split; [by apply lookup_app_l_Some|].
  exists sl. split; [by apply lookup_app_l_Some|].
  eapply Forall2_impl; [exact Hsl|]. intros ??. by apply slot_holds_alloc.
Qed.

Lemma slot_assign_run w s p fv i l :
  filter_state w s p fv → i < length fv →
  ∃ w', Project.slot_assign s i l w = (Ok (), w')
        ∧ filter_state w' s p (<[i := Some l]> fv) ∧ root w' = root w.
Proof.
  intros Hst Hi. unfold Project.slot_assign. unfold bind at 1, alloc at 1.
  edestruct (slot_set_run (mkWorld (heap w ++ [OList l]) (root w)) s p fv i
               (Some (length (heap w))) (Some l)) as (w' & Hrun & Hst' & Hroot);
    [by apply filter_state_alloc|done| |by eauto].
  simpl. by apply list_lookup_middle.
Qed.

Lemma extend_or_assign_run w s p fv i v new :
  filter_state w s p fv → fv !! i = Some v → truthy_list v = false →
  ∃ w', Project.extend_or_assign s i new w = (Ok (), w')
        ∧ filter_state w' s p (<[i := Some new]> fv) ∧ root w' = root w.
Proof.
  intros Hst Hi Hv. unfold Project.extend_or_assign.
  rewrite (bind_ok _ _ _ _ _ (slot_value_run _ _ _ _ _ _ Hst Hi)), Hv.
  apply slot_assign_run; [done|]. by eapply lookup_lt_Some.
Qed.

(** One level: the arguments found in [V] become slot [i], and leave
    the residuals. *)
Lemma match_level_run (q : string → bool) w s p fv i v args V :
  filter_state w s p fv → fv !! i = Some v → truthy_list v = false →
  args ≠ [] →
  ∃ w', Project.match_level s i args (List.filter q args) (Some V) w
        = (Ok (List.filter (λ a, q a && negb (in_vocab V a)) args), w')
        ∧ filter_state w' s p (<[i := Some (List.filter (in_vocab V) args)]> fv)
        ∧ root w' = root w.
Proof.
  intros Hst Hi Hv Hargs. unfold Project.match_level.
  rewrite check_arguments_run by done. rewrite bind_lift_ok. cbn [fst snd].
  destruct (extend_or_assign_run w s p fv i v (List.filter (in_vocab V) args))
    as (w' & Hrun & Hst' & Hroot); [done..|].
  exists w'. by rewrite (bind_ok _ _ _ _ _ Hrun).
Qed.

Lemma filter_state_upd w s p fv upd :
  (∀ p, filters (upd p) = filters p) →
  filter_state w s p fv →
  filter_state (upd_world w s (upd p)) s (upd p) fv.
Proof.
  intros Hupd (Hs & sl & Hfa & Hsl).
  split; [by eapply points_to_upd|]. exists sl. rewrite Hupd.
  assert (∀ l, heap w !! s ≠ Some (OList l)) as Hne.
  { intros l. unfold points_to in Hs. by rewrite Hs. }
  split.
  - rewrite upd_world_other; [done|].
    intros Heq. unfold points_to in Hs. rewrite Heq, Hs in Hfa. done.
  - eapply Forall2_impl; [exact Hsl|]. intros ??. by apply slot_holds_store.
Qed.

(** The state [reset_filters] leaves: six slots holding [None]. *)
Definition fresh_slots (s : addr) (w : world) : Prop :=
  ∃ p, filter_state w s p (replicate 6 None).

Lemma fresh_slots_stable s :
  stable_at (fresh_slots s) s (λ upd, ∀ p, filters (upd p) = filters p).
Proof.
  intros upd w p Hupd (p0 & Hst) Hs.
  pose proof (points_to_inj _ _ _ _ Hs (proj1 Hst)) as ->.
  exists (upd p0). by apply filter_state_upd.
Qed.

Lemma fresh_slots_scan_stable s : stable_at (fresh_slots s) s scan_update.
Proof.
  intros upd w p Hupd. apply fresh_slots_stable. by apply scan_update_filters.
Qed.

Lemma reset_filters_fresh `{RegexEngine} s ext w0 w p :
  Project.reset_filters s ext w0 = (Ok (), w) → points_to w s p →
  filter_state w s p (replicate 6 None).
Proof.
  intros Hrun Hs.
  assert (fresh_slots s w) as (p' & Hst).
  { revert Hrun. unfold Project.reset_filters.
    unfold bind at 1. unfold alloc at 1.
    set (w1 := mkWorld (heap w0 ++ [OSlots (replicate 6 None)]) (root w0)).
    unfold bind at 1. unfold setattr at 1.
    destruct (heap w1 !! s) as [[p1| | |]|] eqn:Hs1; try done.
    fold (upd_world w1 s (with_filters (length (heap w0)) p1)).
    set (w2 := upd_world _ _ _).
    assert (fresh_slots s w2) as HI.
    { exists (with_filters (length (heap w0)) p1).
      assert (length (heap w0) ≠ s) as Hne.
      { intros <-. subst w1. simpl in Hs1.
        rewrite lookup_app_r, Nat.sub_diag in Hs1 by done. simpl in Hs1. congruence. }
      apply filter_state_fresh; [by eapply points_to_upd|].
      subst w2. rewrite upd_world_other by done. subst w1. simpl.
      by apply list_lookup_middle. }
    revert HI. generalize w2. intros w3 HI Hrun.
    assert (keeps (fresh_slots s)
      ((if negb (truthy ext)
        then bind (getattr s "img_ext" img_ext)
               (λ e, setattr s "_ext" (with__ext (Some (VList e))))
        else setattr s "_ext" (with__ext (Some ext))) ;;
       Project.scan_prj s ;; Project.__update s)) as Hk.
    { pose proof (fresh_slots_stable s) as Hst.
      apply keeps_bind.
      { destruct (negb (truthy ext)).
        - apply keeps_bind; [apply keeps_getattr|intros e; by eapply keeps_setattr].
        - by eapply keeps_setattr. }
      intros _. apply keeps_bind.
      - apply keeps_scan_prj, fresh_slots_scan_stable.
      - intros _. apply keeps_update, stable_at_derived, fresh_slots_scan_stable. }
    specialize (Hk w3 HI). by rewrite Hrun in Hk. }
  by pose proof (points_to_inj _ _ _ _ Hs (proj1 Hst)) as ->.
Qed.

Lemma reset_filters_updated `{RegexEngine} s ext w0 w p :
  Project.reset_filters s ext w0 = (Ok (), w) → points_to w s p →
  ∃ q, p = updated q ∧ update_ready q.
Proof.
  unfold Project.reset_filters. intros Hrun Hs.
  do 4 (apply bind_inv_ok in Hrun as (? & ? & _ & Hrun)).
  destruct (update_ok_points_to _ _ _ _ Hrun) as (q & Hq).
  pose proof (update_ok_ready _ _ _ _ _ Hq Hrun) as Hready.
  rewrite (update_run _ _ _ Hq Hready) in Hrun. simplify_eq.
  exists q. split; [|done].
  by apply (points_to_inj _ _ _ _ Hs), points_to_upd with (p := q).
Qed.

(** All six derived attributes are assigned, and a multi-session project
    with subjects has a list of sessions. *)
Definition vocabularies_set (p : ProjectObj) : Prop :=
  ∃ v0 v1 v2 v3 v4 v5,
    subjects p = Some v0 ∧ sessions p = Some v1 ∧ dtypes p = Some v2
    ∧ pipelines p = Some v3 ∧ steps p = Some v4 ∧ results p = Some v5
    ∧ (truthy_list v0 = true → single_session p = false → v1 ≠ None).

Lemma updated_core q :
  df (updated q) = df q ∧ single_session (updated q) = single_session q
  ∧ dc_idx (updated q) = dc_idx q ∧ filters (updated q) = filters q.
Proof.
  unfold updated, all_none.
  destruct (length (rows (df q)) =? 0); [done|].
  by destruct (dc_idx q =? 0)%Z, (dc_idx q =? 1)%Z, (dc_idx q =? 2)%Z.
Qed.

Lemma updated_vocabularies_set q :
  (0 ≤ dc_idx q < 3)%Z → vocabularies_set (updated q).
Proof.
  intros Hdc. unfold vocabularies_set, updated, all_none.
  destruct (length (rows (df q)) =? 0).
  { do 6 eexists. simpl. by repeat (split; [reflexivity|]). }
  destruct (dc_idx q =? 0)%Z eqn:H0;
    [|destruct (dc_idx q =? 1)%Z eqn:H1; [|destruct (dc_idx q =? 2)%Z eqn:H2; [|lia]]];
    do 6 eexists; simpl; repeat (split; [reflexivity|]);
    intros _ ->; done.
Qed.

(** The vocabulary [set_filters] consults for slot [i], when it consults
    one: [subjects]; [sessions] of a multi-session project with subjects;
    [dtypes] or [pipelines]; [steps] or [results]. *)
Definition level_vocab (p : ProjectObj) (i : nat) : pylist (option string) :=
  let voc (f : ProjectObj → option vocab) : vocab := default None (f p) in
  match i with
  | 0 => if truthy_list (voc subjects) then voc subjects else None
  | 1 => if truthy_list (voc subjects) && negb (single_session p)
         then voc sessions else None
  | 2 => let v := if (dc_idx p =? 0)%Z then voc dtypes else voc pipelines in
         if truthy_list v then v else None
  | 3 => if (dc_idx p =? 0)%Z then None
         else
           let v := if (dc_idx p =? 1)%Z then voc steps else voc results in
           if truthy_list v then v else None
  | _ => None
  end.

(** What a call with the positional arguments [args] puts in slot [i]. *)
Definition planned (p : ProjectObj) (args : list string) (i : nat)
    : pylist string :=
  (λ V, List.filter (in_vocab V) args) <$> level_vocab p i.

Definition unmatched_at (p : ProjectObj) (i : nat) (a : string) : bool :=
  match level_vocab p i with
  | Some V => negb (in_vocab V a)
  | None => true
  end.

Definition unmatched (p : ProjectObj) (a : string) : bool :=
  unmatched_at p 0 a && unmatched_at p 1 a
  && unmatched_at p 2 a && unmatched_at p 3 a.

(** The two blocks of [set_filters_args]. *)
Definition subject_block (s : addr) (args : list string) (subj : vocab)
    : M (list string) :=
  if truthy_list subj then
    subj <- Project.subjects_ s ;;
    residuals <- Project.match_level s 0 args args subj ;;
    single <- getattr s "single_session" single_session ;;
    if negb single then
      sess <- Project.sessions_ s ;;
      Project.match_level s 1 args residuals sess
    else Project.slot_set s 1 None ;; ret residuals
  else
    Project.slot_set s 0 None ;;
    Project.slot_set s 1 None ;;
    ret args.

Definition dataclass_block (s : addr) (args : list string) (idx : Z)
    (residuals : list string) : M (list string) :=
  if (idx =? 0)%Z then
    dtyp <- Project.dtypes_ s ;;
    residuals <-
      (if truthy_list dtyp then
         dtyp <- Project.dtypes_ s ;;
         Project.match_level s 2 args residuals dtyp
       else Project.slot_set s 2 None ;; ret residuals) ;;
    Project.slot_set s 3 None ;;
    ret residuals
  else if (idx =? 1)%Z then
    pipe <- Project.pipelines_ s ;;
    residuals <-
      (if truthy_list pipe then
         pipe <- Project.pipelines_ s ;;
         Project.match_level s 2 args residuals pipe
       else Project.slot_set s 2 None ;; ret residuals) ;;
    step <- Project.steps_ s ;;
    if truthy_list step then
      step <- Project.steps_ s ;;
      Project.match_level s 3 args residuals step
    else Project.slot_set s 3 None ;; ret residuals
  else
    pipe <- Project.pipelines_ s ;;
    residuals <-
      (if truthy_list pipe then
         pipe <- Project.pipelines_ s ;;
         Project.match_level s 2 args residuals pipe
       else Project.slot_set s 2 None ;; ret residuals) ;;
    rslt <- Project.results_ s ;;
    if truthy_list rslt then
      rslt <- Project.results_ s ;;
      Project.match_level s 3 args residuals rslt
    else Project.slot_set s 3 None ;; ret residuals.

Lemma set_filters_args_blocks s args :
  Project.set_filters_args s args
  = (subj <- Project.subjects_ s ;;
     residuals <- subject_block s args subj ;;
     idx <- getattr s "_Project__dc_idx" dc_idx ;;
     residuals <- dataclass_block s args idx residuals ;;
     if negb (length residuals =? 0)
     then SystemMethods.raiseerror InputValueError (MsgWrongFilterInput args)
     else ret ()).
Proof. reflexivity. Qed.

Lemma truthy_list_Some {A} (v : pylist A) :
  truthy_list v = true → ∃ V, v = Some V.
Proof. destruct v as [[|]|]; by eauto. Qed.

Lemma subject_block_run w s p args v0 v1 :
  filter_state w s p (replicate 6 None) → args ≠ [] →
  subjects p = Some v0 → sessions p = Some v1 →
  (truthy_list v0 = true → single_session p = false → v1 ≠ None) →
  ∃ w', subject_block s args v0 w
        = (Ok (List.filter (λ a, unmatched_at p 0 a && unmatched_at p 1 a) args), w')
        ∧ filter_state w' s p
            [planned p args 0; planned p args 1; None; None; None; None]
        ∧ root w' = root w.
Proof.
  intros Hst Hargs H0 H1 Hsess.
  unfold subject_block, Project.subjects_, Project.sessions_.
  unfold planned, unmatched_at, level_vocab. rewrite H0, H1. cbn [default].
  destruct v0 as [[|x0 V0]|]; cbn [truthy_list andb].
  2:{ rewrite (bind_getattr_opt _ _ _ _ _ _ _ (proj1 Hst) H0).
      destruct (match_level_run (λ _, true) w s p _ 0 None args (x0 :: V0)
                  Hst eq_refl eq_refl Hargs) as (wa & Hrun & Hsta & Hroota).
      rewrite filter_true in Hrun. rewrite (bind_ok _ _ _ _ _ Hrun).
      rewrite (bind_getattr _ _ _ _ _ _ (proj1 Hsta)).
      destruct (single_session p) eqn:Hsingle; cbn [negb andb].
      - destruct (slot_set_run wa s p _ 1 None None Hsta)
          as (wb & Hrunb & Hstb & Hrootb); [simpl; lia|done|].
        rewrite (bind_ok _ _ _ _ _ Hrunb). exists wb. split; [|split].
        + unfold ret. f_equal. f_equal. apply filter_ext. intros a.
          cbn [fmap option_fmap option_map]. by rewrite andb_true_r.
        + exact Hstb.
        + congruence.
      - destruct v1 as [V1|]; [|by destruct Hsess].
        rewrite (bind_getattr_opt _ _ _ _ _ _ _ (proj1 Hsta) H1).
        destruct (match_level_run (λ a, negb (in_vocab (x0 :: V0) a))
                    wa s p _ 1 None args V1 Hsta eq_refl eq_refl Hargs)
          as (wb & Hrunb & Hstb & Hrootb).
        exists wb. split; [|split].
        + rewrite Hrunb. done.
        + exact Hstb.
        + congruence. }
  all: destruct (slot_set_run w s p _ 0 None None Hst)
         as (wa & Hrun & Hsta & Hroota); [simpl; lia|done|];
       rewrite (bind_ok _ _ _ _ _ Hrun);
       destruct (slot_set_run wa s p _ 1 None None Hsta)
         as (wb & Hrunb & Hstb & Hrootb); [simpl; lia|done|];
       rewrite (bind_ok _ _ _ _ _ Hrunb); exists wb; split; [|split];
       [ unfold ret; f_equal; f_equal; by rewrite filter_true
       | exact Hstb
       | congruence ].
Qed.

(** One guarded level: [if self.<v>: ... check_arguments ... else:
    self.__filters[i] = None]. *)
Lemma level_run (q : string → bool) w s p fv i name
    (f : ProjectObj → option vocab) v args :
  filter_state w s p fv → fv !! i = Some None → args ≠ [] → f p = Some v →
  ∃ w', (if truthy_list v
         then x <- getattr_opt s name f ;;
              Project.match_level s i args (List.filter q args) x
         else Project.slot_set s i None ;; ret (List.filter q args)) w
        = (Ok (List.filter
                 (λ a, q a && match (if truthy_list v then v else None) with
                              | Some V => negb (in_vocab V a)
                              | None => true
                              end) args), w')
        ∧ filter_state w' s p
            (<[i := (λ V, List.filter (in_vocab V) args)
                    <$> (if truthy_list v then v else None)]> fv)
        ∧ root w' = root w.
Proof.
  intros Hst Hi Hargs Hf. destruct v as [[|x V]|]; cbn [truthy_list].
  2:{ rewrite (bind_getattr_opt _ _ _ _ _ _ _ (proj1 Hst) Hf).
      by apply match_level_run with (v := None). }
  all: destruct (slot_set_run w s p fv i None None Hst)
         as (w' & Hrun & Hst' & Hroot); [by eapply lookup_lt_Some|done|];
       rewrite (bind_ok _ _ _ _ _ Hrun); exists w'; split; [|by split];
       unfold ret; f_equal; f_equal; apply filter_ext; intros a;
       by rewrite andb_true_r.
Qed.

Lemma dataclass_block_run (q : string → bool) w s p args f0 f1 v2 v3 v4 v5 :
  filter_state w s p [f0; f1; None; None; None; None] → args ≠ [] →
  dtypes p = Some v2 → pipelines p = Some v3 →
  steps p = Some v4 → results p = Some v5 →
  ∃ w', dataclass_block s args (dc_idx p) (List.filter q args) w
        = (Ok (List.filter
                 (λ a, q a && unmatched_at p 2 a && unmatched_at p 3 a) args), w')
        ∧ filter_state w' s p
            [f0; f1; planned p args 2; planned p args 3; None; None]
        ∧ root w' = root w.
Proof.
  intros Hst Hargs H2 H3 H4 H5.
  unfold dataclass_block, Project.dtypes_, Project.pipelines_,
    Project.steps_, Project.results_.
  unfold planned, unmatched_at, level_vocab. rewrite H2, H3, H4, H5.
  cbn [default].
  destruct (dc_idx p =? 0)%Z eqn:Hdc0; [|destruct (dc_idx p =? 1)%Z eqn:Hdc1].
  - rewrite (bind_getattr_opt _ _ _ _ _ _ _ (proj1 Hst) H2).
    destruct (level_run q w s p _ 2 "_Project__dtypes" dtypes v2 args
                Hst eq_refl Hargs H2) as (wa & Hrun & Hsta & Hroota).
    rewrite (bind_ok _ _ _ _ _ Hrun).
    destruct (slot_set_run wa s p _ 3 None None Hsta)
      as (wb & Hrunb & Hstb & Hrootb); [simpl; lia|done|].
    rewrite (bind_ok _ _ _ _ _ Hrunb). exists wb. split; [|split].
    + unfold ret. f_equal. f_equal. apply filter_ext. intros a.
      by rewrite andb_true_r.
    + exact Hstb.
    + congruence.
  - rewrite (bind_getattr_opt _ _ _ _ _ _ _ (proj1 Hst) H3).
    destruct (level_run q w s p _ 2 "_Project__pipelines" pipelines v3 args
                Hst eq_refl Hargs H3) as (wa & Hrun & Hsta & Hroota).
    rewrite (bind_ok _ _ _ _ _ Hrun).
    rewrite (bind_getattr_opt _ _ _ _ _ _ _ (proj1 Hsta) H4).
    destruct (level_run
                (λ a, q a && match (if truthy_list v3 then v3 else None) with
                             | Some V => negb (in_vocab V a)
                             | None => true
                             end)
                wa s p _ 3 "_Project__steps" steps v4 args
                Hsta eq_refl Hargs H4) as (wb & Hrunb & Hstb & Hrootb).
    exists wb. split; [exact Hrunb|]. split; [exact Hstb|congruence].
  - rewrite (bind_getattr_opt _ _ _ _ _ _ _ (proj1 Hst) H3).
    destruct (level_run q w s p _ 2 "_Project__pipelines" pipelines v3 args
                Hst eq_refl Hargs H3) as (wa & Hrun & Hsta & Hroota).
    rewrite (bind_ok _ _ _ _ _ Hrun).
    rewrite (bind_getattr_opt _ _ _ _ _ _ _ (proj1 Hsta) H5).
    destruct (level_run
                (λ a, q a && match (if truthy_list v3 then v3 else None) with
                             | Some V => negb (in_vocab V a)
                             | None => true
                             end)
                wa s p _ 3 "_Project__results" results v5 args
                Hsta eq_refl Hargs H5) as (wb & Hrunb & Hstb & Hrootb).
    exists wb. split; [exact Hrunb|]. split; [exact Hstb|congruence].
Qed.

(** The positional arguments on fresh slots: every level receives the
    arguments found in its vocabulary, and the call exits when an argument
    was found in none. *)
Lemma set_filters_args_run w s p args :
  filter_state w s p (replicate 6 None) → vocabularies_set p → args ≠ [] →
  ∃ w', Project.set_filters_args s args w
        = (if length (List.filter (unmatched p) args) =? 0 then Ok ()
           else SysExit InputValueError (MsgWrongFilterInput args), w')
        ∧ filter_state w' s p
            [planned p args 0; planned p args 1; planned p args 2;
             planned p args 3; None; None]
        ∧ root w' = root w.
Proof.
  intros Hst (v0 & v1 & v2 & v3 & v4 & v5 & H0 & H1 & H2 & H3 & H4 & H5 & Hsess)
    Hargs.
  rewrite set_filters_args_blocks. unfold Project.subjects_.
  rewrite (bind_getattr_opt _ _ _ _ _ _ _ (proj1 Hst) H0).
  destruct (subject_block_run w s p args v0 v1 Hst Hargs H0 H1 Hsess)
    as (wa & Hrun & Hsta & Hroota).
  rewrite (bind_ok _ _ _ _ _ Hrun).
  rewrite (bind_getattr _ _ _ _ _ _ (proj1 Hsta)).
  destruct (dataclass_block_run
              (λ a, unmatched_at p 0 a && unmatched_at p 1 a)
              wa s p args _ _ v2 v3 v4 v5 Hsta Hargs H2 H3 H4 H5)
    as (wb & Hrunb & Hstb & Hrootb).
  rewrite (bind_ok _ _ _ _ _ Hrunb).
  exists wb. split; [|split; [exact Hstb|congruence]].
  fold (unmatched p).
  change (λ a, unmatched_at p 0 a && unmatched_at p 1 a
               && unmatched_at p 2 a && unmatched_at p 3 a) with (unmatched p).
  by destruct (length (List.filter (unmatched p) args) =? 0).
Qed.

Lemma unmatched_spec p a :
  unmatched p a = true ↔ ∀ i V, level_vocab p i = Some V → Some a ∉ V.
Proof.
  unfold unmatched, unmatched_at, in_vocab. split.
  - intros Hu i V Hi.
    repeat (apply andb_prop in Hu as [Hu ?]).
    do 4 (destruct i as [|i];
          [rewrite Hi in *; intros Hin;
           rewrite (bool_decide_true _ Hin) in *; done|]).
    done.
  - intros Hall. repeat (apply andb_true_intro; split).
    all: match goal with
         | |- context [level_vocab ?p' ?i] =>
             destruct (level_vocab p' i) as [V|] eqn:Hi; [|done];
             rewrite negb_true_iff, bool_decide_eq_false; by eapply Hall
         end.
Qed.

(** ** Applying the slots *)

(** [d'] has the columns of [d] and some of its rows. *)
Definition narrowing (d d' : DataFrame) : Prop :=
  columns d' = columns d ∧ ∃ f, rows d' = List.filter f (rows d).

Lemma narrowing_refl d : narrowing d d.
Proof. split; [done|]. exists (λ _, true). by rewrite filter_true. Qed.

Lemma narrowing_trans d1 d2 d3 :
  narrowing d1 d2 → narrowing d2 d3 → narrowing d1 d3.
Proof.
  intros (Hc1 & f & Hf) (Hc2 & g & Hg). split; [congruence|].
  exists (λ r, f r && g r). by rewrite Hg, Hf, filter_filter_and.
Qed.

Lemma narrow_isin_run col vals d :
  Name col ∈ columns d →
  ∃ d', narrow_isin col vals d = Ok d' ∧ narrowing d d'.
Proof.
  intros Hcol. unfold narrow_isin. rewrite decide_True by done.
  eexists. split; [done|]. split; [done|]. by eexists.
Qed.

Lemma stage_isin (b : bool) col vals d w :
  (b = true → Name col ∈ columns d) →
  ∃ d', (if b then lift (narrow_isin col vals d) else ret d) w = (Ok d', w)
        ∧ narrowing d d'.
Proof.
  intros Hcol. destruct b.
  - destruct (narrow_isin_run col vals d) as (d' & Hrun & Hn); [by apply Hcol|].
    exists d'. unfold lift. by rewrite Hrun.
  - exists d. split; [done|apply narrowing_refl].
Qed.

Lemma stage_slot2 s w p (b : bool) vals d :
  points_to w s p →
  (b = true →
   Name (if (dc_idx p =? 0)%Z then "DataType" else "Pipeline") ∈ columns d) →
  ∃ d', (if b then
           idx <- getattr s "_Project__dc_idx" dc_idx ;;
           if (idx =? 0)%Z
           then lift (narrow_isin "DataType" vals d)
           else lift (narrow_isin "Pipeline" vals d)
         else ret d) w = (Ok d', w)
        ∧ narrowing d d'.
Proof.
  intros Hs Hcol. destruct b.
  - rewrite (bind_getattr _ _ _ _ _ _ Hs). specialize (Hcol eq_refl).
    destruct (dc_idx p =? 0)%Z;
      destruct (narrow_isin_run _ vals d Hcol) as (d' & Hrun & Hn);
      exists d'; unfold lift; by rewrite Hrun.
  - exists d. split; [done|apply narrowing_refl].
Qed.

Lemma stage_slot3 s w p (b : bool) vals d :
  points_to w s p →
  (b = true → (dc_idx p =? 1)%Z = true → Name "Step" ∈ columns d) →
  (b = true → (dc_idx p =? 1)%Z = false → (dc_idx p =? 2)%Z = true →
   Name "Result" ∈ columns d) →
  ∃ d', (if b then
           idx <- getattr s "_Project__dc_idx" dc_idx ;;
           if (idx =? 1)%Z
           then lift (narrow_isin "Step" vals d)
           else if (idx =? 2)%Z
           then lift (narrow_isin "Result" vals d)
           else ret d
         else ret d) w = (Ok d', w)
        ∧ narrowing d d'.
Proof.
  intros Hs Hstep Hres. destruct b.
  - rewrite (bind_getattr _ _ _ _ _ _ Hs).
    destruct (dc_idx p =? 1)%Z; [|destruct (dc_idx p =? 2)%Z].
    + destruct (narrow_isin_run "Step" vals d) as (d' & Hrun & Hn); [by apply Hstep|].
      exists d'. unfold lift. by rewrite Hrun.
    + destruct (narrow_isin_run "Result" vals d) as (d' & Hrun & Hn); [by apply Hres|].
      exists d'. unfold lift. by rewrite Hrun.
    + exists d. split; [done|apply narrowing_refl].
  - exists d. split; [done|apply narrowing_refl].
Qed.

(** With no file tag in slots 4 and 5, applying the slots returns when
    the table has the columns of the slots that hold values. *)
Lemma applying_filters_ok `{RegexEngine} w s p f0 f1 f2 f3 d :
  filter_state w s p [f0; f1; f2; f3; None; None] →
  (length (rows d) ≠ 0 →
   (truthy_list f0 = true → Name "Subject" ∈ columns d)
   ∧ (truthy_list f1 = true → Name "Session" ∈ columns d)
   ∧ (truthy_list f2 = true →
      Name (if (dc_idx p =? 0)%Z then "DataType" else "Pipeline") ∈ columns d)
   ∧ (truthy_list f3 = true → (dc_idx p =? 1)%Z = true →
      Name "Step" ∈ columns d)
   ∧ (truthy_list f3 = true → (dc_idx p =? 1)%Z = false →
      (dc_idx p =? 2)%Z = true → Name "Result" ∈ columns d)) →
  ∃ d', Project.applying_filters s d w = (Ok d', w) ∧ narrowing d d'.
Proof.
  intros Hst Hcols. unfold Project.applying_filters.
  destruct (length (rows d) =? 0) eqn:Hlen; cbn [negb].
  { exists d. split; [done|apply narrowing_refl]. }
  apply Nat.eqb_neq in Hlen.
  destruct (Hcols Hlen) as (H0 & H1 & H2 & H3 & H4). clear Hcols.
  rewrite (bind_ok _ _ _ _ _ (slot_value_run w s p _ 0 f0 Hst eq_refl)).
  destruct (stage_isin (truthy_list f0) "Subject" (default [] f0) d w H0)
    as (d0 & Hrun0 & Hn0 & g0 & Hg0).
  rewrite (bind_ok _ _ _ _ _ Hrun0). rewrite <-Hn0 in H1, H2, H3, H4.
  rewrite (bind_ok _ _ _ _ _ (slot_value_run w s p _ 1 f1 Hst eq_refl)).
  destruct (stage_isin (truthy_list f1) "Session" (default [] f1) d0 w H1)
    as (d1 & Hrun1 & Hn1 & g1 & Hg1).
  rewrite (bind_ok _ _ _ _ _ Hrun1). rewrite <-Hn1 in H2, H3, H4.
  rewrite (bind_ok _ _ _ _ _ (slot_value_run w s p _ 2 f2 Hst eq_refl)).
  destruct (stage_slot2 s w p (truthy_list f2) (default [] f2) d1 (proj1 Hst) H2)
    as (d2 & Hrun2 & Hn2 & g2 & Hg2).
  rewrite (bind_ok _ _ _ _ _ Hrun2). rewrite <-Hn2 in H3, H4.
  rewrite (bind_ok _ _ _ _ _ (slot_value_run w s p _ 3 f3 Hst eq_refl)).
  destruct (stage_slot3 s w p (truthy_list f3) (default [] f3) d2 (proj1 Hst) H3 H4)
    as (d3 & Hrun3 & Hn3 & g3 & Hg3).
  rewrite (bind_ok _ _ _ _ _ Hrun3).
  rewrite (bind_ok _ _ _ _ _ (slot_value_run w s p _ 4 None Hst eq_refl)).
  rewrite bind_ret.
  rewrite (bind_ok _ _ _ _ _ (slot_value_run w s p _ 5 None Hst eq_refl)).
  rewrite bind_ret.
  exists d3. split; [done|].
  repeat (eapply narrowing_trans; [|split; [eassumption|eexists; eassumption]]).
  apply narrowing_refl.
Qed.

(** ** [set_filters] with positional arguments only *)

Lemma bind_exit {A B} (m : M A) (k : A → M B) w c msg w' :
  m w = (SysExit c msg, w') → bind m k w = (SysExit c msg, w').
Proof. unfold bind. by intros ->. Qed.

(** The state in which [set_filters] reads the positional arguments. *)
Lemma reset_filters_state `{RegexEngine} s ext w0 w p :
  Project.reset_filters s ext w0 = (Ok (), w) → points_to w s p →
  (0 ≤ dc_idx p < 3)%Z →
  filter_state w s p (replicate 6 None) ∧ vocabularies_set p ∧ update_ready p.
Proof.
  intros Hreset Hs Hdc.
  split; [by eapply reset_filters_fresh|].
  destruct (reset_filters_updated _ _ _ _ _ Hreset Hs) as (q & -> & Hready).
  destruct (updated_core q) as (Hdf & Hsingle & Hidx & _).
  split; [apply updated_vocabularies_set; by rewrite <-Hidx|].
  unfold update_ready, needs_columns in *. by rewrite Hdf, Hsingle, Hidx.
Qed.

Lemma truthy_planned p args i :
  truthy_list (planned p args i) = true → is_Some (level_vocab p i).
Proof. unfold planned. by destruct (level_vocab p i). Qed.

(** A slot that received arguments names a column the table has. *)
Lemma planned_columns p args :
  (0 ≤ dc_idx p < 3)%Z →
  (∀ c, c ∈ needs_columns p → Name c ∈ columns (df p)) →
  (truthy_list (planned p args 0) = true → Name "Subject" ∈ columns (df p))
  ∧ (truthy_list (planned p args 1) = true → Name "Session" ∈ columns (df p))
  ∧ (truthy_list (planned p args 2) = true →
     Name (if (dc_idx p =? 0)%Z then "DataType" else "Pipeline")
     ∈ columns (df p))
  ∧ (truthy_list (planned p args 3) = true → (dc_idx p =? 1)%Z = true →
     Name "Step" ∈ columns (df p))
  ∧ (truthy_list (planned p args 3) = true → (dc_idx p =? 1)%Z = false →
     (dc_idx p =? 2)%Z = true → Name "Result" ∈ columns (df p)).
Proof.
  intros Hdc Hcols. unfold needs_columns in Hcols.
  repeat split.
  - intros _. apply Hcols. by left.
  - intros [V HV]%truthy_planned. apply Hcols.
    unfold level_vocab in HV. destruct (single_session p).
    + by rewrite andb_false_r in HV.
    + right. by left.
  - intros _. apply Hcols.
    destruct (dc_idx p =? 0)%Z eqn:H0;
      [|destruct (dc_idx p =? 1)%Z eqn:H1;
         [|destruct (dc_idx p =? 2)%Z eqn:H2; [|lia]]];
      destruct (single_session p); compute_done.
  - intros _ H1. apply Hcols. rewrite H1.
    destruct (dc_idx p =? 0)%Z eqn:H0; [lia|].
    destruct (single_session p); compute_done.
  - intros _ H1 H2. apply Hcols. rewrite H1, H2.
    destruct (dc_idx p =? 0)%Z eqn:H0; [lia|].
    destruct (single_session p); compute_done.
Qed.

Lemma planned_lookup p args i V :
  level_vocab p i = Some V →
  [planned p args 0; planned p args 1; planned p args 2; planned p args 3;
   None; None] !! i = Some (Some (List.filter (in_vocab V) args)).
Proof.
  intros Hi. do 4 (destruct i as [|i]; [unfold planned; by rewrite Hi|]).
  done.
Qed.

Lemma length_filter_zero {A} (f : A → bool) l :
  (length (List.filter f l) =? 0) = true ↔ ∀ a, a ∈ l → f a = false.
Proof.
  rewrite Nat.eqb_eq, length_zero_iff_nil. split.
  - intros Hnil a Ha. destruct (f a) eqn:Hf; [|done].
    assert (a ∈ List.filter f l) as Hin by (by apply elem_of_List_filter).
    rewrite Hnil in Hin. by apply elem_of_nil in Hin.
  - intros Hall. destruct (List.filter f l) as [|a l'] eqn:Hl; [done|].
    assert (a ∈ List.filter f l) as Hin by (rewrite Hl; left).
    apply elem_of_List_filter in Hin as [Hin Hf].
    rewrite (Hall a Hin) in Hf. done.
Qed.

(** C3 (amended). A call of [set_filters] without keyword arguments in
    which some positional token is found in none of the vocabularies
    consulted (subjects; sessions of a multi-session project; data types
    or pipelines; steps or results) raises no exception a caller could
    handle: it ends in [sys.exit], after [raiseerror] wrote the text of an
    [InputValueError] to the standard error stream.  The text holds the
    whole tuple of positional arguments, the matched ones included, and
    the project keeps the table and the vocabularies that the
    [reset_filters] at the head of the call gave it. *)
Theorem set_filters_unmatched_exits `{RegexEngine}
    (s : addr) (args : list string) (t : string) (w0 w : world)
    (p0 p : ProjectObj) :
  points_to w0 s p0 →
  Project.reset_filters s (Project.pyval_of_list (ext_filter p0)) w0
  = (Ok (), w) →
  points_to w s p →
  (0 ≤ dc_idx p < 3)%Z →
  t ∈ args →
  (∀ i V, level_vocab p i = Some V → Some t ∉ V) →
  ∃ w', Project.set_filters s args [] w0
        = (SysExit InputValueError (MsgWrongFilterInput args), w')
        ∧ points_to w' s p.
Proof.
  intros Hs0 Hreset Hs Hdc Ht Hnone.
  destruct (reset_filters_state _ _ _ _ _ Hreset Hs Hdc) as (Hst & Hvoc & _).
  assert (args ≠ []) as Hargs by (intros ->; by apply elem_of_nil in Ht).
  destruct (set_filters_args_run w s p args Hst Hvoc Hargs)
    as (wa & Hrun & Hsta & _).
  destruct (length (List.filter (unmatched p) args) =? 0) eqn:Hlen.
  { apply length_filter_zero with (a := t) in Hlen; [|done].
    apply unmatched_spec in Hnone. congruence. }
  exists wa. split; [|exact (proj1 Hsta)].
  unfold Project.set_filters, Project.ext_.
  rewrite !bind_assoc, (bind_getattr _ _ _ _ _ _ Hs0).
  rewrite (bind_ok _ _ _ _ _ Hreset).
  destruct args as [|a args']; [done|].
  by apply bind_exit.
Qed.

Lemma set_filters_unmatched_exits_witness :
  ∃ w', @Project.set_filters Scenario.engine Scenario.prj ["Z"] [] Scenario.w_AB
        = (SysExit InputValueError (MsgWrongFilterInput ["Z"]), w').
Proof.
  destruct (Scenario.project_at Scenario.w_AB Scenario.prj) as [p0|] eqn:Hp0;
    [|by vm_compute in Hp0].
  pose (w := (@Project.reset_filters Scenario.engine Scenario.prj
                (Project.pyval_of_list (ext_filter p0)) Scenario.w_AB).2).
  destruct (Scenario.project_at w Scenario.prj) as [p|] eqn:Hp;
    [|subst w; vm_compute in Hp0; injection Hp0 as <-; by vm_compute in Hp].
  destruct (@set_filters_unmatched_exits Scenario.engine Scenario.prj ["Z"] "Z"
              Scenario.w_AB w p0 p) as (w' & Hrun & _).
  - by apply project_at_points_to.
  - subst w. vm_compute in Hp0. injection Hp0 as <-. by vm_compute.
  - by apply project_at_points_to.
  - subst w. vm_compute in Hp0. injection Hp0 as <-.
    vm_compute in Hp. injection Hp as <-. done.
  - by left.
  - subst w. vm_compute in Hp0. injection Hp0 as <-.
    vm_compute in Hp. injection Hp as <-.
    intros i V Hi.
    do 4 (destruct i as [|i];
          [vm_compute in Hi; first [done|injection Hi as <-; compute_done]|]).
    done.
  - by exists w'.
Defined.

(** C3, as stated, fails on the project with the subjects [A] and [B]:
    the token [Z] ends the call in [sys.exit], not in an exception. *)
Lemma set_filters_unknown_token_exits :
  let o := (@Project.set_filters Scenario.engine Scenario.prj ["Z"] []
              Scenario.w_AB).1 in
  terminates_process o = true ∧ ∀ e, o ≠ Raise e.
Proof. by vm_compute. Qed.

(** On the same project the token [A] is accepted and narrows the table
    to the files of subject [A]. *)
Example set_filters_subject_A :
  let r := @Project.set_filters Scenario.engine Scenario.prj ["A"] []
             Scenario.w_AB in
  r.1 = Ok ()
  ∧ Scenario.filenames_at r.2 Scenario.prj = Some ["a.nii"; "a_mask.nii"]
  ∧ (Project.slot_value Scenario.prj 0 r.2).1 = Ok (Some ["A"]).
Proof. by vm_compute. Qed.

(** C10. In a call of [set_filters] with positional tokens only, every
    vocabulary consulted is matched against the whole tuple of arguments:
    when each token occurs in some consulted vocabulary the call returns,
    and the slot of each level holds exactly the arguments found in the
    vocabulary of that level, in the order of the call; a token found in
    several vocabularies is thus in the slot of each of them, whether or
    not an earlier level had taken it off the residuals. *)
Theorem set_filters_matches_every_level `{RegexEngine}
    (s : addr) (args : list string) (w0 w : world) (p0 p : ProjectObj) :
  points_to w0 s p0 →
  Project.reset_filters s (Project.pyval_of_list (ext_filter p0)) w0
  = (Ok (), w) →
  points_to w s p →
  (0 ≤ dc_idx p < 3)%Z →
  args ≠ [] →
  (∀ a, a ∈ args → ∃ i V, level_vocab p i = Some V ∧ Some a ∈ V) →
  ∃ w', Project.set_filters s args [] w0 = (Ok (), w')
        ∧ ∀ i V, level_vocab p i = Some V →
            Project.slot_value s i w'
            = (Ok (Some (List.filter (in_vocab V) args)), w').
Proof.
  intros Hs0 Hreset Hs Hdc Hargs Hall.
  destruct (reset_filters_state _ _ _ _ _ Hreset Hs Hdc) as (Hst & Hvoc & Hready).
  destruct (set_filters_args_run w s p args Hst Hvoc Hargs)
    as (wa & Hrun & Hsta & _).
  assert ((length (List.filter (unmatched p) args) =? 0) = true) as Hlen.
  { apply length_filter_zero. intros a Ha.
    destruct (unmatched p a) eqn:Hu; [|done].
    destruct (Hall a Ha) as (i & V & Hi & Hin).
    by destruct (proj1 (unmatched_spec p a) Hu i V Hi). }
  rewrite Hlen in Hrun.
  destruct (applying_filters_ok wa s p _ _ _ _ (df p) Hsta) as (d' & Happ & Hn).
  { intros Hrows. by apply planned_columns, Hready. }
  assert (update_ready (with_df d' p)) as Hready'.
  { intros Hrows c Hc. destruct Hn as (Hcols & f & Hf).
    cbn [df with_df] in *. rewrite Hcols. apply Hready; [|exact Hc].
    intros Hzero. apply Hrows. rewrite Hf.
    apply length_zero_iff_nil in Hzero. by rewrite Hzero. }
  eexists. split.
  - unfold Project.set_filters, Project.ext_.
    rewrite !bind_assoc, (bind_getattr _ _ _ _ _ _ Hs0).
    rewrite (bind_ok _ _ _ _ _ Hreset).
    destruct args as [|a args']; [done|].
    rewrite (bind_ok _ _ _ _ _ Hrun).
    rewrite (bind_getattr _ _ _ _ _ _ (proj1 Hsta)).
    rewrite (bind_ok _ _ _ _ _ Happ).
    rewrite (bind_setattr _ _ _ _ _ _ (proj1 Hsta)).
    apply update_run; [by eapply points_to_upd, (proj1 Hsta)|exact Hready'].
  - intros i V Hi. eapply slot_value_run; [|by apply planned_lookup].
    rewrite upd_world_twice.
    apply (filter_state_upd wa s p _ (λ p, updated (with_df d' p))); [|done].
    intros p1. by destruct (updated_core (with_df d' p1)) as (_ & _ & _ & ->).
Qed.

Lemma set_filters_matches_every_level_witness :
  ∃ w', @Project.set_filters Scenario.engine Scenario.prj ["func"] []
          Scenario.w_func = (Ok (), w')
        ∧ Project.slot_value Scenario.prj 0 w' = (Ok (Some ["func"]), w')
        ∧ Project.slot_value Scenario.prj 2 w' = (Ok (Some ["func"]), w').
Proof.
  destruct (Scenario.project_at Scenario.w_func Scenario.prj) as [p0|] eqn:Hp0;
    [|by vm_compute in Hp0].
  pose (w := (@Project.reset_filters Scenario.engine Scenario.prj
                (Project.pyval_of_list (ext_filter p0)) Scenario.w_func).2).
  destruct (Scenario.project_at w Scenario.prj) as [p|] eqn:Hp;
    [|subst w; vm_compute in Hp0; injection Hp0 as <-; by vm_compute in Hp].
  assert (dc_idx p = 0%Z
          ∧ level_vocab p 0 = Some [Some "A"; Some "func"]
          ∧ level_vocab p 2 = Some [Some "anat"; Some "func"])
    as (Hidx & Hsubj & Hdtyp).
  { subst w. vm_compute in Hp0. injection Hp0 as <-.
    vm_compute in Hp. injection Hp as <-. by vm_compute. }
  destruct (@set_filters_matches_every_level Scenario.engine Scenario.prj
              ["func"] Scenario.w_func w p0 p) as (w' & Hrun & Hslots).
  - by apply project_at_points_to.
  - subst w. vm_compute in Hp0. injection Hp0 as <-. by vm_compute.
  - by apply project_at_points_to.
  - rewrite Hidx. lia.
  - done.
  - intros a ->%list_elem_of_singleton. exists 0, [Some "A"; Some "func"].
    split; [exact Hsubj|compute_done].
  - exists w'. split; [exact Hrun|].
    split; [exact (Hslots 0 _ Hsubj)|exact (Hslots 2 _ Hdtyp)].
Defined.

(** The same call by computation: [func] is in the subject slot and in
    the data-type slot, and the table keeps the one file that is of
    subject [func] and of data type [func]. *)
Example set_filters_func_both_levels :
  let r := @Project.set_filters Scenario.engine Scenario.prj ["func"] []
             Scenario.w_func in
  r.1 = Ok ()
  ∧ (Project.slot_value Scenario.prj 0 r.2).1 = Ok (Some ["func"])
  ∧ (Project.slot_value Scenario.prj 2 r.2).1 = Ok (Some ["func"])
  ∧ Scenario.filenames_at r.2 Scenario.prj = Some ["f.nii"].
Proof. by vm_compute. Qed.

(** ** Further properties of the project index *)

Lemma updated_idem p : updated (updated p) = updated p.
Proof.
  destruct (updated_core p) as (Hdf & Hsingle & Hidx & _).
  unfold updated at 1. rewrite Hdf, Hsingle, Hidx.
  unfold col_vocab. rewrite Hdf. unfold updated, all_none.
  destruct (length (rows (df p)) =? 0); [done|].
  by destruct (dc_idx p =? 0)%Z, (dc_idx p =? 1)%Z, (dc_idx p =? 2)%Z.
Qed.

Lemma updated_ready p : update_ready p → update_ready (updated p).
Proof.
  destruct (updated_core p) as (Hdf & Hsingle & Hidx & _).
  unfold update_ready, needs_columns. by rewrite Hdf, Hsingle, Hidx.
Qed.

(** X1. [__update] twice in a row is [__update] once: the vocabularies are a
    function of the table, the data class and the session flag, none of
    which [__update] assigns. *)
Theorem update_idempotent `{RegexEngine} (s : addr) (w : world) :
  (Project.__update s ;; Project.__update s) w = Project.__update s w.
Proof.
  destruct (Project.__update s w) as [[[]|e|c msg] w'] eqn:Hrun;
    unfold bind; rewrite Hrun; [|done..].
  destruct (update_ok_points_to _ _ _ _ Hrun) as (p & Hs).
  pose proof (update_ok_ready _ _ _ _ _ Hs Hrun) as Hready.
  rewrite (update_run _ _ _ Hs Hready) in Hrun. simplify_eq.
  rewrite (update_run _ _ (updated p)); [|by eapply points_to_upd|by apply updated_ready].
  by rewrite upd_world_twice, updated_idem.
Qed.

Lemma with_df_same p : with_df (df p) p = p.
Proof. by destruct p. Qed.

(** With [None] in all six slots the filters keep every row. *)
Lemma applying_filters_fresh `{RegexEngine} w s p d :
  filter_state w s p (replicate 6 None) →
  Project.applying_filters s d w = (Ok d, w).
Proof.
  intros Hst. unfold Project.applying_filters.
  destruct (negb (length (rows d) =? 0)); [|done].
  do 4 (erewrite bind_ok; [|by eapply slot_value_run]; cbv beta;
        cbn [truthy_list]; rewrite bind_ret).
  do 2 (erewrite bind_ok; [|by eapply slot_value_run]; cbv beta iota;
        rewrite bind_ret).
  done.
Qed.

Lemma reset_filters_ok_points_to `{RegexEngine} s ext w w' :
  Project.reset_filters s ext w = (Ok (), w') → ∃ p', points_to w' s p'.
Proof.
  unfold Project.reset_filters. intros Hreset.
  do 4 (apply bind_inv_ok in Hreset as (? & ? & _ & Hreset)).
  by eapply update_ok_points_to_after.
Qed.

(** X2. After [reset_filters] has returned, applying the filters to a table,
    whichever, returns that table. *)
Theorem reset_filters_selects_all `{RegexEngine}
    (s : addr) (ext : pyval) (w0 w : world) (d : DataFrame) :
  Project.reset_filters s ext w0 = (Ok (), w) →
  Project.applying_filters s d w = (Ok d, w).
Proof.
  intros Hreset.
  destruct (reset_filters_ok_points_to _ _ _ _ Hreset) as (p & Hs).
  eapply applying_filters_fresh, reset_filters_fresh; done.
Qed.

Lemma reset_filters_selects_all_witness :
  let w := (@Project.reset_filters Scenario.engine Scenario.prj VNone
              Scenario.w_AB).2 in
  @Project.applying_filters Scenario.engine Scenario.prj empty_frame w
  = (Ok empty_frame, w).
Proof.
  intros w.
  apply (@reset_filters_selects_all Scenario.engine Scenario.prj VNone
           Scenario.w_AB w empty_frame).
  by vm_compute.
Defined.

(** X3. [set_filters()] without any argument is [reset_filters(self.ext)]:
    the same outcome and the same objects, the cleared filters selecting
    the whole rescanned table. *)
Theorem set_filters_no_arguments `{RegexEngine}
    (s : addr) (w : world) (p : ProjectObj) :
  points_to w s p →
  Project.set_filters s [] [] w
  = Project.reset_filters s (Project.pyval_of_list (ext_filter p)) w.
Proof.
  intros Hs. unfold Project.set_filters, Project.ext_.
  rewrite !bind_assoc, (bind_getattr _ _ _ _ _ _ Hs).
  destruct (Project.reset_filters s _ w) as [[[]|e|c msg] w1] eqn:Hreset;
    unfold bind at 1; rewrite Hreset; [|done..].
  rewrite bind_ret.
  destruct (reset_filters_ok_points_to _ _ _ _ Hreset) as (p1 & Hs1).
  destruct (reset_filters_updated _ _ _ _ _ Hreset Hs1) as (q & -> & Hready).
  rewrite (bind_getattr _ _ _ _ _ _ Hs1).
  rewrite (bind_ok _ _ _ _ _
             (applying_filters_fresh _ _ _ _
                (reset_filters_fresh _ _ _ _ _ Hreset Hs1))).
  rewrite (bind_setattr _ _ _ _ _ _ Hs1), with_df_same.
  rewrite (upd_world_same _ _ _ Hs1).
  rewrite (update_run _ _ _ Hs1 (updated_ready _ Hready)).
  by rewrite updated_idem, (upd_world_same _ _ _ Hs1).
Qed.

Lemma set_filters_no_arguments_witness :
  @Project.set_filters Scenario.engine Scenario.prj [] [] Scenario.w_AB
  = @Project.reset_filters Scenario.engine Scenario.prj (VList Scenario.imgext)
      Scenario.w_AB.
Proof.
  assert (∃ p, points_to Scenario.w_AB Scenario.prj p
             ∧ ext_filter p = Some Scenario.imgext) as (p & Hs & Hext).
  { vm_compute. eexists. split; reflexivity. }
  pose proof (@set_filters_no_arguments Scenario.engine Scenario.prj
                Scenario.w_AB p Hs) as Heq.
  rewrite Hext in Heq. exact Heq.
Defined.

(** X4. Applying the filters reads the slots and nothing else: when it
    returns, no object has changed, the table has the columns it had and
    its rows are rows of the table given, in their order. *)
Theorem applying_filters_narrows `{RegexEngine}
    (s : addr) (d d' : DataFrame) (w w' : world) :
  Project.applying_filters s d w = (Ok d', w') →
  w' = w ∧ columns d' = columns d ∧ sublist (rows d') (rows d).
Proof.
  destruct (filter_at_body w s) as (body & (chk & f & Hbody) & Happ).
  rewrite Happ. destruct (negb (length (rows d) =? 0)).
  - rewrite Hbody. destruct (chk (columns d)) as [[]|e|c msg]; [|done..].
    simpl. intros [= <- <-]. split; [done|]. split; [done|].
    simpl. clear. induction (rows d) as [|r l IH]; simpl; [done|].
    destruct (f r); by constructor.
  - intros [= <- <-]. done.
Qed.

Lemma applying_filters_narrows_witness :
  let w := (@Project.set_filters Scenario.engine Scenario.prj ["A"] []
              Scenario.w_AB).2 in
  ∃ p0 d', Scenario.project_at Scenario.w_AB Scenario.prj = Some p0
    ∧ @Project.applying_filters Scenario.engine Scenario.prj (df p0) w
      = (Ok d', w)
    ∧ columns d' = columns (df p0) ∧ sublist (rows d') (rows (df p0)).
Proof.
  intros w.
  destruct (Scenario.project_at Scenario.w_AB Scenario.prj) as [p0|] eqn:Hp;
    [|by vm_compute in Hp].
  destruct (@Project.applying_filters Scenario.engine Scenario.prj (df p0) w)
    as [[d'|e|c msg] w'] eqn:Hrun.
  - destruct (@applying_filters_narrows Scenario.engine Scenario.prj
                (df p0) d' w w' Hrun) as (Hw & Hcols & Hsub).
    exists p0, d'. split; [reflexivity|]. rewrite Hw in Hrun.
    split; [exact Hrun|]. split; [exact Hcols|exact Hsub].
  - vm_compute in Hp. injection Hp as <-. by vm_compute in Hrun.
  - vm_compute in Hp. injection Hp as <-. by vm_compute in Hrun.
Defined.

(** ** Reading a project that holds data *)

(** X5. On a project that is not empty, [len], iteration and indexing agree:
    iteration yields the rows numbered from 0, [len] is their number, the
    index [i] below it reads row [i], and any other integer, the negative
    ones included, is a [KeyError]; none of them changes an object. *)
Theorem nonempty_project_access (s : addr) (w : world) (p : ProjectObj) :
  points_to w s p → empty_project p = false →
  Project.__iter__ s w = (Ok (imap (λ i r, (i, r)) (rows (df p))), w)
  ∧ Project.__len__ s w = (Ok (length (rows (df p))), w)
  ∧ (∀ i r, rows (df p) !! i = Some r →
       Project.__getitem__ s (Z.of_nat i) w = (Ok (Some r), w))
  ∧ (∀ index, (index < 0 ∨ Z.of_nat (length (rows (df p))) ≤ index)%Z →
       Project.__getitem__ s index w = (Raise (KeyError "index"), w)).
Proof.
  intros Hs Hempty.
  unfold Project.__iter__, Project.__len__, Project.__getitem__, Project.df_.
  rewrite !(bind_getattr _ _ _ _ _ _ Hs), Hempty.
  rewrite !(bind_getattr _ _ _ _ _ _ Hs).
  split; [done|]. split; [done|]. split.
  - intros i r Hi. rewrite (bind_getattr _ _ _ _ _ _ Hs), Hempty.
    rewrite (bind_getattr _ _ _ _ _ _ Hs).
    rewrite decide_True by lia. by rewrite Nat2Z.id, Hi.
  - intros index Hout. rewrite (bind_getattr _ _ _ _ _ _ Hs), Hempty.
    rewrite (bind_getattr _ _ _ _ _ _ Hs).
    destruct (decide (0 ≤ index)%Z) as [Hpos|]; [|done].
    rewrite (lookup_ge_None_2 (rows (df p)) (Z.to_nat index)) by lia. done.
Qed.

Lemma nonempty_project_access_witness :
  Project.__len__ Scenario.prj Scenario.w_AB = (Ok 4, Scenario.w_AB)
  ∧ Project.__getitem__ Scenario.prj 4 Scenario.w_AB
    = (Raise (KeyError "index"), Scenario.w_AB)
  ∧ Project.__getitem__ Scenario.prj (-1) Scenario.w_AB
    = (Raise (KeyError "index"), Scenario.w_AB).
Proof.
  assert (∃ p, points_to Scenario.w_AB Scenario.prj p
             ∧ empty_project p = false ∧ length (rows (df p)) = 4)
    as (p & Hs & Hempty & Hlen).
  { vm_compute. eexists. split; [reflexivity|]. split; reflexivity. }
  destruct (nonempty_project_access Scenario.prj Scenario.w_AB p Hs Hempty)
    as (_ & Hl & _ & Hout).
  rewrite Hlen in Hl, Hout. split; [exact Hl|].
  split; apply Hout; lia.
Defined.

(** ** Step and result directories *)

Lemma prefix_refl s : String.prefix s s = true.
Proof.
  induction s as [|c s IH]; simpl; [done|]. by destruct (ascii_dec c c).
Qed.

Lemma str_in_refl needle : str_in needle needle = true.
Proof.
  destruct needle as [|c needle]; simpl; [done|].
  destruct (ascii_dec c c); [|done]. by rewrite prefix_refl.
Qed.

Lemma str_in_app needle pre hay :
  str_in needle hay = true → str_in needle (pre +:+ hay) = true.
Proof.
  intros Hin. induction pre as [|c pre IH]; simpl; [done|].
  rewrite IH. apply orb_true_r.
Qed.

Lemma elem_of_List_filter' {A} (f : A → bool) l x :
  x ∈ List.filter f l ↔ x ∈ l ∧ f x = true.
Proof. rewrite !list_elem_of_In. apply filter_In. Qed.

Lemma filter_nil_none {A} (f : A → bool) l :
  List.filter f l = [] → ∀ x, x ∈ l → f x = false.
Proof.
  intros Hnil x Hx. destruct (f x) eqn:Hf; [|done].
  assert (x ∈ List.filter f l) as Hin by (by apply elem_of_List_filter').
  rewrite Hnil in Hin. by apply elem_of_nil in Hin.
Qed.

Lemma step_name_new executed step :
  List.filter (λ old_step, str_in step old_step) executed = [] →
  ProjectMethods.step_name executed step
  = zfill 3 (py_str_nat (length executed + 1)) +:+ "_" +:+ step.
Proof.
  intros Hnil. unfold ProjectMethods.step_name.
  destruct executed as [|e l]; [done|]. by rewrite Hnil.
Qed.

Lemma step_name_contains executed step :
  str_in step (ProjectMethods.step_name executed step) = true.
Proof.
  destruct (List.filter (λ o, str_in step o) executed) as [|old olds] eqn:Hf.
  - rewrite (step_name_new _ _ Hf). do 2 apply str_in_app. apply str_in_refl.
  - rewrite (step_name_reuse _ _ _ _ Hf).
    assert (old ∈ executed ∧ str_in step old = true) as [_ Hs]; [|done].
    apply (elem_of_List_filter' (λ o, str_in step o)). rewrite Hf. by left.
Qed.

(** X6. The name [get_step_name] settles on contains the step name.  It is
    the name of a directory already there exactly when some directory
    there contains the step name; otherwise it is a name no directory
    has. *)
Theorem step_name_existing_or_new (executed : list string) (step : string) :
  str_in step (ProjectMethods.step_name executed step) = true
  ∧ (ProjectMethods.step_name executed step ∈ executed
     ↔ ∃ old, old ∈ executed ∧ str_in step old = true).
Proof.
  pose proof (step_name_contains executed step) as Hin.
  split; [exact Hin|]. clear Hin.
  pose proof (step_name_contains executed step) as Hin. revert Hin.
  destruct (List.filter (λ o, str_in step o) executed) as [|old olds] eqn:Hf.
  - rewrite (step_name_new _ _ Hf). intros Hin. split.
    + intros Hel. by eexists.
    + intros (o & Ho & Hs). by rewrite (filter_nil_none _ _ Hf o Ho) in Hs.
  - rewrite (step_name_reuse _ _ _ _ Hf).
    assert (old ∈ executed ∧ str_in step old = true) as [Hel Hs].
    { apply (elem_of_List_filter' (λ o, str_in step o)). rewrite Hf. by left. }
    intros _. split; [by eexists|done].
Qed.

Lemma List_filter_perm {A} (f : A → bool) l l' :
  l ≡ₚ l' → List.filter f l ≡ₚ List.filter f l'.
Proof.
  induction 1 as [|x l l' _ IH|x y l|l1 l2 l3 _ IH1 _ IH2]; simpl.
  - done.
  - destruct (f x); [by constructor|done].
  - destruct (f x), (f y); try done. apply perm_swap.
  - by etrans.
Qed.

(** X7. While at most one directory contains the step name,
    [get_step_name] settles on the same name whatever the order of the
    listing, and settles on it again once the directory of that name is
    there: with the directories listed before, and with the new one among
    them wherever the listing puts it, when the name was a new one. *)
Theorem step_name_stable (l l' : list string) (step : string) :
  length (List.filter (λ old, str_in step old) l) ≤ 1 →
  l' ≡ₚ (if bool_decide (ProjectMethods.step_name l step ∈ l) then l
         else ProjectMethods.step_name l step :: l) →
  ProjectMethods.step_name l' step = ProjectMethods.step_name l step.
Proof.
  intros Hone Hperm.
  pose proof (step_name_contains l step) as Hin.
  destruct (List.filter (λ o, str_in step o) l) as [|old [|old' olds]] eqn:Hf;
    [| |simpl in Hone; lia].
  - rewrite bool_decide_false in Hperm.
    2:{ intros Hel. by rewrite (filter_nil_none _ _ Hf _ Hel) in Hin. }
    apply (List_filter_perm (λ o, str_in step o)) in Hperm.
    simpl in Hperm. rewrite Hin, Hf in Hperm.
    apply Permutation_singleton_r in Hperm.
    by apply step_name_reuse with (olds := []).
  - rewrite (step_name_reuse _ _ _ _ Hf) in Hperm |- *.
    rewrite bool_decide_true in Hperm.
    2:{ apply (elem_of_List_filter' (λ o, str_in step o)). rewrite Hf. by left. }
    apply (List_filter_perm (λ o, str_in step o)) in Hperm.
    rewrite Hf in Hperm. apply Permutation_singleton_r in Hperm.
    by apply step_name_reuse with (olds := []).
Qed.

Lemma step_name_stable_witness :
  ProjectMethods.step_name ["001_Slice"; "003_Motion"; "000_raw"] "Motion"
  = ProjectMethods.step_name ["000_raw"; "001_Slice"] "Motion".
Proof.
  apply step_name_stable; [vm_compute; lia|].
  assert (ProjectMethods.step_name ["000_raw"; "001_Slice"] "Motion"
          = "003_Motion"%string) as -> by reflexivity.
  assert (bool_decide ("003_Motion"%string ∈ ["000_raw"; "001_Slice"]%string)
          = false) as -> by (by vm_compute).
  etrans; [apply Permutation_swap|].
  apply Permutation_skip, Permutation_swap.
Defined.

(** X8. [final_step] never returns: it reads [self._prjobj.pipeline], an
    attribute that [Project] does not define, so that the call raises
    before a directory is made and leaves every object as it was. *)
Theorem final_step_raises `{RegexEngine}
    (self : addr) (title : string) (w : world) :
  ∃ e, Process.final_step self title w = (Raise e, w).
Proof.
  unfold Process.final_step, Project.path_, bind, proc_getattr, getattr, lift,
    ProjectMethods.attr_pipeline.
  destruct (heap w !! self) as [[q0|q|l|l]|] eqn:Hself; simpl; eauto.
  destruct (heap w !! _prjobj q) as [[p|p|l|l]|] eqn:Hprj; simpl; eauto.
  rewrite Hprj. simpl.
  destruct (py_index (ds_type p) 2) as [r|e|c msg] eqn:Hidx; simpl; eauto.
  - rewrite Hprj. eauto.
  - unfold py_index in Hidx. by repeat case_match.
Qed.

(** ** Making directories *)

(** Two listings with the same files: the same file names at the top,
    and the same rows under every prefix and from every starting folder. *)
Definition same_files (es es' : list fsnode) : Prop :=
  filenames es' = filenames es
  ∧ (∀ path parent,
       ProjectMethods.walk_rows path (List.flat_map (walk_from parent) es')
       = ProjectMethods.walk_rows path (List.flat_map (walk_from parent) es))
  ∧ (∀ path top,
       ProjectMethods.walk_rows path (os_walk es' top)
       = ProjectMethods.walk_rows path (os_walk es top)).

Lemma same_files_refl es : same_files es es.
Proof. done. Qed.

Lemma walk_rows_no_files path dirpath dirs :
  ProjectMethods.walk_rows path [(dirpath, dirs, [])] = [].
Proof. done. Qed.

Lemma walk_rows_cons_dir path parent d ch es :
  ProjectMethods.walk_rows path (List.flat_map (walk_from parent) (Dir d ch :: es))
  = ProjectMethods.walk_rows path [(parent ++ [d], dirnames ch, filenames ch)]
    ++ ProjectMethods.walk_rows path (List.flat_map (walk_from (parent ++ [d])) ch)
    ++ ProjectMethods.walk_rows path (List.flat_map (walk_from parent) es).
Proof.
  cbn [List.flat_map]. rewrite walk_rows_app, walk_rows_dir.
  by rewrite <-app_assoc.
Qed.

Lemma walk_rows_triple_files path dirpath dirs dirs' files :
  ProjectMethods.walk_rows path [(dirpath, dirs, files)]
  = ProjectMethods.walk_rows path [(dirpath, dirs', files)].
Proof. done. Qed.

Lemma os_walk_cons_file es f top :
  os_walk (File f :: es) top = if decide (f = top) then [] else os_walk es top.
Proof. unfold os_walk. simpl. by destruct (decide (f = top)). Qed.

Lemma os_walk_cons_dir es d ch top :
  os_walk (Dir d ch :: es) top
  = if decide (d = top) then walk_from [] (Dir top ch) else os_walk es top.
Proof. unfold os_walk. simpl. by destruct (decide (d = top)). Qed.

Lemma same_files_cons_file f es es' :
  same_files es es' → same_files (File f :: es) (File f :: es').
Proof.
  intros (Hf & Hrows & Hwalk). split; [|split].
  - simpl. by rewrite Hf.
  - intros path parent. simpl. apply Hrows.
  - intros path top. rewrite !os_walk_cons_file.
    destruct (decide (f = top)); [done|apply Hwalk].
Qed.

Lemma same_files_cons_dir d ch es es' :
  same_files es es' → same_files (Dir d ch :: es) (Dir d ch :: es').
Proof.
  intros (Hf & Hrows & Hwalk). split; [|split].
  - simpl. by rewrite Hf.
  - intros path parent. rewrite !walk_rows_cons_dir. by rewrite Hrows.
  - intros path top. rewrite !os_walk_cons_dir.
    destruct (decide (d = top)); [done|apply Hwalk].
Qed.

Lemma same_files_children d ch ch' es :
  same_files ch ch' → same_files (Dir d ch :: es) (Dir d ch' :: es).
Proof.
  intros (Hf & Hrows & Hwalk). split; [|split].
  - done.
  - intros path parent. rewrite !walk_rows_cons_dir.
    rewrite Hrows, Hf.
    by rewrite (walk_rows_triple_files path _ (dirnames ch') (dirnames ch)).
  - intros path top. rewrite !os_walk_cons_dir.
    destruct (decide (d = top)); [|done].
    rewrite !walk_rows_dir, Hrows, Hf.
    by rewrite (walk_rows_triple_files path _ (dirnames ch') (dirnames ch)).
Qed.

Lemma subdir_app_new d es top :
  has_entry d es = false →
  os_walk (es ++ [Dir d []]) top
  = if decide (d = top) then [([top], [], [])] else os_walk es top.
Proof.
  unfold has_entry, os_walk. intros Hd%bool_decide_eq_false.
  induction es as [|[f|d' ch] es IH]; simpl in *.
  - by destruct (decide (d = top)).
  - apply not_elem_of_cons in Hd as [Hne Hd].
    destruct (decide (f = top)) as [->|].
    + by rewrite decide_False by done.
    + by apply IH.
  - apply not_elem_of_cons in Hd as [Hne Hd].
    destruct (decide (d' = top)) as [->|].
    + by rewrite decide_False by done.
    + by apply IH.
Qed.

Lemma same_files_new_dir d es :
  has_entry d es = false → same_files es (es ++ [Dir d []]).
Proof.
  intros Hd. split; [|split].
  - unfold filenames. rewrite omap_app. simpl. by rewrite app_nil_r.
  - intros path parent. rewrite flat_map_app, walk_rows_app. simpl.
    by rewrite app_nil_r.
  - intros path top. rewrite subdir_app_new by done.
    destruct (decide (d = top)) as [->|]; [|done].
    unfold has_entry in Hd. apply bool_decide_eq_false in Hd.
    unfold os_walk.
    assert (subdir top es = None) as ->; [|done].
    clear -Hd. induction es as [|[f|d' ch] es IH]; simpl in *; [done|..];
      apply not_elem_of_cons in Hd as [Hne Hd];
      rewrite decide_False by done; by apply IH.
Qed.

Lemma same_files_update_subdir c (f : list fsnode → option (list fsnode)) es es' :
  (∀ ch ch', f ch = Some ch' → same_files ch ch') →
  update_subdir c f es = Some es' → same_files es es'.
Proof.
  intros Hf. revert es'.
  induction es as [|[f'|d' ch] es IH]; intros es' Hup; simpl in Hup; [done|..].
  - destruct (decide (f' = c)); [done|].
    destruct (update_subdir c f es) as [es0|]; [|done].
    simpl in Hup. simplify_eq. by apply same_files_cons_file, IH.
  - destruct (decide (d' = c)).
    + destruct (f ch) as [ch'|] eqn:Hch; [|done].
      simpl in Hup. simplify_eq. by apply same_files_children, Hf.
    + destruct (update_subdir c f es) as [es0|]; [|done].
      simpl in Hup. simplify_eq. by apply same_files_cons_dir, IH.
Qed.

Lemma mkdir_at_same_files comps es es' :
  mkdir_at comps es = Some es' → same_files es es'.
Proof.
  revert es es'. induction comps as [|c comps IH]; intros es es' Hmk; [done|].
  destruct comps as [|c' comps].
  - simpl in Hmk. destruct (has_entry c es) eqn:Hc; [done|].
    simplify_eq. by apply same_files_new_dir.
  - change (update_subdir c (mkdir_at (c' :: comps)) es = Some es') in Hmk.
    eapply same_files_update_subdir; [|exact Hmk]. intros ch ch'. apply IH.
Qed.

Lemma os_mkdir_same_files comps es es' :
  os_mkdir comps es = Some es' → same_files es es'.
Proof.
  unfold os_mkdir. destruct (existsb _ comps); [done|].
  destruct (resolve es [] _) as [cs|]; [|done]. simpl.
  apply mkdir_at_same_files.
Qed.

Lemma same_files_trans es1 es2 es3 :
  same_files es1 es2 → same_files es2 es3 → same_files es1 es3.
Proof.
  intros (Hf1 & Hr1 & Hw1) (Hf2 & Hr2 & Hw2). split; [congruence|].
  split; intros; [by rewrite Hr2|by rewrite Hw2].
Qed.

Lemma mkdir_run paths w :
  ∃ r', SystemMethods.mkdir paths w = (Ok (), mkWorld (heap w) r')
        ∧ same_files (root w) r'.
Proof.
  destruct w as [h r]. cbn [heap root]. unfold SystemMethods.mkdir. revert r.
  induction paths as [|comps paths IH]; intros r; cbn [for_each].
  - by exists r.
  - unfold bind at 1. cbn [heap root].
    destruct (IH (default r (os_mkdir comps r))) as (r' & -> & Hsame).
    exists r'. split; [done|].
    eapply same_files_trans; [|exact Hsame].
    destruct (os_mkdir comps r) as [r1|] eqn:Hmk; simpl; [|done].
    by eapply os_mkdir_same_files.
Qed.

(** X9. [mkdir] never raises and touches no object; whatever directories it
    makes, the parsing of every folder gives the table it gave before:
    making directories neither hides nor adds a file. *)
Theorem mkdir_keeps_files (paths : list (list string)) (w : world) :
  ∃ r', SystemMethods.mkdir paths w = (Ok (), mkWorld (heap w) r')
        ∧ ∀ path ds idx,
            ProjectMethods.parsing r' path ds idx
            = ProjectMethods.parsing (root w) path ds idx.
Proof.
  destruct (mkdir_run paths w) as (r' & Hrun & _ & _ & Hwalk).
  exists r'. split; [done|]. intros path ds idx.
  unfold ProjectMethods.parsing.
  destruct (py_index ds idx) as [top| |]; [|done..]. simpl.
  by rewrite Hwalk.
Qed.

(** ** Attributes that filtering and scanning leave alone *)

(** The attributes that only [__init__] and the setters of [dataclass]
    and [ext] assign. *)
Definition core (p : ProjectObj)
    : string * list string * list string * Z * pylist string :=
  (path p, ds_type p, img_ext p, dc_idx p, ext_filter p).

(** A property of the attributes of the project at [s], if there is one. *)
Definition attr_inv (s : addr) (P : ProjectObj → Prop) (w : world) : Prop :=
  ∀ p, points_to w s p → P p.

Lemma scan_update_core upd : scan_update upd → ∀ p, core (upd p) = core p.
Proof. by intros [? []| | |]. Qed.

Section attr_inv.
Context (s : addr) (P : ProjectObj → Prop).
Context (HP : ∀ p q, core p = core q → P p → P q).

Lemma attr_inv_store a o w :
  (∀ p, o ≠ OProject p) →
  attr_inv s P w → attr_inv s P (mkWorld (<[a := o]> (heap w)) (root w)).
Proof.
  intros Ho HI p Hs. unfold points_to in Hs. simpl in Hs.
  destruct (decide (a = s)) as [->|Hne].
  - apply list_lookup_insert_Some in Hs as [(_ & Heq & _)|[? _]]; [|done].
    by destruct (Ho p).
  - rewrite list_lookup_insert_ne in Hs by done. by apply HI.
Qed.

Lemma attr_inv_alloc o w :
  (∀ p, o ≠ OProject p) →
  attr_inv s P w → attr_inv s P (mkWorld (heap w ++ [o]) (root w)).
Proof.
  intros Ho HI p Hs. unfold points_to in Hs. simpl in Hs.
  apply lookup_app_Some in Hs as [Hs|[_ Hs]]; [by apply HI|].
  apply list_lookup_singleton_Some in Hs as [_ Heq]. by destruct (Ho p).
Qed.

Lemma attr_inv_root r w :
  attr_inv s P w → attr_inv s P (mkWorld (heap w) r).
Proof. done. Qed.

Lemma attr_inv_stable s' :
  stable_at (attr_inv s P) s' (λ upd, ∀ p, core (upd p) = core p).
Proof using HP.
  intros upd w p Hupd HI Hs' p' Hs. unfold points_to, upd_world in Hs.
  simpl in Hs. destruct (decide (s' = s)) as [->|Hne].
  - rewrite list_lookup_insert_eq in Hs by (by eapply lookup_lt_Some).
    simplify_eq. eapply HP; [symmetry; apply Hupd|by apply HI].
  - rewrite list_lookup_insert_ne in Hs by done. by apply HI.
Qed.

Lemma attr_inv_scan_stable s' : stable_at (attr_inv s P) s' scan_update.
Proof using HP.
  intros upd w p Hupd. apply attr_inv_stable. by apply scan_update_core.
Qed.

Lemma keeps_attr_slot_set s' i v :
  keeps (attr_inv s P) (Project.slot_set s' i v).
Proof.
  intros w HI. unfold Project.slot_set, bind, getattr, load_slots.
  destruct (heap w !! s') as [[p| | |]|]; simpl; try done.
  destruct (heap w !! filters p) as [[| |sl|]|]; simpl; try done.
  destruct (decide (i < length sl)); simpl; [|done].
  by apply attr_inv_store.
Qed.

Lemma keeps_attr_slot_assign s' i l :
  keeps (attr_inv s P) (Project.slot_assign s' i l).
Proof.
  intros w HI. unfold Project.slot_assign, bind at 1, alloc.
  by apply keeps_attr_slot_set, attr_inv_alloc.
Qed.

Lemma keeps_attr_extend_or_assign s' i new :
  keeps (attr_inv s P) (Project.extend_or_assign s' i new).
Proof.
  intros w HI. unfold Project.extend_or_assign.
  pose proof (read_only_slot_value s' i w) as Hro.
  unfold bind at 1.
  destruct (Project.slot_value s' i w) as [[cur|e|c msg] w1];
    simpl in Hro; subst w1; simpl; [|done..].
  destruct (truthy_list cur); [|by apply keeps_attr_slot_assign].
  pose proof (read_only_slot_get s' i w) as Hro.
  unfold bind at 1.
  destruct (Project.slot_get s' i w) as [[a|e|c msg] w1];
    simpl in Hro; subst w1; simpl; [|done..].
  destruct a as [a|]; [|done].
  unfold bind, load_list, store.
  destruct (heap w !! a) as [[| | |l]|]; simpl; try done.
  by apply attr_inv_store.
Qed.

Lemma keeps_attr_match_level s' i args residuals lists :
  keeps (attr_inv s P) (Project.match_level s' i args residuals lists).
Proof.
  unfold Project.match_level.
  apply keeps_bind; [apply keeps_lift|intros r].
  apply keeps_bind; [apply keeps_attr_extend_or_assign|intros _; apply keeps_ret].
Qed.

Lemma keeps_attr_set_filters_args s' args :
  keeps (attr_inv s P) (Project.set_filters_args s' args).
Proof.
  unfold Project.set_filters_args, Project.subjects_, Project.sessions_,
    Project.dtypes_, Project.pipelines_, Project.steps_, Project.results_.
  repeat first
    [ apply keeps_attr_match_level
    | apply keeps_attr_slot_set
    | keeps_step ].
Qed.

Lemma keeps_attr_mkdir paths : keeps (attr_inv s P) (SystemMethods.mkdir paths).
Proof.
  intros w HI. by destruct (mkdir_run paths w) as (r' & -> & _).
Qed.

Section methods.
Context `{RegexEngine}.

Lemma keeps_attr_update s' : keeps (attr_inv s P) (Project.__update s').
Proof using HP. apply keeps_update, stable_at_derived, attr_inv_scan_stable. Qed.

Lemma keeps_attr_scan_prj s' : keeps (attr_inv s P) (Project.scan_prj s').
Proof using HP. apply keeps_scan_prj, attr_inv_scan_stable. Qed.

Lemma keeps_attr_reset_filters s' ext :
  keeps (attr_inv s P) (Project.reset_filters s' ext).
Proof using HP.
  pose proof (attr_inv_stable s') as Hst.
  unfold Project.reset_filters.
  apply keeps_bind; [apply keeps_alloc; intros w; by apply attr_inv_alloc|].
  intros fa. apply keeps_bind; [by eapply keeps_setattr|intros _].
  apply keeps_bind.
  { destruct (negb (truthy ext)).
    - apply keeps_bind; [apply keeps_getattr|intros e; by eapply keeps_setattr].
    - by eapply keeps_setattr. }
  intros _. apply keeps_bind; [apply keeps_attr_scan_prj|intros _].
  apply keeps_attr_update.
Qed.

Lemma keeps_attr_set_filters s' args kwargs :
  keeps (attr_inv s P) (Project.set_filters s' args kwargs).
Proof using HP.
  pose proof (attr_inv_scan_stable s') as Hst.
  unfold Project.set_filters, Project.ext_.
  apply keeps_bind.
  { destruct kwargs as [|k kwargs].
    - apply keeps_bind; [apply keeps_getattr|intros e].
      apply keeps_attr_reset_filters.
    - intros w HI. exact HI. }
  intros _. apply keeps_bind.
  { destruct args, kwargs;
      first [apply keeps_ret|apply keeps_attr_set_filters_args]. }
  intros _. apply keeps_bind; [apply keeps_getattr|intros d].
  apply keeps_bind; [apply keeps_read_only, read_only_applying_filters|intros d'].
  apply keeps_bind; [by keeps_step|intros _].
  apply keeps_attr_update.
Qed.
End methods.
End attr_inv.

(** X11. [set_filters], [reset_filters], [scan_prj] and [__update], called
    on whichever project and ending however they end, leave the path, the
    data structure, the image extensions, the data-class index and the
    extension filter of every project as they were. *)
Theorem project_core_kept `{RegexEngine}
    (s s' : addr) (w : world) (p p' : ProjectObj)
    (args : list string) (kwargs : list (string * pyval)) (ext : pyval) :
  points_to w s p →
  (points_to (Project.set_filters s' args kwargs w).2 s p' → core p' = core p)
  ∧ (points_to (Project.reset_filters s' ext w).2 s p' → core p' = core p)
  ∧ (points_to (Project.scan_prj s' w).2 s p' → core p' = core p)
  ∧ (points_to (Project.__update s' w).2 s p' → core p' = core p).
Proof.
  intros Hs.
  assert (∀ q r, core q = core r → core q = core p → core r = core p) as HP
    by (intros; congruence).
  assert (attr_inv s (λ q, core q = core p) w) as HI.
  { intros q Hq. by rewrite (points_to_inj _ _ _ _ Hq Hs). }
  split; [by apply (keeps_attr_set_filters s _ HP s' args kwargs w HI)|].
  split; [by apply (keeps_attr_reset_filters s _ HP s' ext w HI)|].
  split; [by apply (keeps_attr_scan_prj s _ HP s' w HI)|].
  by apply (keeps_attr_update s _ HP s' w HI).
Qed.

Lemma project_core_kept_witness :
  ∃ p p',
    points_to Scenario.w_AB Scenario.prj p
    ∧ points_to (@Project.set_filters Scenario.engine Scenario.prj ["A"] []
                   Scenario.w_AB).2 Scenario.prj p'
    ∧ core p' = core p.
Proof.
  assert (∃ p, points_to Scenario.w_AB Scenario.prj p) as (p & Hs).
  { vm_compute. eexists. reflexivity. }
  pose (w' := (@Project.set_filters Scenario.engine Scenario.prj ["A"] []
                 Scenario.w_AB).2).
  destruct (Scenario.project_at w' Scenario.prj) as [p'|] eqn:Hp;
    [|subst w'; by vm_compute in Hp].
  apply project_at_points_to in Hp as Hs'.
  exists p, p'. split; [exact Hs|]. split; [exact Hs'|].
  exact (proj1 (@project_core_kept Scenario.engine Scenario.prj Scenario.prj
                  Scenario.w_AB p p' ["A"] [] VNone Hs) Hs').
Defined.

(** ** The data class of a project and of its views *)

Lemma core_eq_trans_r c p q : core p = core q → core p = c → core q = c.
Proof. congruence. Qed.

(** What a returning assignment to [dataclass] leaves. *)
Lemma dataclass_set_ok `{RegexEngine} s idx w w' p :
  points_to w s p → Project.dataclass_set s idx w = (Ok (), w') →
  (0 ≤ idx < 3)%Z
  ∧ ∃ p', points_to w' s p' ∧ core p' = core (with_dc_idx idx p)
          ∧ filter_state w' s p' (replicate 6 None).
Proof.
  intros Hs Hrun. unfold Project.dataclass_set in Hrun.
  destruct (decide (0 ≤ idx < 3)%Z) as [Hidx|]; [|done]. split; [done|].
  rewrite (bind_setattr _ _ _ _ _ _ Hs) in Hrun.
  apply bind_inv_ok in Hrun as ([] & w2 & Hreset & Hupd).
  destruct (update_ok_points_to_after _ _ _ _ Hupd) as (p' & Hs').
  exists p'. split; [done|]. split.
  - pose proof (keeps_attr_reset_filters s
                  (λ q, core q = core (with_dc_idx idx p))
                  (core_eq_trans_r _) s VNone _
                  (λ q Hq, f_equal core
                     (points_to_inj _ _ _ _ Hq (points_to_upd _ _ _ _ Hs))))
      as HI.
    rewrite Hreset in HI. cbn [snd] in HI.
    apply (keeps_attr_update s _ (core_eq_trans_r _) s) in HI.
    rewrite Hupd in HI. by apply HI.
  - destruct (reset_filters_ok_points_to _ _ _ _ Hreset) as (p2 & Hs2).
    pose proof (reset_filters_fresh _ _ _ _ _ Hreset Hs2) as Hst.
    assert (fresh_slots s w') as (p3 & Hst').
    { pose proof (keeps_update (fresh_slots s) s
                    (stable_at_derived _ _ (fresh_slots_scan_stable s)) w2
                    (ex_intro _ p2 Hst)) as HI.
      by rewrite Hupd in HI. }
    by rewrite (points_to_inj _ _ _ _ Hs' (proj1 Hst')).
Qed.

(** X12. The index of the data class stays in [range(3)] across an assignment
    to [dataclass], whatever the value assigned and however the
    assignment ends. *)
Theorem dataclass_index_in_range `{RegexEngine}
    (s s' : addr) (idx : Z) (w : world) (p p' : ProjectObj) :
  points_to w s p → (0 ≤ dc_idx p < 3)%Z →
  points_to (Project.dataclass_set s' idx w).2 s p' →
  (0 ≤ dc_idx p' < 3)%Z.
Proof.
  intros Hs Hdc.
  assert (∀ p q, core p = core q →
            (0 ≤ dc_idx p < 3)%Z → (0 ≤ dc_idx q < 3)%Z) as HP.
  { intros q1 q2 Hcore. by injection Hcore as _ _ _ -> _. }
  assert (attr_inv s (λ q, (0 ≤ dc_idx q < 3)%Z)
            (Project.dataclass_set s' idx w).2) as HI; [|by apply HI].
  unfold Project.dataclass_set.
  destruct (decide (0 ≤ idx < 3)%Z) as [Hidx|];
    [|intros q Hq; by rewrite (points_to_inj _ _ _ _ Hq Hs)].
  assert (keeps (attr_inv s (λ q, (0 ≤ dc_idx q < 3)%Z))
            (setattr s' "_Project__dc_idx" (with_dc_idx idx) ;;
             Project.reset_filters s' VNone ;; Project.__update s')) as Hk.
  { apply keeps_bind.
    - intros w0 HI. unfold setattr.
      destruct (heap w0 !! s') as [[q| | |]|] eqn:Hq; simpl; try done.
      intros q' Hq'. unfold points_to in Hq'. simpl in Hq'.
      destruct (decide (s' = s)) as [->|Hne].
      + rewrite list_lookup_insert_eq in Hq' by (by eapply lookup_lt_Some).
        by simplify_eq.
      + rewrite list_lookup_insert_ne in Hq' by done. by apply HI.
    - intros _. apply keeps_bind; [by apply keeps_attr_reset_filters|].
      intros _. by apply keeps_attr_update. }
  apply Hk. intros q Hq. by rewrite (points_to_inj _ _ _ _ Hq Hs).
Qed.

Lemma dataclass_index_in_range_witness :
  ∃ p', points_to (@Project.dataclass_set Scenario.engine Scenario.prj 7
                     Scenario.w_AB).2 Scenario.prj p'
        ∧ (0 ≤ dc_idx p' < 3)%Z.
Proof.
  assert (∃ p, points_to Scenario.w_AB Scenario.prj p ∧ dc_idx p = 0%Z)
    as (p & Hs & Hdc).
  { vm_compute. eexists. split; reflexivity. }
  exists p. split; [exact Hs|].
  apply (@dataclass_index_in_range Scenario.engine Scenario.prj Scenario.prj 7
           Scenario.w_AB p p Hs); [rewrite Hdc; lia|exact Hs].
Defined.

(** X13. Setter and getter of [dataclass]: after an assignment that returned,
    the property reads the folder name at the index assigned, in the data
    structure the project had, and the six filter slots are cleared. *)
Theorem dataclass_set_get `{RegexEngine}
    (s : addr) (idx : Z) (w w' : world) (p : ProjectObj) :
  points_to w s p →
  Project.dataclass_set s idx w = (Ok (), w') →
  Project.dataclass_ s w' = (py_index (ds_type p) idx, w')
  ∧ ∀ i, i < 6 → Project.slot_value s i w' = (Ok None, w').
Proof.
  intros Hs Hrun.
  destruct (dataclass_set_ok _ _ _ _ _ Hs Hrun)
    as (_ & p' & Hs' & Hcore & Hst).
  injection Hcore as _ Hds _ Hidx _. simpl in Hidx. split.
  - unfold Project.dataclass_.
    rewrite !(bind_getattr _ _ _ _ _ _ Hs'). by rewrite Hds, Hidx.
  - intros i Hi. eapply slot_value_run; [exact Hst|].
    by apply lookup_replicate_2.
Qed.

Lemma dataclass_set_get_witness :
  let w' := (@Project.dataclass_set Scenario.engine Scenario.prj 1
               Scenario.w_AB).2 in
  Project.dataclass_ Scenario.prj w' = (Ok "Processing"%string, w').
Proof.
  intros w'.
  assert (∃ p, points_to Scenario.w_AB Scenario.prj p
             ∧ ds_type p = Scenario.ref_ds) as (p & Hs & Hds).
  { vm_compute. eexists. split; reflexivity. }
  destruct (@dataclass_set_get Scenario.engine Scenario.prj 1 Scenario.w_AB w' p
              Hs) as [Hget _].
  - by vm_compute.
  - rewrite Hds in Hget. exact Hget.
Defined.

(** X14. The view a call hands out is a project on the same path, with the
    same data structure, extensions and extension filter as its parent,
    and its data class is the one the call names. *)
Theorem call_view_dataclass `{RegexEngine}
    (s : addr) (dc_id : Z) (args : list string)
    (kwargs : list (string * pyval)) (w w' : world) (prj : addr)
    (p : ProjectObj) :
  points_to w s p →
  Project.__call__ s dc_id args kwargs w = (Ok prj, w') →
  ∃ p', points_to w' prj p'
        ∧ core p' = (path p, ds_type p, img_ext p, dc_id, ext_filter p).
Proof.
  intros Hs Hrun. unfold Project.__call__, Project.copy in Hrun.
  rewrite bind_assoc, (bind_getattr _ _ _ _ _ _ Hs) in Hrun.
  unfold bind at 1, alloc at 1 in Hrun. cbv beta iota in Hrun.
  set (w1 := mkWorld (heap w ++ [OProject (id p)]) (root w)) in Hrun.
  assert (points_to w1 (length (heap w)) p) as Hprj.
  { unfold points_to, w1. simpl. by apply list_lookup_middle. }
  assert (points_to w1 s p) as Hs1.
  { unfold points_to, w1. simpl. by apply lookup_app_l_Some. }
  rewrite (bind_getattr _ _ _ _ _ _ Hs1) in Hrun.
  apply bind_inv_ok in Hrun as ([] & w2 & Hset & Hrun).
  apply bind_inv_ok in Hrun as ([] & w3 & Hfil & Hret).
  apply ret_inv in Hret as [-> ->].
  assert (∃ p2, points_to w2 (length (heap w)) p2
                ∧ core p2 = (path p, ds_type p, img_ext p, dc_id, ext_filter p))
    as (p2 & Hs2 & Hcore2).
  { destruct (negb (dc_idx p =? dc_id)%Z) eqn:Hne.
    - destruct (dataclass_set_ok _ _ _ _ _ Hprj Hset)
        as (_ & p2 & Hs2 & Hcore & _).
      by exists p2.
    - apply ret_inv in Hset as [_ ->]. exists p. split; [done|].
      apply negb_false_iff, Z.eqb_eq in Hne. unfold core. by rewrite Hne. }
  destruct (set_filters_ok_points_to _ _ _ _ _ Hfil) as (p' & Hs').
  exists p'. split; [done|].
  pose proof (keeps_attr_set_filters (length (heap w))
                (λ q, core q = (path p, ds_type p, img_ext p, dc_id, ext_filter p))
                (core_eq_trans_r _) (length (heap w)) args kwargs w2
                (λ q Hq, eq_trans
                   (f_equal core (points_to_inj _ _ _ _ Hq Hs2)) Hcore2)) as HI.
  rewrite Hfil in HI. by apply HI.
Qed.

Lemma call_view_dataclass_witness :
  ∃ p', points_to (@Project.__call__ Scenario.engine Scenario.prj 1 [] []
                     Scenario.w_AB).2 2 p'
        ∧ dc_idx p' = 1%Z ∧ path p' = "/prj"%string.
Proof.
  assert (∃ p, points_to Scenario.w_AB Scenario.prj p
             ∧ path p = "/prj"%string) as (p & Hs & Hpath).
  { vm_compute. eexists. split; reflexivity. }
  destruct (@call_view_dataclass Scenario.engine Scenario.prj 1 [] []
              Scenario.w_AB
              (@Project.__call__ Scenario.engine Scenario.prj 1 [] []
                 Scenario.w_AB).2 2 p Hs) as (p' & Hs' & Hcore).
  - by vm_compute.
  - exists p'. split; [exact Hs'|].
    injection Hcore as Hp _ _ Hd _.
    split; [exact Hd|]. rewrite Hp. exact Hpath.
Defined.

(** ** What the constructors leave *)

Lemma scan_prj_root `{RegexEngine} s w : root (Project.scan_prj s w).2 = root w.
Proof.
  apply (keeps_scan_prj (λ w', root w' = root w) s); [|done].
  by intros upd w0 p _ Hw0 _.
Qed.

(** X15. A call of [Project(path)] that returns hands out a new object: a
    project on that path with the data structure and the extensions of
    the reference, data class 0, the reference extensions as its
    extension filter and [None] in its six filter slots. *)
Theorem init_project `{RegexEngine}
    (project_path : string) (imgext ref_ds : list string)
    (w w' : world) (s : addr) :
  Project.__init__ project_path imgext ref_ds w = (Ok s, w') →
  heap w !! s = None
  ∧ (∃ p, points_to w' s p
          ∧ core p = (project_path, ref_ds, imgext, 0%Z, Some imgext)
          ∧ filter_state w' s p (replicate 6 None)).
Proof.
  unfold Project.__init__. intros Hrun.
  unfold bind at 1, alloc at 1 in Hrun. cbv beta iota in Hrun.
  unfold bind at 1, alloc at 1 in Hrun. cbv beta iota in Hrun.
  cbn [heap root] in Hrun. rewrite length_app in Hrun. cbn [length] in Hrun.
  set (p0 := mkProject _ _ _ _ _ _ _ _ _ _ _ _ _ _ _ _) in Hrun.
  set (w1 := mkWorld _ _) in Hrun.
  assert (points_to w1 (length (heap w) + 1) p0) as Hs1.
  { unfold points_to, w1. cbn [heap].
    rewrite lookup_app_r; rewrite length_app; simpl; [|lia].
    by replace (length (heap w) + 1 - (length (heap w) + 1)) with 0 by lia. }
  assert (filter_state w1 (length (heap w) + 1) p0 (replicate 6 None)) as Hst1.
  { apply filter_state_fresh; [done|]. unfold w1, p0. cbn [heap filters].
    apply lookup_app_l_Some. by apply list_lookup_middle. }
  apply bind_inv_ok in Hrun as ([] & w2 & Hmk & Hrun).
  apply bind_inv_ok in Hrun as ([] & w3 & Hscan & Hret).
  apply ret_inv in Hret as [-> ->].
  unfold ProjectMethods.mk_main_folder in Hmk.
  rewrite (bind_getattr _ _ _ _ _ _ Hs1) in Hmk.
  apply bind_inv_ok in Hmk as (d0 & ? & [H0 ->]%lift_inv & Hmk).
  apply bind_inv_ok in Hmk as (d1 & ? & [H1 ->]%lift_inv & Hmk).
  apply bind_inv_ok in Hmk as (d2 & ? & [H2 ->]%lift_inv & Hmk).
  cbn [ds_type p0] in H0, H1, H2.
  destruct (mkdir_run [[d0]; [d1]; [d2]] w1) as (r2 & Hmk' & _).
  rewrite Hmk' in Hmk. simplify_eq.
  unfold try_except in Hscan.
  pose proof (keeps_scan_prj (fresh_slots (length (heap w) + 1))
                (length (heap w) + 1) (fresh_slots_scan_stable _)
                (mkWorld (heap w1) r2) (ex_intro _ p0 Hst1)) as Hfresh.
  pose proof (keeps_attr_scan_prj (length (heap w) + 1)
                (λ q, core q = core p0) (core_eq_trans_r _)
                (length (heap w) + 1) (mkWorld (heap w1) r2)
                (λ q Hq, f_equal core (points_to_inj _ _ _ _ Hq Hs1))) as Hcore.
  destruct (Project.scan_prj _ _) as [[[]|e|c msg] w4]; [|done..].
  simplify_eq. cbn [snd] in *.
  split; [apply lookup_ge_None_2; lia|].
  destruct Hfresh as (p & Hst). exists p. split; [exact (proj1 Hst)|].
  split; [exact (Hcore p (proj1 Hst))|exact Hst].
Qed.

Lemma init_project_witness :
  ∃ p, points_to Scenario.w_AB Scenario.prj p
       ∧ core p = ("/prj"%string, Scenario.ref_ds, Scenario.imgext, 0%Z,
                   Some Scenario.imgext)
       ∧ filter_state Scenario.w_AB Scenario.prj p (replicate 6 None).
Proof.
  destruct (@init_project Scenario.engine "/prj" Scenario.imgext Scenario.ref_ds
              (mkWorld [] Scenario.tree_AB) Scenario.w_AB Scenario.prj)
    as (_ & p & Hs & Hcore & Hst).
  - by vm_compute.
  - exists p. split; [exact Hs|]. split; [exact Hcore|exact Hst].
Defined.

Lemma filter_state_root w s p fv r :
  filter_state w s p fv → filter_state (mkWorld (heap w) r) s p fv.
Proof. done. Qed.

Lemma filter_state_store_process w s p fv a q q' :
  heap w !! a = Some (OProcess q) →
  filter_state w s p fv →
  filter_state (mkWorld (<[a := OProcess q']> (heap w)) (root w)) s p fv.
Proof.
  intros Ha (Hs & sl & Hfa & Hsl). unfold points_to in *.
  split; [|exists sl; split].
  - unfold points_to. simpl.
    rewrite list_lookup_insert_ne; [done|]. intros ->. congruence.
  - simpl. rewrite list_lookup_insert_ne; [done|]. intros ->. congruence.
  - eapply Forall2_impl; [exact Hsl|]. intros ??.
    apply slot_holds_store. intros l. congruence.
Qed.

Lemma proc_getattr_inv {A} self name (f : ProcessObj → A) w a w' :
  proc_getattr self name f w = (Ok a, w') →
  w' = w ∧ ∃ q, heap w !! self = Some (OProcess q) ∧ a = f q.
Proof.
  unfold proc_getattr.
  destruct (heap w !! self) as [[|q| |]|]; intros; simplify_eq. eauto.
Qed.

Lemma proc_setattr_inv self name upd w a w' :
  proc_setattr self name upd w = (Ok a, w') →
  ∃ q, heap w !! self = Some (OProcess q)
       ∧ w' = mkWorld (<[self := OProcess (upd q)]> (heap w)) (root w).
Proof.
  unfold proc_setattr.
  destruct (heap w !! self) as [[|q| |]|]; intros; simplify_eq. eauto.
Qed.

Lemma read_only_getattr_opt {A} s name (f : ProjectObj → option A) :
  read_only (getattr_opt s name f).
Proof.
  unfold getattr_opt. apply read_only_bind; [apply read_only_getattr|].
  intros [a|]; [apply read_only_ret|apply read_only_raise].
Qed.

Lemma read_only_inv {A} (m : M A) w a w' :
  read_only m → m w = (Ok a, w') → w' = w.
Proof. intros Hro Hrun. specialize (Hro w). by rewrite Hrun in Hro. Qed.

Lemma process_stable self q s U :
  stable_at (λ w, heap w !! self = Some (OProcess q)) s U.
Proof.
  intros upd w p _ Hself Hs. rewrite upd_world_other; [done|].
  intros ->. unfold points_to in Hs. congruence.
Qed.

(** X16. A call of [Process(prjobj, pipeline)] that returns hands out a
    process object bound to that project and that pipeline, and leaves
    the project it was given with [None] in its six filter slots: the
    filters the caller had set on the project are gone. *)
Theorem init_process `{RegexEngine}
    (prjobj : addr) (pipeline : string) (w w' : world) (self : addr) :
  Process.__init__ prjobj pipeline w = (Ok self, w') →
  (∃ q, heap w' !! self = Some (OProcess q)
        ∧ _prjobj q = prjobj ∧ _pipeline q = Some pipeline)
  ∧ ∀ i, i < 6 → Project.slot_value prjobj i w' = (Ok None, w').
Proof.
  unfold Process.__init__. intros Hrun.
  apply bind_inv_ok in Hrun as ([] & w1 & Hreset & Hrun).
  destruct (reset_filters_ok_points_to _ _ _ _ Hreset) as (p1 & Hs1).
  pose proof (reset_filters_fresh _ _ _ _ _ Hreset Hs1) as Hst1.
  apply bind_inv_ok in Hrun as (subj & w1' & Hsubj & Hrun).
  apply read_only_inv in Hsubj as ->; [|apply read_only_getattr_opt].
  apply bind_inv_ok in Hrun as (r & w1' & Hr & Hrun).
  apply read_only_inv in Hr as ->.
  2:{ unfold Process.sorted_copy, Project.subjects_, Project.sessions_.
      repeat first
        [ apply read_only_ret | apply read_only_raise
        | apply read_only_getattr | apply read_only_getattr_opt
        | apply read_only_bind; [|intros ?]
        | match goal with
          | |- read_only (if ?b then _ else _) => destruct b
          | |- read_only (match ?x with _ => _ end) => destruct x
          end ]. }
  unfold bind at 1, alloc at 1 in Hrun. cbv beta iota in Hrun.
  set (q0 := mkProcess r.1 r.2 prjobj None) in Hrun.
  set (w3 := mkWorld (heap w1 ++ [OProcess q0]) (root w1)) in Hrun.
  apply bind_inv_ok in Hrun as ([] & w4 & Hinit & Hret).
  apply ret_inv in Hret as [-> ->].
  assert (heap w3 !! length (heap w1) = Some (OProcess q0)) as Hself.
  { unfold w3. simpl. by apply list_lookup_middle. }
  assert (filter_state w3 prjobj p1 (replicate 6 None)) as Hst3
    by (by apply filter_state_alloc).
  clearbody w3.
  unfold Process.initiate_pipeline in Hinit.
  apply bind_inv_ok in Hinit as (prj & ? & [-> (q & Hq & ->)]%proc_getattr_inv & Hinit).
  rewrite Hself in Hq. injection Hq as <-. cbn [_prjobj q0] in Hinit.
  apply bind_inv_ok in Hinit as (pa & ? & [-> _]%getattr_inv & Hinit).
  apply bind_inv_ok in Hinit as (ds & ? & [-> _]%getattr_inv & Hinit).
  apply bind_inv_ok in Hinit as (processing & ? & [_ ->]%lift_inv & Hinit).
  apply bind_inv_ok in Hinit as ([] & w5 & Hmk & Hinit).
  destruct (mkdir_run [[processing; pipeline]] w3) as (r5 & Hmk' & _).
  rewrite Hmk' in Hmk. injection Hmk as <-.
  apply bind_inv_ok in Hinit as ([] & w6 & (q & Hq & ->)%proc_setattr_inv & Hinit).
  cbn [heap root] in Hq, Hinit. rewrite Hself in Hq. injection Hq as <-.
  cbn [_subjects _sessions _prjobj q0] in Hinit.
  set (q1 := mkProcess r.1 r.2 prjobj (Some pipeline)) in Hinit.
  set (w6 := mkWorld _ r5) in Hinit.
  apply bind_inv_ok in Hinit as (prj & ? & [-> (q & Hq & ->)]%proc_getattr_inv & Hscan).
  assert (heap w6 !! length (heap w1) = Some (OProcess q1)) as Hself6.
  { unfold w6. simpl. apply list_lookup_insert_eq. by eapply lookup_lt_Some. }
  rewrite Hself6 in Hq. injection Hq as <-. cbn [_prjobj q1] in Hscan.
  assert (filter_state w6 prjobj p1 (replicate 6 None)) as Hst6.
  { apply (filter_state_store_process (mkWorld (heap w3) r5) _ _ _ _ q0);
      [done|by apply filter_state_root]. }
  clearbody w6.
  split.
  - exists q1. split; [|done].
    pose proof (keeps_scan_prj
                  (λ w0, heap w0 !! length (heap w1) = Some (OProcess q1)) prjobj)
      as Hk.
    specialize (Hk (process_stable _ _ _ _) w6 Hself6).
    by rewrite Hscan in Hk.
  - pose proof (keeps_scan_prj (fresh_slots prjobj) prjobj
                  (fresh_slots_scan_stable _) w6 (ex_intro _ p1 Hst6)) as Hfresh.
    rewrite Hscan in Hfresh. destruct Hfresh as (p' & Hst').
    intros i Hi. eapply slot_value_run; [exact Hst'|].
    by apply lookup_replicate_2.
Qed.

Lemma init_process_witness :
  (∃ q, heap Scenario.w_proc !! Scenario.proc = Some (OProcess q)
        ∧ _prjobj q = Scenario.prj ∧ _pipeline q = Some "P"%string)
  ∧ Project.slot_value Scenario.prj 0 Scenario.w_proc = (Ok None, Scenario.w_proc).
Proof.
  destruct (@init_process Scenario.engine Scenario.prj "P" Scenario.w_AB
              Scenario.w_proc Scenario.proc) as [Hq Hslots].
  - vm_compute. reflexivity.
  - split; [exact Hq|]. apply Hslots. lia.
Defined.

(** ** When [parsing] finds a project empty *)

Lemma parsing_rows root path ds idx top :
  py_index ds idx = Ok top →
  ∃ single cols,
    ∀ d s e, ProjectMethods.parsing root path ds idx = Ok (d, s, e) →
      s = single
      ∧ (e = true ↔ Name "Subject" ∉ cols
                    ∨ ProjectMethods.walk_rows path (os_walk root top) = [])
      ∧ cols = columns
                 (df_rename (ProjectMethods.update_columns idx single)
                    (foldl df_append empty_frame
                       (ProjectMethods.walk_rows path (os_walk root top)))).
Proof.
  intros Htop. unfold ProjectMethods.parsing. rewrite Htop. cbn [obind].
  rewrite foldl_df_append. cbn [columns rows empty_frame app].
  set (rs := ProjectMethods.walk_rows path (os_walk root top)).
  set (cols0 := ∅ ∪ ⋃ (row_labels <$> rs)).
  set (single := if (idx =? 0)%Z then bool_decide (size cols0 = 5)
                 else bool_decide (size cols0 = 6)).
  exists single. eexists. intros d s e Hparse.
  split; [|split; [|reflexivity]].
  - repeat case_match; by simplify_eq.
  - cbn [df_rename columns rows] in *.
    rewrite length_fmap in Hparse.
    destruct (decide (Name "Subject" ∉ _)) as [Hsubj|Hsubj].
    + simplify_eq. split; [by left|done].
    + destruct (decide (length rs = 0)) as [Hlen|Hlen]; simplify_eq.
      * split; [|done]. intros _. right. by destruct rs.
      * split; [done|]. intros [?|Hnil]; [done|]. by rewrite Hnil in Hlen.
Qed.

(** The position of the subject among the folders of a path. *)
Definition subject_depth (idx : Z) : nat := if (idx =? 0)%Z then 1 else 3.

Lemma assoc_subject idx single i :
  (0 ≤ idx < 3)%Z →
  assoc i (ProjectMethods.update_columns idx single) = Some "Subject"%string
  ↔ i = subject_depth idx.
Proof.
  intros Hidx. unfold ProjectMethods.update_columns, subject_depth.
  destruct (idx =? 0)%Z eqn:H0;
    [|destruct (idx =? 1)%Z eqn:H1; [|destruct (idx =? 2)%Z eqn:H2; [|lia]]];
    try destruct single;
    do 6 (destruct i as [|i]; [by split|]); by split.
Qed.

Lemma row_labels_walk path walk l :
  l ∈ ⋃ (row_labels <$> ProjectMethods.walk_rows path walk)
  ↔ ∃ dirpath dirs files,
      (dirpath, dirs, files) ∈ walk ∧ files ≠ []
      ∧ (l = lbl_Filename ∨ l = lbl_Abspath
         ∨ ∃ i, l = Pos i ∧ i < length dirpath).
Proof.
  rewrite elem_of_union_list. unfold ProjectMethods.walk_rows. split.
  - intros (X & HX & Hl). apply list_elem_of_fmap in HX as (r & -> & Hr).
    apply list_elem_of_bind in Hr as ([[dirpath dirs] files] & Hr & Hin).
    apply list_elem_of_bind in Hr as (f & Hr & Hf).
    apply list_elem_of_singleton in Hr as ->.
    exists dirpath, dirs, files. split; [done|].
    split; [intros ->; by apply elem_of_nil in Hf|].
    unfold row_labels in Hl. cbn [cells] in Hl.
    apply elem_of_union in Hl as [Hl|Hl]; [|set_solver].
    right. right. apply elem_of_list_to_set in Hl.
    apply list_elem_of_fmap in Hl as ([l' c] & -> & Hl).
    apply elem_of_lookup_imap in Hl as (i & c' & [= -> ->] & Hi).
    exists i. split; [done|]. by eapply lookup_lt_Some.
  - intros (dirpath & dirs & files & Hin & Hne & Hl).
    destruct files as [|f files]; [done|].
    exists (row_labels
              (mkRow (imap (λ i c, (Pos i, c)) dirpath) f
                 (os_path_join (foldl os_path_join path dirpath) f))).
    split.
    + apply list_elem_of_fmap. eexists. split; [done|].
      apply list_elem_of_bind. exists (dirpath, dirs, f :: files).
      split; [|done]. apply list_elem_of_bind. exists f. split; [|by left].
      by apply list_elem_of_singleton.
    + unfold row_labels. cbn [cells].
      destruct Hl as [->|[->|(i & -> & Hi)]]; [set_solver..|].
      apply elem_of_union. left. apply elem_of_list_to_set, list_elem_of_fmap.
      destruct (lookup_lt_is_Some_2 dirpath i Hi) as [c Hc].
      exists (Pos i, c). split; [done|].
      apply elem_of_lookup_imap. by exists i, c.
Qed.

Lemma subject_column idx single path walk :
  (0 ≤ idx < 3)%Z →
  Name "Subject"
  ∈ columns (df_rename (ProjectMethods.update_columns idx single)
               (foldl df_append empty_frame (ProjectMethods.walk_rows path walk)))
  ↔ ∃ dirpath dirs files,
      (dirpath, dirs, files) ∈ walk ∧ files ≠ []
      ∧ subject_depth idx < length dirpath.
Proof.
  intros Hidx. rewrite foldl_df_append.
  cbn [df_rename columns empty_frame]. rewrite elem_of_map. split.
  - intros (l & Hren & Hl).
    apply elem_of_union in Hl as [Hl|Hl]; [by apply elem_of_empty in Hl|].
    apply row_labels_walk in Hl as (dirpath & dirs & files & Hin & Hne & Hl).
    exists dirpath, dirs, files. split; [done|]. split; [done|].
    destruct Hl as [->|[->|(i & -> & Hi)]]; [done..|].
    simpl in Hren.
    destruct (assoc i (ProjectMethods.update_columns idx single)) as [n|] eqn:Hi';
      [|done].
    injection Hren as <-.
    by apply (assoc_subject idx single i Hidx) in Hi' as <-.
  - intros (dirpath & dirs & files & Hin & Hne & Hlen).
    exists (Pos (subject_depth idx)). split.
    + simpl. by rewrite (proj2 (assoc_subject idx single _ Hidx) eq_refl).
    + apply elem_of_union. right. apply row_labels_walk.
      exists dirpath, dirs, files. split; [done|]. split; [done|]. eauto.
Qed.

(** X18. [parsing] reports the project empty exactly when no file lies below
    the level of the subjects: in the folder of a subject or deeper for
    the data class 0, in the folder of a subject below a pipeline and a
    step or a result for the two others.  Files above that level, in the
    folder of the data class itself say, do not count. *)
Theorem parsing_empty_iff
    (root : list fsnode) (path : string) (ds : list string) (idx : Z)
    (top : string) (d : DataFrame) (single e : bool) :
  (0 ≤ idx < 3)%Z →
  py_index ds idx = Ok top →
  ProjectMethods.parsing root path ds idx = Ok (d, single, e) →
  e = true
  ↔ ∀ dirpath dirs files,
      (dirpath, dirs, files) ∈ os_walk root top → files ≠ [] →
      length dirpath ≤ subject_depth idx.
Proof.
  intros Hidx Htop Hparse.
  destruct (parsing_rows root path ds idx top Htop) as (s & cols & Hall).
  destruct (Hall _ _ _ Hparse) as (-> & -> & ->).
  rewrite subject_column by done. split.
  - intros [Hno|Hnil] dirpath dirs files Hin Hne.
    + apply Nat.nlt_ge. intros Hlt. apply Hno. by exists dirpath, dirs, files.
    + destruct files as [|f files]; [done|].
      assert (mkRow (imap (λ i c, (Pos i, c)) dirpath) f
                (os_path_join (foldl os_path_join path dirpath) f)
              ∈ ProjectMethods.walk_rows path (os_walk root top)) as Hr.
      { apply list_elem_of_bind. exists (dirpath, dirs, f :: files).
        split; [|done]. apply list_elem_of_bind. exists f. split; [|by left].
        by apply list_elem_of_singleton. }
      rewrite Hnil in Hr. by apply elem_of_nil in Hr.
  - intros Hall'. left. intros (dirpath & dirs & files & Hin & Hne & Hlt).
    specialize (Hall' _ _ _ Hin Hne). lia.
Qed.

Lemma parsing_empty_iff_witness :
  ∃ d single,
    ProjectMethods.parsing
      [Dir "Data" [File "x.nii"; Dir "A" []]] "/prj" Scenario.ref_ds 0
    = Ok (d, single, true).
Proof.
  destruct (ProjectMethods.parsing _ "/prj" Scenario.ref_ds 0)
    as [[[d single] e]| |] eqn:Hparse; [|by vm_compute in Hparse..].
  exists d, single. f_equal. f_equal.
  assert (0 ≤ 0 < 3)%Z as Hidx by lia.
  apply (parsing_empty_iff _ "/prj" Scenario.ref_ds 0 "Data" _ _ _ Hidx
           eq_refl Hparse).
  clear Hparse. intros dirpath dirs files Hin Hne. vm_compute in Hin.
  apply elem_of_cons in Hin as [[= -> _ _]|Hin]; [vm_compute; lia|].
  apply elem_of_cons in Hin as [[= _ _ ->]|Hin];
    [exfalso; apply Hne; reflexivity|].
  exfalso. exact (proj1 (elem_of_nil _) Hin).
Defined.

(** ** Scanning again *)

(** The attributes a scan that returned has assigned. *)
Definition scan_empty (d : DataFrame) (single : bool) (p : ProjectObj)
    : ProjectObj :=
  with_empty_project true (with_single_session single (with_df d p)).

Definition scan_full (d : DataFrame) (single : bool) (p : ProjectObj)
    : ProjectObj :=
  with_empty_project false (updated (with_df d (with_single_session single p))).

(** The table of a scan that found files: filtered, then its columns put
    in order when rows are left. *)
Definition scan_table `{RegexEngine} (p : ProjectObj) (d : DataFrame)
    (single : bool) : outcome DataFrame :=
  obind (ProjectMethods.initial_filter d (ds_type p) (ext_filter p)) (λ d2,
    if negb (length (rows d2) =? 0) then
      match ProjectMethods.reorder_columns (dc_idx p) single with
      | Some cols => df_select cols d2
      | None => Raise (KeyError "None")
      end
    else Ok d2).

Definition scan_ok `{RegexEngine} (r : list fsnode) (p p' : ProjectObj) : Prop :=
  ∃ d single e,
    ProjectMethods.parsing r (path p) (ds_type p) (dc_idx p) = Ok (d, single, e)
    ∧ if e then p' = scan_empty d single p
      else ∃ d3, scan_table p d single = Ok d3
                 ∧ update_ready (with_df d3 (with_single_session single p))
                 ∧ p' = scan_full d3 single p.

Lemma scan_prj_run `{RegexEngine} s w p p' :
  points_to w s p → scan_ok (root w) p p' →
  Project.scan_prj s w = (Ok (), upd_world w s p').
Proof.
  intros Hs (d & single & e & Hparse & Hp').
  unfold Project.scan_prj, Project.path_, read_root.
  rewrite !(bind_getattr _ _ _ _ _ _ Hs).
  unfold bind at 1. rewrite Hparse, bind_lift_ok. cbv beta iota.
  exec Hs. destruct e; cbn [negb].
  - exec Hs. by subst p'.
  - destruct Hp' as (d3 & Htab & Hready & ->). unfold scan_table in Htab.
    exec Hs. cbn [df ds_type ext_filter with_df with_single_session].
    destruct (ProjectMethods.initial_filter d (ds_type p) (ext_filter p))
      as [d2| |]; [|done..].
    cbn [obind] in Htab. exec Hs. cbn [df with_df].
    destruct (negb (length (rows d2) =? 0)).
    + exec Hs. cbn [dc_idx single_session with_df with_single_session].
      rewrite Htab. exec Hs.
      erewrite bind_ok;
        [|apply update_run; [by eapply points_to_upd|]].
      * by exec Hs.
      * exact Hready.
    + injection Htab as ->. exec Hs.
      erewrite bind_ok;
        [|apply update_run; [by eapply points_to_upd|]].
      * by exec Hs.
      * exact Hready.
Qed.

Lemma scan_prj_inv `{RegexEngine} s w w' p :
  points_to w s p → Project.scan_prj s w = (Ok (), w') →
  ∃ p', scan_ok (root w) p p' ∧ w' = upd_world w s p'.
Proof.
  intros Hs Hrun. unfold Project.scan_prj, Project.path_, read_root in Hrun.
  rewrite !(bind_getattr _ _ _ _ _ _ Hs) in Hrun.
  unfold bind at 1 in Hrun.
  destruct (ProjectMethods.parsing (root w) (path p) (ds_type p) (dc_idx p))
    as [[[d single] e]| |] eqn:Hparse; [|done..].
  rewrite bind_lift_ok in Hrun. cbv beta iota in Hrun.
  exec_in Hs Hrun. destruct e; cbn [negb] in Hrun.
  - exec_in Hs Hrun. injection Hrun as <-.
    exists (scan_empty d single p). split; [|done]. by exists d, single, true.
  - exec_in Hs Hrun.
    cbn [df ds_type ext_filter with_df with_single_session] in Hrun.
    destruct (ProjectMethods.initial_filter d (ds_type p) (ext_filter p))
      as [d2| |] eqn:Hfil; [|done..].
    exec_in Hs Hrun. cbn [df with_df] in Hrun.
    assert (∃ d3, scan_table p d single = Ok d3
                  ∧ bind (Project.__update s)
                      (λ _, setattr s "_Project__empty_project"
                              (with_empty_project false))
                      (upd_world w s (with_df d3 (with_single_session single p)))
                    = (Ok (), w')) as (d3 & Htab & Hupd).
    { unfold scan_table. rewrite Hfil. cbn [obind].
      destruct (negb (length (rows d2) =? 0)).
      - exec_in Hs Hrun.
        cbn [dc_idx single_session with_df with_single_session] in Hrun.
        destruct (match ProjectMethods.reorder_columns (dc_idx p) single with
                  | Some cols => df_select cols d2
                  | None => Raise (KeyError "None")
                  end) as [d3| |]; [|done..].
        exec_in Hs Hrun. exists d3. split; [done|].
        exact Hrun.
      - exec_in Hs Hrun. exists d2. split; [done|]. exact Hrun. }
    apply bind_inv_ok in Hupd as ([] & w2 & Hupd & Hset).
    pose proof (points_to_upd w s p
                  (with_df d3 (with_single_session single p)) Hs) as Hs3.
    pose proof (update_ok_ready _ _ _ _ _ Hs3 Hupd) as Hready.
    rewrite (update_run _ _ _ Hs3 Hready) in Hupd. injection Hupd as <-.
    rewrite upd_world_twice in Hset.
    erewrite run_setattr in Hset; [|by eapply points_to_upd].
    rewrite upd_world_twice in Hset. injection Hset as <-.
    eexists. split; [|done]. exists d, single, false.
    split; [done|]. by exists d3.
Qed.

Lemma updated_with_df_single d single p :
  with_df d (with_single_session single
    (with_empty_project false
       (updated (with_df d (with_single_session single p)))))
  = with_empty_project false
      (updated (with_df d (with_single_session single p))).
Proof.
  destruct (updated_core (with_df d (with_single_session single p)))
    as (Hdf & Hsingle & _ & _).
  set (q := updated _) in *. clearbody q. destruct q. simpl in *. by subst.
Qed.

Lemma with_empty_updated b p :
  updated (with_empty_project b p) = with_empty_project b (updated p).
Proof.
  unfold updated, all_none, col_vocab. cbn [df single_session dc_idx with_empty_project].
  destruct (length (rows (df p)) =? 0); [done|].
  by destruct (dc_idx p =? 0)%Z, (dc_idx p =? 1)%Z, (dc_idx p =? 2)%Z.
Qed.

Lemma updated_same_core q : core (updated q) = core q.
Proof.
  unfold updated, all_none.
  destruct (length (rows (df q)) =? 0); [done|].
  by destruct (dc_idx q =? 0)%Z, (dc_idx q =? 1)%Z, (dc_idx q =? 2)%Z.
Qed.

Lemma scan_ok_again `{RegexEngine} r p p' : scan_ok r p p' → scan_ok r p' p'.
Proof.
  intros (d & single & e & Hparse & Hp').
  exists d, single, e. destruct e.
  - subst p'. split; [exact Hparse|]. by destruct p.
  - destruct Hp' as (d3 & Htab & Hready & ->).
    destruct (updated_core (with_df d3 (with_single_session single p)))
      as (Hdf & Hsingle & Hidx & _).
    assert (path (scan_full d3 single p) = path p
            ∧ ds_type (scan_full d3 single p) = ds_type p
            ∧ dc_idx (scan_full d3 single p) = dc_idx p
            ∧ ext_filter (scan_full d3 single p) = ext_filter p)
      as (Hpath & Hds & Hdc & Hext).
    { pose proof (updated_same_core
                    (with_df d3 (with_single_session single p))) as Hcore.
      injection Hcore as H1 H2 _ H4 H5.
      split; [exact H1|]. split; [exact H2|]. split; [exact H4|exact H5]. }
    split; [by rewrite Hpath, Hds, Hdc|].
    exists d3. split; [|split].
    + unfold scan_table in *. by rewrite Hds, Hext, Hdc.
    + refine (eq_ind_r update_ready _ (updated_with_df_single d3 single p)).
      unfold update_ready, needs_columns in *.
      cbn [df single_session dc_idx with_empty_project].
      rewrite Hdf, Hsingle, Hidx. exact Hready.
    + refine (eq_ind_r (λ q, _ = with_empty_project false (updated q)) _
                (updated_with_df_single d3 single p)).
      rewrite with_empty_updated, updated_idem. reflexivity.
Qed.

(** X19. A scan that returned has left the project as another scan of the
    same directory finds it: scanning again returns and changes no
    object. *)
Theorem scan_prj_again `{RegexEngine} (s : addr) (w w' : world) :
  Project.scan_prj s w = (Ok (), w') →
  Project.scan_prj s w' = (Ok (), w').
Proof.
  intros Hrun.
  assert (∃ p, points_to w s p) as (p & Hs).
  { unfold Project.scan_prj, Project.path_ in Hrun.
    apply bind_inv_ok in Hrun as (? & ? & (_ & p & Hs & _)%getattr_inv & _).
    eauto. }
  destruct (scan_prj_inv _ _ _ _ Hs Hrun) as (p' & Hok & ->).
  pose proof (points_to_upd w s p p' Hs) as Hs'.
  rewrite (scan_prj_run s _ p' p' Hs'); [|exact (scan_ok_again _ _ _ Hok)].
  by rewrite upd_world_twice.
Qed.

Lemma scan_prj_again_witness :
  let w' := (@Project.scan_prj Scenario.engine Scenario.prj Scenario.w_AB).2 in
  @Project.scan_prj Scenario.engine Scenario.prj w' = (Ok (), w').
Proof.
  intros w'.
  apply (@scan_prj_again Scenario.engine Scenario.prj Scenario.w_AB w').
  vm_compute. reflexivity.
Defined.

(** ** The table a positional call leaves *)

(** The test of one slot on one row: a slot that holds no value lets
    every row pass. *)
Definition slot_test (f : pylist string) (col : string) (r : Row) : bool :=
  if truthy_list f then isin (default [] f) (cell r (Name col)) else true.

(** The rows that pass the four positional slots. *)
Definition passes (idx : Z) (f0 f1 f2 f3 : pylist string) (r : Row) : bool :=
  slot_test f0 "Subject" r
  && slot_test f1 "Session" r
  && slot_test f2 (if (idx =? 0)%Z then "DataType" else "Pipeline") r
  && (if (idx =? 1)%Z then slot_test f3 "Step" r
      else if (idx =? 2)%Z then slot_test f3 "Result" r
      else true).

Lemma df_filter_true d : df_filter (λ _, true) d = d.
Proof. destruct d. unfold df_filter. simpl. by rewrite filter_true. Qed.

Lemma df_filter_and f g d :
  df_filter g (df_filter f d) = df_filter (λ r, f r && g r) d.
Proof. unfold df_filter. simpl. by rewrite filter_filter_and. Qed.

Lemma df_filter_ext f g d : (∀ r, f r = g r) → df_filter f d = df_filter g d.
Proof. intros Hfg. unfold df_filter. f_equal. by apply filter_ext. Qed.

Lemma stage_isin_eq f col d w :
  (truthy_list f = true → Name col ∈ columns d) →
  (if truthy_list f then lift (narrow_isin col (default [] f) d) else ret d) w
  = (Ok (df_filter (slot_test f col) d), w).
Proof.
  intros Hcol. unfold slot_test. destruct (truthy_list f).
  - unfold lift, narrow_isin. by rewrite decide_True by auto.
  - by rewrite df_filter_true.
Qed.

Lemma stage_slot2_eq s w p f d :
  points_to w s p →
  (truthy_list f = true →
   Name (if (dc_idx p =? 0)%Z then "DataType" else "Pipeline") ∈ columns d) →
  (if truthy_list f then
     idx <- getattr s "_Project__dc_idx" dc_idx ;;
     if (idx =? 0)%Z
     then lift (narrow_isin "DataType" (default [] f) d)
     else lift (narrow_isin "Pipeline" (default [] f) d)
   else ret d) w
  = (Ok (df_filter
           (slot_test f (if (dc_idx p =? 0)%Z then "DataType" else "Pipeline"))
           d), w).
Proof.
  intros Hs Hcol. unfold slot_test. destruct (truthy_list f).
  - rewrite (bind_getattr _ _ _ _ _ _ Hs). specialize (Hcol eq_refl).
    unfold lift, narrow_isin.
    destruct (dc_idx p =? 0)%Z; by rewrite decide_True by done.
  - by rewrite df_filter_true.
Qed.

Lemma stage_slot3_eq s w p f d :
  points_to w s p →
  (truthy_list f = true → (dc_idx p =? 1)%Z = true → Name "Step" ∈ columns d) →
  (truthy_list f = true → (dc_idx p =? 1)%Z = false →
   (dc_idx p =? 2)%Z = true → Name "Result" ∈ columns d) →
  (if truthy_list f then
     idx <- getattr s "_Project__dc_idx" dc_idx ;;
     if (idx =? 1)%Z
     then lift (narrow_isin "Step" (default [] f) d)
     else if (idx =? 2)%Z
     then lift (narrow_isin "Result" (default [] f) d)
     else ret d
   else ret d) w
  = (Ok (df_filter
           (λ r, if (dc_idx p =? 1)%Z then slot_test f "Step" r
                 else if (dc_idx p =? 2)%Z then slot_test f "Result" r
                 else true) d), w).
Proof.
  intros Hs Hstep Hres. unfold slot_test. destruct (truthy_list f).
  - rewrite (bind_getattr _ _ _ _ _ _ Hs). unfold lift, narrow_isin.
    destruct (dc_idx p =? 1)%Z; [by rewrite decide_True by auto|].
    destruct (dc_idx p =? 2)%Z; [by rewrite decide_True by auto|].
    by rewrite df_filter_true.
  - destruct (dc_idx p =? 1)%Z, (dc_idx p =? 2)%Z; by rewrite df_filter_true.
Qed.

Lemma df_filter_empty f d : length (rows d) = 0 → df_filter f d = d.
Proof.
  destruct d as [cols rs]. simpl. intros Hrs%length_zero_iff_nil. by subst.
Qed.

(** With no file tag in slots 4 and 5, applying the slots keeps the
    rows that pass the four positional slots. *)
Lemma applying_filters_eq `{RegexEngine} w s p f0 f1 f2 f3 d :
  filter_state w s p [f0; f1; f2; f3; None; None] →
  (length (rows d) ≠ 0 →
   (truthy_list f0 = true → Name "Subject" ∈ columns d)
   ∧ (truthy_list f1 = true → Name "Session" ∈ columns d)
   ∧ (truthy_list f2 = true →
      Name (if (dc_idx p =? 0)%Z then "DataType" else "Pipeline") ∈ columns d)
   ∧ (truthy_list f3 = true → (dc_idx p =? 1)%Z = true →
      Name "Step" ∈ columns d)
   ∧ (truthy_list f3 = true → (dc_idx p =? 1)%Z = false →
      (dc_idx p =? 2)%Z = true → Name "Result" ∈ columns d)) →
  Project.applying_filters s d w
  = (Ok (df_filter (passes (dc_idx p) f0 f1 f2 f3) d), w).
Proof.
  intros Hst Hcols. unfold Project.applying_filters.
  destruct (length (rows d) =? 0) eqn:Hlen; cbn [negb].
  { apply Nat.eqb_eq in Hlen. by rewrite df_filter_empty. }
  apply Nat.eqb_neq in Hlen.
  destruct (Hcols Hlen) as (H0 & H1 & H2 & H3 & H4). clear Hcols.
  rewrite (bind_ok _ _ _ _ _ (slot_value_run w s p _ 0 f0 Hst eq_refl)).
  rewrite (bind_ok _ _ _ _ _ (stage_isin_eq f0 "Subject" d w H0)).
  set (d0 := df_filter (slot_test f0 "Subject") d).
  rewrite (bind_ok _ _ _ _ _ (slot_value_run w s p _ 1 f1 Hst eq_refl)).
  rewrite (bind_ok _ _ _ _ _ (stage_isin_eq f1 "Session" d0 w H1)).
  set (d1 := df_filter (slot_test f1 "Session") d0).
  rewrite (bind_ok _ _ _ _ _ (slot_value_run w s p _ 2 f2 Hst eq_refl)).
  rewrite (bind_ok _ _ _ _ _ (stage_slot2_eq s w p f2 d1 (proj1 Hst) H2)).
  set (d2 := df_filter _ d1).
  rewrite (bind_ok _ _ _ _ _ (slot_value_run w s p _ 3 f3 Hst eq_refl)).
  rewrite (bind_ok _ _ _ _ _ (stage_slot3_eq s w p f3 d2 (proj1 Hst) H3 H4)).
  subst d0 d1 d2.
  rewrite (bind_ok _ _ _ _ _ (slot_value_run w s p _ 4 None Hst eq_refl)).
  rewrite bind_ret.
  rewrite (bind_ok _ _ _ _ _ (slot_value_run w s p _ 5 None Hst eq_refl)).
  rewrite bind_ret. unfold ret. rewrite !df_filter_and.
  do 2 f_equal. apply df_filter_ext. intros r. unfold passes.
  by rewrite !andb_assoc.
Qed.

(** X20. A call of [set_filters] with positional tokens only, each of them
    found in some vocabulary: the table it leaves holds the rows of the
    rescanned table that pass every slot that received a token (subject
    among the subject tokens, and so on), in their order, and the
    vocabularies are those of that table. *)
Theorem set_filters_table `{RegexEngine}
    (s : addr) (args : list string) (w0 w : world) (p0 p : ProjectObj) :
  points_to w0 s p0 →
  Project.reset_filters s (Project.pyval_of_list (ext_filter p0)) w0
  = (Ok (), w) →
  points_to w s p →
  (0 ≤ dc_idx p < 3)%Z →
  args ≠ [] →
  (∀ a, a ∈ args → ∃ i V, level_vocab p i = Some V ∧ Some a ∈ V) →
  ∃ w',
    Project.set_filters s args [] w0 = (Ok (), w')
    ∧ points_to w' s
        (updated
           (with_df
              (df_filter
                 (passes (dc_idx p) (planned p args 0) (planned p args 1)
                    (planned p args 2) (planned p args 3)) (df p)) p)).
Proof.
  intros Hs0 Hreset Hs Hdc Hargs Hall.
  destruct (reset_filters_state _ _ _ _ _ Hreset Hs Hdc) as (Hst & Hvoc & Hready).
  destruct (set_filters_args_run w s p args Hst Hvoc Hargs)
    as (wa & Hrun & Hsta & _).
  assert ((length (List.filter (unmatched p) args) =? 0) = true) as Hlen.
  { apply length_filter_zero. intros a Ha.
    destruct (unmatched p a) eqn:Hu; [|done].
    destruct (Hall a Ha) as (i & V & Hi & Hin).
    by destruct (proj1 (unmatched_spec p a) Hu i V Hi). }
  rewrite Hlen in Hrun.
  pose proof (applying_filters_eq wa s p _ _ _ _ (df p) Hsta
                (λ Hrows, planned_columns p args Hdc (Hready Hrows))) as Happ.
  set (d' := df_filter _ (df p)) in *.
  assert (update_ready (with_df d' p)) as Hready'.
  { intros Hrows c Hc. cbn [df with_df columns] in *.
    apply Hready; [|exact Hc].
    intros Hzero. apply Hrows. unfold d', df_filter. cbn [rows].
    apply length_zero_iff_nil in Hzero. by rewrite Hzero. }
  eexists. split.
  - unfold Project.set_filters, Project.ext_.
    rewrite !bind_assoc, (bind_getattr _ _ _ _ _ _ Hs0).
    rewrite (bind_ok _ _ _ _ _ Hreset).
    destruct args as [|a args']; [done|].
    rewrite (bind_ok _ _ _ _ _ Hrun).
    rewrite (bind_getattr _ _ _ _ _ _ (proj1 Hsta)).
    rewrite (bind_ok _ _ _ _ _ Happ).
    rewrite (bind_setattr _ _ _ _ _ _ (proj1 Hsta)).
    apply update_run; [by eapply points_to_upd, (proj1 Hsta)|exact Hready'].
  - rewrite upd_world_twice. by eapply points_to_upd, (proj1 Hsta).
Qed.

Lemma set_filters_table_witness :
  ∃ w' p', @Project.set_filters Scenario.engine Scenario.prj ["A"] []
             Scenario.w_AB = (Ok (), w')
           ∧ points_to w' Scenario.prj p'
           ∧ Filename <$> rows (df p') = ["a.nii"; "a_mask.nii"].
Proof.
  assert (∃ p0, points_to Scenario.w_AB Scenario.prj p0
             ∧ ext_filter p0 = Some Scenario.imgext) as (p0 & Hs0 & Hext).
  { vm_compute. eexists. split; reflexivity. }
  pose (w := (@Project.reset_filters Scenario.engine Scenario.prj
                (VList Scenario.imgext) Scenario.w_AB).2).
  destruct (Scenario.project_at w Scenario.prj) as [p|] eqn:Hp;
    [|subst w; by vm_compute in Hp].
  assert (dc_idx p = 0%Z
          ∧ level_vocab p 0 = Some [Some "A"; Some "B"]
          ∧ Filename
              <$> rows (df (updated
                   (with_df
                      (df_filter
                         (passes (dc_idx p) (planned p ["A"] 0)
                            (planned p ["A"] 1) (planned p ["A"] 2)
                            (planned p ["A"] 3)) (df p)) p)))
            = ["a.nii"; "a_mask.nii"])%string
    as (Hdc & Hsubj & Hfiles).
  { subst w. vm_compute in Hp. injection Hp as <-.
    vm_compute. split; [reflexivity|]. split; reflexivity. }
  apply project_at_points_to in Hp as Hs.
  destruct (@set_filters_table Scenario.engine Scenario.prj ["A"]
              Scenario.w_AB w p0 p Hs0) as (w' & Hrun & Hs').
  - rewrite Hext. vm_compute. reflexivity.
  - exact Hs.
  - rewrite Hdc. lia.
  - discriminate.
  - intros a ->%list_elem_of_singleton. exists 0, [Some "A"; Some "B"].
    split; [exact Hsubj|]. left.
  - exists w'. eexists. split; [exact Hrun|]. split; [exact Hs'|exact Hfiles].
Defined.

(** ** Splitting paths *)

Lemma py_split_nonempty c s : py_split c s ≠ [].
Proof.
  destruct s as [|d s]; simpl; [done|].
  destruct (Ascii.eqb d c); [done|]. by destruct (py_split c s).
Qed.

Lemma py_split_join c s : py_join (String c "") (py_split c s) = s.
Proof.
  unfold py_join. induction s as [|d s IH]; [done|]. cbn [py_split].
  pose proof (py_split_nonempty c s) as Hne.
  destruct (py_split c s) as [|h t]; [done|].
  destruct (Ascii.eqb d c) eqn:Hd.
  - apply Ascii.eqb_eq in Hd as ->.
    change (String.concat (String c "") ("" :: h :: t))%string
      with (String c (String.concat (String c "") (h :: t))).
    by rewrite IH.
  - rewrite <-IH. simpl. by destruct t.
Qed.

Lemma py_split_no_sep c s :
  Forall (λ comp, has_char c comp = false) (py_split c s).
Proof.
  induction s as [|d s IH]; simpl; [by repeat constructor|].
  destruct (Ascii.eqb d c) eqn:Hd; [by constructor|].
  destruct (py_split c s) as [|h t].
  { constructor; [|constructor]. simpl. by rewrite Hd. }
  apply Forall_cons in IH as [Hh Ht]. constructor; [|done].
  simpl. by rewrite Hd.
Qed.

(** X21. [path_splitter] always returns at least one component, no component
    holds a separator, and joining the components with the separator
    gives back the path without its leading and trailing separators. *)
Theorem path_splitter_join (path : string) :
  SystemMethods.path_splitter path ≠ []
  ∧ Forall (λ comp, has_char "/" comp = false) (SystemMethods.path_splitter path)
  ∧ py_join "/" (SystemMethods.path_splitter path) = strip "/" path.
Proof.
  unfold SystemMethods.path_splitter. split; [apply py_split_nonempty|].
  split; [apply py_split_no_sep|apply py_split_join].
Qed.

(** A string of [n] separators. *)
Definition seps (c : ascii) (n : nat) : string := Nat.iter n (String c) "".

Lemma py_split_no_sep_id c s : has_char c s = false → py_split c s = [s].
Proof.
  induction s as [|d s IH]; simpl; [done|].
  intros [Hd Hs]%orb_false_iff. rewrite Hd, IH; done.
Qed.

Lemma py_split_app c s t h l :
  has_char c s = false → py_split c t = h :: l →
  py_split c (s +:+ t) = (s +:+ h) :: l.
Proof.
  intros Hs Ht. induction s as [|d s IH]; [done|]. cbn [has_char] in Hs.
  apply orb_false_iff in Hs as [Hd Hs].
  change (py_split c (String d (s +:+ t)) = String d (s +:+ h) :: l).
  cbn [py_split]. by rewrite Hd, (IH Hs).
Qed.

Lemma append_empty_r s : s +:+ "" = s.
Proof.
  induction s as [|d s IH]; [done|].
  change (String d (s +:+ "") = String d s). by rewrite IH.
Qed.

Lemma py_split_concat c comps :
  comps ≠ [] → Forall (λ comp, has_char c comp = false) comps →
  py_split c (String.concat (String c "") comps) = comps.
Proof.
  induction comps as [|h comps IH]; [done|]. intros _ [Hh Hall]%Forall_cons.
  destruct comps as [|h' comps].
  - simpl. by apply py_split_no_sep_id.
  - change (String.concat (String c "") (h :: h' :: comps))
      with (h +:+ String c (String.concat (String c "") (h' :: comps))).
    erewrite py_split_app; [|done|].
    2:{ cbn [py_split]. rewrite Ascii.eqb_refl, IH by done. reflexivity. }
    by rewrite append_empty_r.
Qed.

Lemma lstrip_seps c n s d :
  Ascii.eqb d c = false → lstrip c (seps c n +:+ String d s) = String d s.
Proof.
  intros Hd. induction n as [|n IH]; [simpl; by rewrite Hd|].
  change (lstrip c (String c (seps c n +:+ String d s)) = String d s).
  cbn [lstrip]. by rewrite Ascii.eqb_refl.
Qed.

Lemma rstrip_seps c n : rstrip c (seps c n) = "".
Proof.
  induction n as [|n IH]; simpl; [done|]. by rewrite IH, Ascii.eqb_refl.
Qed.

Lemma rstrip_app_seps c s n : rstrip c (s +:+ seps c n) = rstrip c s.
Proof.
  induction s as [|d s IH]; [apply rstrip_seps|].
  change (rstrip c (String d (s +:+ seps c n)) = rstrip c (String d s)).
  cbn [rstrip]. by rewrite IH.
Qed.

Lemma rstrip_no_sep c s : has_char c s = false → rstrip c s = s.
Proof.
  induction s as [|d s IH]; simpl; [done|].
  intros [Hd Hs]%orb_false_iff. rewrite (IH Hs), Hd. by destruct s.
Qed.

Lemma rstrip_app c s t :
  rstrip c t ≠ "" → rstrip c (s +:+ t) = s +:+ rstrip c t.
Proof.
  intros Ht. induction s as [|d s IH]; [done|].
  change (rstrip c (String d (s +:+ t)) = String d (s +:+ rstrip c t)).
  cbn [rstrip]. rewrite IH.
  destruct (s +:+ rstrip c t) as [|e u] eqn:Heq; [|done].
  destruct s as [|e s]; [|done]. by destruct Ht.
Qed.

Lemma rstrip_concat c comps :
  Forall (λ comp, has_char c comp = false) comps →
  last comps ≠ Some ""%string → comps ≠ [] →
  rstrip c (String.concat (String c "") comps)
  = String.concat (String c "") comps.
Proof.
  induction comps as [|h comps IH]; [done|].
  intros [Hh Hall]%Forall_cons Hlast _. destruct comps as [|h' comps].
  - simpl. by apply rstrip_no_sep.
  - change (String.concat (String c "") (h :: h' :: comps))
      with (h +:+ String c (String.concat (String c "") (h' :: comps))).
    assert (rstrip c (String.concat (String c "") (h' :: comps))
            = String.concat (String c "") (h' :: comps)) as Hrec
      by (by apply IH).
    assert (String.concat (String c "") (h' :: comps) ≠ "") as Hne.
    { clear -Hlast Hall. revert h' Hlast Hall.
      induction comps as [|h'' comps IH]; intros h' Hlast Hall.
      - simpl in *. congruence.
      - change (String.concat (String c "") (h' :: h'' :: comps))
          with (h' +:+ String c (String.concat (String c "") (h'' :: comps))).
        by destruct h'. }
    assert (rstrip c (String c (String.concat (String c "") (h' :: comps)))
            = String c (String.concat (String c "") (h' :: comps))) as Hstep.
    { cbn [rstrip]. rewrite Hrec.
      by destruct (String.concat (String c "") (h' :: comps)). }
    rewrite rstrip_app; by rewrite Hstep.
Qed.

(** X22. Splitting what was joined: for components without a separator, the
    first and the last not empty, [path_splitter] returns the components
    of the path that joins them, however many separators lead and trail
    it. *)
Theorem path_splitter_components (n m : nat) (comps : list string) :
  Forall (λ comp, has_char "/" comp = false) comps →
  head comps ≠ Some ""%string → last comps ≠ Some ""%string →
  comps ≠ [] →
  SystemMethods.path_splitter (seps "/" n +:+ py_join "/" comps +:+ seps "/" m)
  = comps.
Proof.
  intros Hall Hhead Hlast Hne. unfold SystemMethods.path_splitter, strip, py_join.
  assert (∃ d s, String.concat "/" comps = String d s
                 ∧ Ascii.eqb d "/" = false) as (d & s & Hds & Hd).
  { destruct comps as [|h comps]; [done|]. apply Forall_cons in Hall as [Hh _].
    destruct h as [|d h]; [done|]. simpl in Hh.
    apply orb_false_iff in Hh as [Hd _]. exists d.
    destruct comps; simpl; eauto. }
  rewrite Hds. change (String d s +:+ seps "/" m) with (String d (s +:+ seps "/" m)).
  rewrite lstrip_seps by done.
  change (String d (s +:+ seps "/" m)) with (String d s +:+ seps "/" m).
  rewrite rstrip_app_seps, <-Hds, rstrip_concat by done.
  by apply py_split_concat.
Qed.

Lemma path_splitter_components_witness :
  SystemMethods.path_splitter "/prj/Data/A/" = ["prj"; "Data"; "A"].
Proof.
  apply (path_splitter_components 1 1 ["prj"; "Data"; "A"]);
    [by repeat constructor|done..].
Defined.

(** ** Keyword arguments of the viewers *)

Definition kwarg_or_false (kwargs : list (string * pyval)) (key : string)
    : pyval :=
  default (VBool false) (assoc key kwargs).

Lemma check_invert_loop kwargs ks x y z :
  (∀ k, k ∈ ks → is_Some (assoc k kwargs)) →
  foldl (λ acc arg,
           obind acc (λ '(invertx, inverty, invertz),
           obind (if decide (arg = "invertx")
                  then InternalMethods.dict_getitem kwargs arg
                  else Ok invertx) (λ invertx,
           obind (if decide (arg = "inverty")
                  then InternalMethods.dict_getitem kwargs arg
                  else Ok inverty) (λ inverty,
           obind (if decide (arg = "invertz")
                  then InternalMethods.dict_getitem kwargs arg
                  else Ok invertz) (λ invertz,
           Ok (invertx, inverty, invertz))))))
        (Ok (x, y, z)) ks
  = Ok (if bool_decide ("invertx"%string ∈ ks)
        then kwarg_or_false kwargs "invertx" else x,
        if bool_decide ("inverty"%string ∈ ks)
        then kwarg_or_false kwargs "inverty" else y,
        if bool_decide ("invertz"%string ∈ ks)
        then kwarg_or_false kwargs "invertz" else z).
Proof.
  revert x y z. induction ks as [|k ks IH]; intros x y z Hks; [done|].
  cbn [foldl obind].
  assert (∀ key, k = key →
            InternalMethods.dict_getitem kwargs k
            = Ok (kwarg_or_false kwargs key)) as Hget.
  { intros key <-. unfold InternalMethods.dict_getitem, kwarg_or_false.
    destruct (Hks k) as [v ->]; [by left|done]. }
  assert (∀ (key : string) (a b : pyval),
            (if bool_decide (key ∈ k :: ks) then a
             else b)
            = if bool_decide (key ∈ ks) then a
              else if decide (k = key) then a else b) as Hcons.
  { intros key a b. destruct (decide (k = key)) as [->|Hne].
    - rewrite bool_decide_true by left.
      destruct (bool_decide (key ∈ ks)); reflexivity.
    - destruct (bool_decide (key ∈ ks)) eqn:Hin.
      + apply bool_decide_eq_true in Hin. by rewrite bool_decide_true by (by right).
      + apply bool_decide_eq_false in Hin.
        rewrite bool_decide_false; [done|].
        intros [?|?]%elem_of_cons; done. }
  rewrite !Hcons.
  destruct (decide (k = "invertx")) as [Hx|Hx];
    destruct (decide (k = "inverty")) as [Hy|Hy];
    destruct (decide (k = "invertz")) as [Hz|Hz];
    rewrite ?(Hget _ Hx), ?(Hget _ Hy), ?(Hget _ Hz); cbn [obind].
  all: rewrite IH; [|intros k' Hk'; apply Hks; by right].
  all: first [reflexivity | congruence].
Qed.

Lemma assoc_keys {V} (kwargs : list (string * V)) k :
  k ∈ kwargs.*1 → is_Some (assoc k kwargs).
Proof.
  induction kwargs as [|[k' v] kwargs IH]; simpl; [by intros ?%elem_of_nil|].
  intros Hk. destruct (decide (k = k')); [done|].
  apply elem_of_cons in Hk as [?|Hk]; [done|by apply IH].
Qed.

(** X23. [check_invert] never raises: each of the three flags is the value
    the keyword arguments give to its key, or [False] when the key is
    absent; every other keyword is passed over, and the order of the
    keywords is of no account. *)
Theorem check_invert_lookup (kwargs : list (string * pyval)) :
  InternalMethods.check_invert kwargs
  = Ok (kwarg_or_false kwargs "invertx", kwarg_or_false kwargs "inverty",
        kwarg_or_false kwargs "invertz").
Proof.
  unfold InternalMethods.check_invert.
  destruct kwargs as [|kv kwargs]; [done|].
  rewrite check_invert_loop by apply assoc_keys.
  assert (∀ key, (if bool_decide (key ∈ (kv :: kwargs).*1)
                  then kwarg_or_false (kv :: kwargs) key else VBool false)
                 = kwarg_or_false (kv :: kwargs) key) as Hkey.
  { intros key. destruct (bool_decide _) eqn:Hin; [done|].
    apply bool_decide_eq_false in Hin. unfold kwarg_or_false.
    destruct (assoc key (kv :: kwargs)) as [v|] eqn:Hv; [|done].
    destruct Hin. clear -Hv. induction (kv :: kwargs) as [|[k' v'] l IH];
      simpl in *; [done|].
    destruct (decide (key = k')) as [->|]; [by left|right; by apply IH]. }
  by rewrite !Hkey.
Qed.

(** X24. [check_input_dataclass] never raises: a path that exists is of data
    class 1 and stands for its last component, which holds no separator;
    any other string is of data class 0 and is handed back as it is. *)
Theorem check_input_dataclass_total (exists_ : string → bool)
    (datatype : string) :
  ∃ name,
    InternalMethods.check_input_dataclass exists_ datatype
    = Ok (if exists_ datatype then 1%Z else 0%Z, name)
    ∧ if exists_ datatype
      then has_char "/" name = false
           ∧ last (SystemMethods.path_splitter datatype) = Some name
      else name = datatype.
Proof.
  unfold InternalMethods.check_input_dataclass.
  destruct (exists_ datatype); [|by exists datatype].
  pose proof (py_split_nonempty "/" (strip "/" datatype)) as Hne.
  pose proof (py_split_no_sep "/" (strip "/" datatype)) as Hall.
  change (py_split "/" (strip "/" datatype))
    with (SystemMethods.path_splitter datatype) in Hne, Hall.
  destruct (last (SystemMethods.path_splitter datatype)) as [name|] eqn:Hlast.
  2:{ apply last_None in Hlast. done. }
  exists name.
  assert (py_index (SystemMethods.path_splitter datatype) (-1) = Ok name) as ->.
  { unfold py_index. cbv zeta.
    destruct (SystemMethods.path_splitter datatype) as [|h l] eqn:Hl; [done|].
    replace (-1 <? 0)%Z with true by done.
    replace (-1 + Z.of_nat (length (h :: l)) <? 0)%Z with false
      by (symmetry; apply Z.ltb_ge; simpl; lia).
    replace (Z.to_nat (-1 + Z.of_nat (length (h :: l)))) with (length l)
      by (simpl; lia).
    rewrite last_lookup in Hlast. simpl in Hlast. by rewrite Hlast. }
  split; [done|]. split; [|done].
  rewrite Forall_forall in Hall. apply Hall.
  rewrite last_lookup in Hlast. by eapply list_elem_of_lookup_2.
Qed.

(** ** Stripping extensions *)

Lemma rfind_from_bound c s i j :
  rfind_from c s i = Some j → i ≤ j ∧ j < i + String.length s.
Proof.
  revert i. induction s as [|d s IH]; intros i; cbn [rfind_from String.length];
    [done|].
  destruct (rfind_from c s (S i)) as [k|] eqn:Hk.
  - intros [= <-]. apply IH in Hk. lia.
  - destruct (Ascii.eqb d c); [|done]. intros [= <-]. lia.
Qed.

Lemma substring_prefix n s : String.prefix (String.substring 0 n s) s = true.
Proof.
  revert n. induction s as [|d s IH]; intros [|n]; cbn; try done.
  destruct (ascii_dec d d); [apply IH|done].
Qed.

Lemma substring_length n s :
  n ≤ String.length s → String.length (String.substring 0 n s) = n.
Proof.
  revert n. induction s as [|d s IH]; intros [|n]; cbn; try done; try lia.
  intros Hn. rewrite IH; lia.
Qed.

Lemma prefix_length a b :
  String.prefix a b = true → String.length a ≤ String.length b.
Proof.
  revert b. induction a as [|c a IH]; intros [|d b]; cbn; try done; try lia.
  destruct (ascii_dec c d); [|done]. intros Hp%IH. lia.
Qed.

Lemma prefix_trans a b c :
  String.prefix a b = true → String.prefix b c = true →
  String.prefix a c = true.
Proof.
  revert b c. induction a as [|x a IH]; intros [|y b] [|z c]; cbn; try done.
  destruct (ascii_dec x y) as [->|]; [|done].
  destruct (ascii_dec y z) as [->|]; [|done].
  destruct (ascii_dec z z); [|done]. apply IH.
Qed.

Lemma prefix_same a : String.prefix a a = true.
Proof. induction a as [|c a IH]; cbn; [done|]. by destruct (ascii_dec c c). Qed.

(** [splitext] strips nothing or leaves a strictly shorter prefix. *)
Lemma splitext_root p :
  (splitext p).1 = p
  ∨ (String.prefix (splitext p).1 p = true
     ∧ String.length (splitext p).1 < String.length p).
Proof.
  unfold splitext. destruct (rfind "." p) as [dotIndex|] eqn:Hdot; [|by left].
  cbv zeta. destruct (_ && _); [|by left]. right. cbn [fst].
  apply rfind_from_bound in Hdot. split; [apply substring_prefix|].
  rewrite substring_length; lia.
Qed.

Lemma splitext_prefix p : String.prefix (splitext p).1 p = true.
Proof.
  destruct (splitext_root p) as [->|[? _]]; [apply prefix_same|done].
Qed.

Lemma splitnifti_stuck path :
  str_in ".nii" path = true → (splitext path).1 = path →
  ∀ fuel, InternalMethods.splitnifti fuel path = None.
Proof.
  intros Hin Hfix fuel. induction fuel as [|fuel IH]; [done|].
  cbn [InternalMethods.splitnifti]. by rewrite Hin, Hfix.
Qed.

Lemma splitnifti_none fuel : ∀ path,
  String.length path < fuel →
  InternalMethods.splitnifti fuel path = None →
  ∀ fuel', InternalMethods.splitnifti fuel' path = None.
Proof.
  induction fuel as [|fuel IH]; intros path Hlen Hnone; [lia|].
  cbn [InternalMethods.splitnifti] in Hnone.
  destruct (str_in ".nii" path) eqn:Hin; [|done].
  destruct (splitext_root path) as [Hfix|[_ Hlt]];
    [by apply splitnifti_stuck|].
  intros [|fuel']; [done|]. cbn [InternalMethods.splitnifti]. rewrite Hin.
  apply IH; [lia|done].
Qed.

(** X25. The result of [remove_nifti_ext] is a prefix of the path, and no
    longer than the path without its last extension. *)
Theorem remove_nifti_ext_prefix (path : string) :
  String.prefix (InternalMethods.remove_nifti_ext path) (splitext path).1 = true
  ∧ String.prefix (InternalMethods.remove_nifti_ext path) path = true.
Proof.
  unfold InternalMethods.remove_nifti_ext. cbv zeta.
  destruct (str_in ".nii" (splitext path).1); split.
  - apply splitext_prefix.
  - eapply prefix_trans; apply splitext_prefix.
  - apply prefix_same.
  - apply splitext_prefix.
Qed.

(** X26. When the loop of [splitnifti] ends, its result is a prefix of the
    path in which [.nii] is not found any more. *)
Theorem splitnifti_result (fuel : nat) (path r : string) :
  InternalMethods.splitnifti fuel path = Some r →
  str_in ".nii" r = false ∧ String.prefix r path = true.
Proof.
  revert path. induction fuel as [|fuel IH]; intros path; [done|].
  cbn [InternalMethods.splitnifti].
  destruct (str_in ".nii" path) eqn:Hin.
  - intros [Hr Hp]%IH. split; [done|].
    eapply prefix_trans; [exact Hp|apply splitext_prefix].
  - intros [= <-]. split; [done|apply prefix_same].
Qed.

Lemma splitnifti_result_witness :
  InternalMethods.splitnifti 3 "/prj/Data/A/sub.nii.gz" = Some "/prj/Data/A/sub"%string
  ∧ str_in ".nii" "/prj/Data/A/sub" = false
  ∧ String.prefix "/prj/Data/A/sub" "/prj/Data/A/sub.nii.gz" = true.
Proof.
  split; [reflexivity|].
  exact (splitnifti_result 3 "/prj/Data/A/sub.nii.gz" "/prj/Data/A/sub" eq_refl).
Defined.

(** X27. The loop of [splitnifti] never ends on a path in which [.nii] is
    found and from which [splitext] strips nothing, such as a file
    without extension in a folder named with [.nii]. *)
Theorem splitnifti_never_returns (path : string) :
  str_in ".nii" path = true → (splitext path).1 = path →
  ∀ fuel, InternalMethods.splitnifti fuel path = None.
Proof.
  intros Hin Hfix fuel. induction fuel as [|fuel IH]; [reflexivity|].
  cbn [InternalMethods.splitnifti]. rewrite Hin, Hfix. exact IH.
Qed.

Lemma splitnifti_never_returns_witness :
  str_in ".nii" "/prj/a.nii/b" = true
  ∧ ∀ fuel, InternalMethods.splitnifti fuel "/prj/a.nii/b" = None.
Proof.
  split; [reflexivity|].
  exact (splitnifti_never_returns "/prj/a.nii/b" eq_refl eq_refl).
Defined.

(** X28. The loop of [splitnifti] ends within as many rounds as the path has
    characters, or it never ends. *)
Theorem splitnifti_ends_or_never (path : string) :
  (∃ r, InternalMethods.splitnifti (S (String.length path)) path = Some r)
  ∨ (∀ fuel, InternalMethods.splitnifti fuel path = None).
Proof.
  destruct (InternalMethods.splitnifti (S (String.length path)) path)
    as [r|] eqn:Hrun; [left; by exists r|right].
  eapply splitnifti_none; [|exact Hrun]. lia.
Qed.

(** ** Where [mkdir] makes a directory *)













(** ** A query view and its parent *)

(** What [__update], [scan_prj] and the filters compute does not depend on
    which list object the attribute [__filters] refers to. *)
Lemma with_filters_same p : with_filters (filters p) p = p.
Proof. by destruct p. Qed.

Lemma updated_with_filters b p :
  updated (with_filters b p) = with_filters b (updated p).
Proof.
  unfold updated, all_none. cbn [df with_filters dc_idx single_session].
  destruct (length (rows (df p)) =? 0); [done|].
  destruct (dc_idx p =? 0)%Z; [done|].
  destruct (dc_idx p =? 1)%Z; [done|].
  by destruct (dc_idx p =? 2)%Z.
Qed.

Lemma scan_ok_with_filters `{RegexEngine} b r p p' :
  scan_ok r p p' → scan_ok r (with_filters b p) (with_filters b p').
Proof.
  intros (d & single & e & Hparse & Hp'). exists d, single, e.
  split; [exact Hparse|]. destruct e.
  - by subst p'.
  - destruct Hp' as (d3 & Htab & Hready & ->). exists d3.
    split; [exact Htab|]. split; [exact Hready|].
    unfold scan_full.
    change (with_df d3 (with_single_session single (with_filters b p)))
      with (with_filters b (with_df d3 (with_single_session single p))).
    by rewrite updated_with_filters.
Qed.

(** [reset_filters] returns on the one project exactly as on the other,
    and leaves the two alike. *)
Lemma reset_filters_sim `{RegexEngine} s t ext w v p b w' :
  points_to w s p → points_to v t (with_filters b p) → root v = root w →
  Project.reset_filters s ext w = (Ok (), w') →
  ∃ p' v' b',
    points_to w' s p'
    ∧ Project.reset_filters t ext v = (Ok (), v')
    ∧ points_to v' t (with_filters b' p')
    ∧ root w' = root w ∧ root v' = root v.
Proof.
  intros Hs Ht Hroot Hrun. unfold Project.reset_filters in *.
  unfold bind at 1, alloc at 1 in Hrun. unfold bind at 1, alloc at 1.
  set (w1 := mkWorld (heap w ++ _) (root w)) in Hrun.
  set (v1 := mkWorld (heap v ++ _) (root v)).
  assert (points_to w1 s p) as Hs1 by (by apply lookup_app_l_Some).
  assert (points_to v1 t (with_filters b p)) as Ht1
    by (by apply lookup_app_l_Some).
  set (fa := length (heap w)) in *. set (fb := length (heap v)) in *.
  set (e := if negb (truthy ext) then VList (img_ext p) else ext).
  set (pb := with__ext (Some e) (with_filters fa p)).
  assert (bind (Project.scan_prj s) (λ _, Project.__update s)
            (upd_world w1 s pb) = (Ok (), w')) as Hrun'.
  { revert Hrun. unfold e, pb. destruct (negb (truthy ext)); exec Hs1; done. }
  assert (∀ k : unit → M unit,
            bind (setattr t "_Project__filters" (with_filters fb))
              (λ _, bind
                 (if negb (truthy ext)
                  then bind (getattr t "img_ext" img_ext)
                         (λ e0, setattr t "_ext" (with__ext (Some (VList e0))))
                  else setattr t "_ext" (with__ext (Some ext))) k) v1
            = k () (upd_world v1 t (with_filters fb pb))) as Hfwd.
  { intros k. unfold e, pb. destruct (negb (truthy ext)); exec Ht1; done. }
  clear Hrun.
  assert (points_to (upd_world w1 s pb) s pb) as Hs2 by (by eapply points_to_upd).
  assert (points_to (upd_world v1 t (with_filters fb pb)) t (with_filters fb pb))
    as Ht2 by (by eapply points_to_upd).
  apply bind_inv_ok in Hrun' as ([] & w3 & Hscan & Hupd).
  destruct (scan_prj_inv _ _ _ _ Hs2 Hscan) as (pc & Hok & ->).
  rewrite upd_world_twice in Hupd.
  assert (points_to (upd_world w1 s pc) s pc) as Hs3 by (by eapply points_to_upd).
  pose proof (update_ok_ready _ _ _ _ _ Hs3 Hupd) as Hready.
  rewrite (update_run _ _ _ Hs3 Hready), upd_world_twice in Hupd.
  injection Hupd as <-.
  exists (updated pc), (upd_world v1 t (updated (with_filters fb pc))), fb.
  split; [by eapply points_to_upd|]. split; [|split; [|done]].
  - etrans; [apply (Hfwd (λ _, bind (Project.scan_prj t)
                                  (λ _, Project.__update t)))|].
    erewrite bind_ok.
    2:{ apply (scan_prj_run t _ _ (with_filters fb pc) Ht2).
        cbn [upd_world root v1 w1] in *. rewrite Hroot.
        by apply scan_ok_with_filters. }
    rewrite upd_world_twice.
    rewrite (update_run t _ (with_filters fb pc));
      [|by eapply points_to_upd|exact Hready].
    rewrite upd_world_twice. reflexivity.
  - rewrite updated_with_filters. by eapply points_to_upd.
Qed.

Lemma update_sim `{RegexEngine} s t w v p b w' :
  points_to w s p → points_to v t (with_filters b p) →
  Project.__update s w = (Ok (), w') →
  w' = upd_world w s (updated p)
  ∧ Project.__update t v = (Ok (), upd_world v t (with_filters b (updated p))).
Proof.
  intros Hs Ht Hupd.
  pose proof (update_ok_ready _ _ _ _ _ Hs Hupd) as Hready.
  rewrite (update_run _ _ _ Hs Hready) in Hupd. injection Hupd as <-.
  split; [done|]. rewrite <-updated_with_filters.
  by apply update_run.
Qed.

Lemma dataclass_set_sim `{RegexEngine} s t idx w v p b w' :
  points_to w s p → points_to v t (with_filters b p) → root v = root w →
  Project.dataclass_set s idx w = (Ok (), w') →
  ∃ p' v' b',
    points_to w' s p'
    ∧ Project.dataclass_set t idx v = (Ok (), v')
    ∧ points_to v' t (with_filters b' p')
    ∧ root w' = root w ∧ root v' = root v ∧ dc_idx p' = idx.
Proof.
  intros Hs Ht Hroot Hrun.
  destruct (dataclass_set_ok _ _ _ _ _ Hs Hrun) as (Hidx & p'' & Hs'' & Hcore & _).
  unfold Project.dataclass_set in *. rewrite decide_True in Hrun |- * by done.
  rewrite (bind_setattr _ _ _ _ _ _ Hs) in Hrun.
  rewrite (bind_setattr _ _ _ _ _ _ Ht).
  apply bind_inv_ok in Hrun as ([] & w2 & Hreset & Hupd).
  destruct (reset_filters_sim s t VNone (upd_world w s (with_dc_idx idx p))
              (upd_world v t (with_dc_idx idx (with_filters b p)))
              (with_dc_idx idx p) b w2)
    as (p1 & v2 & b1 & Hs1 & Hreset' & Ht1 & Hr1 & Hr2);
    [by eapply points_to_upd|by eapply points_to_upd|done|exact Hreset|].
  destruct (update_sim s t w2 v2 p1 b1 w' Hs1 Ht1 Hupd) as (-> & Hupd').
  exists (updated p1), (upd_world v2 t (with_filters b1 (updated p1))), b1.
  split; [by eapply points_to_upd|]. split.
  { rewrite (bind_ok _ _ _ _ _ Hreset'). exact Hupd'. }
  split; [by eapply points_to_upd|].
  split; [exact Hr1|]. split; [exact Hr2|].
  assert (p'' = updated p1) as <-
    by (eapply points_to_inj; [exact Hs''|by eapply points_to_upd]).
  by injection Hcore as _ _ _ -> _.
Qed.

(** What [set_filters] with positional arguments leaves of a project that
    [reset_filters] has rescanned: the slots, whether the arguments are
    accepted, and the attributes. *)
Definition slots_after (p : ProjectObj) (args : list string)
    : list (pylist string) :=
  match args with
  | [] => replicate 6 None
  | _ :: _ => [planned p args 0; planned p args 1; planned p args 2;
               planned p args 3; None; None]
  end.

Definition accepted (p : ProjectObj) (args : list string) : bool :=
  match args with
  | [] => true
  | _ :: _ => length (List.filter (unmatched p) args) =? 0
  end.

Definition filtered (p : ProjectObj) (args : list string) : ProjectObj :=
  let fv := slots_after p args in
  updated
    (with_df
       (df_filter
          (passes (dc_idx p) (default None (fv !! 0)) (default None (fv !! 1))
             (default None (fv !! 2)) (default None (fv !! 3))) (df p)) p).

Lemma filtered_with_filters b p args :
  filtered (with_filters b p) args = with_filters b (filtered p args).
Proof.
  unfold filtered.
  change (slots_after (with_filters b p) args) with (slots_after p args).
  set (d := df_filter _ _).
  change (with_df d (with_filters b p)) with (with_filters b (with_df d p)).
  by rewrite updated_with_filters.
Qed.

Lemma reset_filters_core `{RegexEngine} s ext w w' p p' :
  points_to w s p → Project.reset_filters s ext w = (Ok (), w') →
  points_to w' s p' → core p' = core p.
Proof.
  intros Hs Hreset Hs'.
  pose proof (keeps_attr_reset_filters s (λ q, core q = core p)
                (core_eq_trans_r _) s ext w
                (λ q Hq, f_equal core (points_to_inj _ _ _ _ Hq Hs))) as HI.
  rewrite Hreset in HI. by apply HI.
Qed.

Lemma set_filters_after_reset `{RegexEngine} s args w0 w p0 p :
  points_to w0 s p0 →
  Project.reset_filters s (Project.pyval_of_list (ext_filter p0)) w0
  = (Ok (), w) →
  points_to w s p →
  (0 ≤ dc_idx p < 3)%Z →
  ∃ w',
    Project.set_filters s args [] w0
    = (if accepted p args then Ok ()
       else SysExit InputValueError (MsgWrongFilterInput args), w')
    ∧ (accepted p args = true →
       filter_state w' s (filtered p args) (slots_after p args)).
Proof.
  intros Hs0 Hreset Hs Hdc.
  destruct (reset_filters_state _ _ _ _ _ Hreset Hs Hdc) as (Hst & Hvoc & Hready).
  assert (∃ wa,
    (match args with [] => ret () | _ :: _ => Project.set_filters_args s args end) w
    = (if accepted p args then Ok ()
       else SysExit InputValueError (MsgWrongFilterInput args), wa)
    ∧ filter_state wa s p (slots_after p args)
    ∧ (∀ Hrows : length (rows (df p)) ≠ 0,
         (truthy_list (default None (slots_after p args !! 0)) = true →
          Name "Subject" ∈ columns (df p))
         ∧ (truthy_list (default None (slots_after p args !! 1)) = true →
            Name "Session" ∈ columns (df p))
         ∧ (truthy_list (default None (slots_after p args !! 2)) = true →
            Name (if (dc_idx p =? 0)%Z then "DataType" else "Pipeline")
            ∈ columns (df p))
         ∧ (truthy_list (default None (slots_after p args !! 3)) = true →
            (dc_idx p =? 1)%Z = true → Name "Step" ∈ columns (df p))
         ∧ (truthy_list (default None (slots_after p args !! 3)) = true →
            (dc_idx p =? 1)%Z = false → (dc_idx p =? 2)%Z = true →
            Name "Result" ∈ columns (df p)))) as (wa & Hargs & Hsta & Hcols).
  { destruct args as [|a args].
    - exists w. split; [done|]. split; [exact Hst|]. by intros _.
    - destruct (set_filters_args_run w s p (a :: args) Hst Hvoc)
        as (wa & Hrun & Hsta & _); [done|].
      exists wa. split; [exact Hrun|]. split; [exact Hsta|].
      intros Hrows. exact (planned_columns p (a :: args) Hdc (Hready Hrows)). }
  assert (filter_state wa s p
            [default None (slots_after p args !! 0);
             default None (slots_after p args !! 1);
             default None (slots_after p args !! 2);
             default None (slots_after p args !! 3); None; None]) as Hsta'.
  { by destruct args. }
  pose proof (applying_filters_eq wa s p _ _ _ _ (df p) Hsta' Hcols) as Happ.
  fold (filtered p args).
  set (d' := df_filter _ (df p)) in *.
  assert (update_ready (with_df d' p)) as Hready'.
  { intros Hrows c Hc. cbn [df with_df columns] in *.
    apply Hready; [|exact Hc].
    intros Hzero. apply Hrows. unfold d', df_filter. cbn [rows].
    apply length_zero_iff_nil in Hzero. by rewrite Hzero. }
  assert (∀ k : unit → M unit,
            Project.set_filters s args [] w0
            = bind (match args with
                    | [] => ret ()
                    | _ :: _ => Project.set_filters_args s args
                    end)
                (λ _, bind (getattr s "_Project__df" df)
                   (λ d, bind (Project.applying_filters s d)
                      (λ d, bind (setattr s "_Project__df" (with_df d))
                         (λ _, Project.__update s)))) w) as Hset.
  { intros _. unfold Project.set_filters, Project.ext_.
    rewrite !bind_assoc, (bind_getattr _ _ _ _ _ _ Hs0).
    rewrite (bind_ok _ _ _ _ _ Hreset). by destruct args. }
  rewrite (Hset (λ _, ret ())). clear Hset.
  destruct (accepted p args) eqn:Hacc.
  - eexists. split.
    + rewrite (bind_ok _ _ _ _ _ Hargs).
      rewrite (bind_getattr _ _ _ _ _ _ (proj1 Hsta)).
      rewrite (bind_ok _ _ _ _ _ Happ).
      rewrite (bind_setattr _ _ _ _ _ _ (proj1 Hsta)).
      apply update_run; [by eapply points_to_upd, (proj1 Hsta)|exact Hready'].
    + intros _. rewrite upd_world_twice.
      pose proof (filter_state_upd wa s p _ (λ q, updated (with_df d' q))
                    (λ q, proj2 (proj2 (proj2 (updated_core (with_df d' q)))))
                    Hsta) as Hfin.
      exact Hfin.
  - exists wa. split; [|done]. by rewrite (bind_exit _ _ _ _ _ _ Hargs).
Qed.

(** [set_filters] returns on the one project exactly as on the other, and
    leaves the two alike, with the same values in their slots. *)
Lemma set_filters_sim `{RegexEngine} s t args kwargs w v p b w' :
  points_to w s p → points_to v t (with_filters b p) → root v = root w →
  (0 ≤ dc_idx p < 3)%Z →
  Project.set_filters s args kwargs w = (Ok (), w') →
  ∃ p' v' b' fv,
    Project.set_filters t args kwargs v = (Ok (), v')
    ∧ filter_state w' s p' fv
    ∧ filter_state v' t (with_filters b' p') fv.
Proof.
  intros Hs Ht Hroot Hdc Hrun.
  destruct kwargs as [|k kwargs]; [|discriminate Hrun].
  assert (∃ w1, Project.reset_filters s (Project.pyval_of_list (ext_filter p)) w
                = (Ok (), w1)) as (w1 & Hreset).
  { unfold Project.set_filters, Project.ext_ in Hrun.
    rewrite !bind_assoc, (bind_getattr _ _ _ _ _ _ Hs) in Hrun.
    apply bind_inv_ok in Hrun as ([] & w1 & Hreset & _). by exists w1. }
  destruct (reset_filters_sim s t _ w v p b w1 Hs Ht Hroot Hreset)
    as (p1 & v1 & b1 & Hs1 & Hreset' & Ht1 & _ & _).
  pose proof (reset_filters_core _ _ _ _ _ _ Hs Hreset Hs1) as Hcore.
  assert (0 ≤ dc_idx p1 < 3)%Z as Hdc1
    by (injection Hcore as _ _ _ -> _; exact Hdc).
  destruct (set_filters_after_reset s args w w1 p p1 Hs Hreset Hs1 Hdc1)
    as (w2 & Hset & Hfin).
  destruct (set_filters_after_reset t args v v1 (with_filters b p)
              (with_filters b1 p1) Ht Hreset' Ht1 Hdc1)
    as (v2 & Hset' & Hfin').
  change (accepted (with_filters b1 p1) args) with (accepted p1 args) in *.
  change (slots_after (with_filters b1 p1) args) with (slots_after p1 args) in *.
  rewrite filtered_with_filters in Hfin'.
  rewrite Hset in Hrun.
  destruct (accepted p1 args); [|discriminate Hrun].
  injection Hrun as <-.
  exists (filtered p1 args), v2, b1, (slots_after p1 args).
  split; [exact Hset'|]. split; [by apply Hfin|by apply Hfin'].
Qed.

Lemma view_chain_sim `{RegexEngine} s t dc_id args kwargs w v p b w' :
  points_to w s p → points_to v t (with_filters b p) → root v = root w →
  (0 ≤ dc_idx p < 3)%Z →
  bind (if negb (dc_idx p =? dc_id)%Z then Project.dataclass_set s dc_id
        else ret ())
    (λ _, Project.set_filters s args kwargs) w = (Ok (), w') →
  ∃ p' v' b' fv,
    bind (if negb (dc_idx p =? dc_id)%Z then Project.dataclass_set t dc_id
          else ret ())
      (λ _, Project.set_filters t args kwargs) v = (Ok (), v')
    ∧ filter_state w' s p' fv
    ∧ filter_state v' t (with_filters b' p') fv.
Proof.
  intros Hs Ht Hroot Hdc Hrun. destruct (negb (dc_idx p =? dc_id)%Z).
  - apply bind_inv_ok in Hrun as ([] & w1 & Hset & Hrun).
    destruct (dataclass_set_ok _ _ _ _ _ Hs Hset) as (Hidx & _).
    destruct (dataclass_set_sim s t dc_id w v p b w1 Hs Ht Hroot Hset)
      as (p1 & v1 & b1 & Hs1 & Hset' & Ht1 & Hr1 & Hr2 & Hdc1).
    destruct (set_filters_sim s t args kwargs w1 v1 p1 b1 w' Hs1 Ht1)
      as (p' & v' & b' & fv & Hrun' & Hfin & Hfin');
      [congruence|by rewrite Hdc1|exact Hrun|].
    exists p', v', b', fv. split; [|done].
    by rewrite (bind_ok _ _ _ _ _ Hset').
  - rewrite bind_ret in Hrun |- *.
    destruct (set_filters_sim s t args kwargs w v p b w' Hs Ht Hroot Hdc Hrun)
      as (p' & v' & b' & fv & Hrun' & Hfin & Hfin').
    by exists p', v', b', fv.
Qed.

(** The call as the copy followed by the two steps on the copy. *)
Lemma call_unfold `{RegexEngine} s dc_id args kwargs w p :
  points_to w s p →
  let n := length (heap w) in
  let w1 := mkWorld (heap w ++ [OProject p]) (root w) in
  points_to w1 n p
  ∧ Project.__call__ s dc_id args kwargs w
    = bind (bind (if negb (dc_idx p =? dc_id)%Z
                  then Project.dataclass_set n dc_id else ret ())
              (λ _, Project.set_filters n args kwargs))
        (λ _, ret n) w1.
Proof.
  intros Hs n w1. split.
  - unfold points_to, w1, n. cbn [heap]. by apply list_lookup_middle.
  - unfold Project.__call__, Project.copy.
    rewrite bind_assoc, (bind_getattr _ _ _ _ _ _ Hs).
    unfold bind at 1, alloc at 1. fold n. fold w1.
    assert (points_to w1 s p) as Hs1 by (by apply lookup_app_l_Some).
    rewrite (bind_getattr _ _ _ _ _ _ Hs1). by rewrite !bind_assoc.
Qed.

Lemma call_as_direct `{RegexEngine} s dc_id args kwargs w p :
  points_to w s p → (0 ≤ dc_idx p < 3)%Z →
  let r := Project.__call__ s dc_id args kwargs w in
  let direct :=
    ((if negb (dc_idx p =? dc_id)%Z then Project.dataclass_set s dc_id
      else ret ()) ;; Project.set_filters s args kwargs) w in
  (direct.1 = Ok () ↔ ∃ prj, r.1 = Ok prj)
  ∧ (∀ prj, r.1 = Ok prj →
       ∃ p' b fv, filter_state direct.2 s p' fv
                  ∧ filter_state r.2 prj (with_filters b p') fv).
Proof.
  intros Hs Hdc r direct.
  destruct (call_unfold s dc_id args kwargs w p Hs) as (Hn & Hcall).
  set (n := length (heap w)) in *.
  set (w1 := mkWorld (heap w ++ [OProject p]) (root w)) in *.
  set (chain := bind (if negb (dc_idx p =? dc_id)%Z
                      then Project.dataclass_set n dc_id else ret ())
                  (λ _, Project.set_filters n args kwargs)) in Hcall.
  assert (points_to w s (with_filters (filters p) p)) as Hs'
    by (by rewrite with_filters_same).
  assert (∀ prj, r.1 = Ok prj →
            ∃ p' b fv w', direct = (Ok (), w')
                          ∧ filter_state w' s p' fv
                          ∧ filter_state r.2 prj (with_filters b p') fv) as Hback.
  { intros prj Hprj. unfold r in *. rewrite Hcall in Hprj |- *.
    unfold bind at 1 in Hprj. unfold bind at 1.
    destruct (chain w1) as [[[]|e|c msg] v'] eqn:Hview;
      [|cbn [fst] in Hprj; discriminate Hprj..].
    unfold chain in Hview.
    destruct (view_chain_sim n s dc_id args kwargs w1 w p (filters p) v'
                Hn Hs' eq_refl Hdc Hview)
      as (p' & w' & b' & fv & Hdir & Hfin & Hfin').
    exists (with_filters b' p'), (filters p'), fv, w'.
    split; [exact Hdir|]. split; [exact Hfin'|].
    injection Hprj as <-. cbn [snd ret].
    change (with_filters (filters p') (with_filters b' p'))
      with (with_filters (filters p') p').
    by rewrite with_filters_same. }
  split; [split|].
  - intros Hdir. destruct direct as [o w'] eqn:Hd. cbn [fst] in Hdir. subst o.
    assert (points_to w1 n (with_filters (filters p) p)) as Hn'
      by (by rewrite with_filters_same).
    destruct (view_chain_sim s n dc_id args kwargs w w1 p (filters p) w'
                Hs Hn' eq_refl Hdc Hd)
      as (p' & v' & b' & fv & Hview & _).
    exists n. unfold r. rewrite Hcall. unfold chain.
    by rewrite (bind_ok _ _ _ _ _ Hview).
  - intros (prj & Hprj). destruct (Hback prj Hprj) as (? & ? & ? & w' & -> & _).
    done.
  - intros prj Hprj.
    destruct (Hback prj Hprj) as (p' & b & fv & w' & -> & Hfin & Hfin').
    by exists p', b, fv.
Qed.

(** C1 (amended). Whatever the arguments, and whether the call returns,
    raises or exits, invoking a project as a query view leaves every
    object that existed before the call as it was: the project itself
    with its table and its derived lists, its six-slot filter list and
    the lists in the slots; the directory is untouched, and [subjects]
    reads on the parent what it read before.  A call that returns hands
    out a project object that did not exist before.  On a project whose
    data-class index is in [range(3)] the call returns exactly when the
    assignment of [dc_id] to [dataclass], made where [dc_id] is not the
    data class of the project, followed by [set_filters] with the same
    arguments would return on the project itself; the view then has the
    attributes the project itself would have had after these two steps,
    its table and its derived lists among them, in a filter list of its
    own whose six slots hold the same values. *)
Theorem call_leaves_parent `{RegexEngine}
    (s : addr) (dc_id : Z) (args : list string)
    (kwargs : list (string * pyval)) (w : world) :
  let r := Project.__call__ s dc_id args kwargs w in
  (∀ a o, heap w !! a = Some o → heap r.2 !! a = Some o)
  ∧ root r.2 = root w
  ∧ (Project.subjects_ s r.2).1 = (Project.subjects_ s w).1
  ∧ (∀ prj, r.1 = Ok prj →
       heap w !! prj = None ∧ ∃ p', points_to r.2 prj p')
  ∧ (∀ p, points_to w s p → (0 ≤ dc_idx p < 3)%Z →
       let direct :=
         ((if negb (dc_idx p =? dc_id)%Z then Project.dataclass_set s dc_id
           else ret ()) ;; Project.set_filters s args kwargs) w in
       (direct.1 = Ok () ↔ ∃ prj, r.1 = Ok prj)
       ∧ (∀ prj, r.1 = Ok prj →
            ∃ p' b fv, filter_state direct.2 s p' fv
                       ∧ filter_state r.2 prj (with_filters b p') fv)).
Proof.
  destruct (call_frame s dc_id args kwargs w) as (H1 & H2 & H3 & H4).
  cbv zeta. split; [exact H1|]. split; [exact H2|]. split; [exact H3|].
  split; [exact H4|]. intros p Hs Hdc.
  exact (call_as_direct s dc_id args kwargs w p Hs Hdc).
Qed.

Lemma call_leaves_parent_witness :
  ∃ prj, (@Project.__call__ Scenario.engine Scenario.prj 0 ["A"] []
            Scenario.w_AB).1 = Ok prj.
Proof.
  assert (∃ p, points_to Scenario.w_AB Scenario.prj p ∧ dc_idx p = 0%Z)
    as (p & Hs & Hdc).
  { vm_compute. eexists. split; reflexivity. }
  destruct (@call_leaves_parent Scenario.engine Scenario.prj 0 ["A"] []
              Scenario.w_AB) as (_ & _ & _ & _ & Hcall).
  apply (Hcall p Hs); [rewrite Hdc; lia|].
  rewrite Hdc. vm_compute. reflexivity.
Defined.
